(** * Progression engine of the habit tracker (tama_rpg/app.py)

    A shallow embedding of the pure core of [app.py]: the full recompute
    [recompute_profile_from_actions], the incremental [handle_daily_check]
    with [apply_weekly_decay], the classification
    [compute_class_and_traits], [layer_flags], [log_today] and
    [get_recent_actions], followed by the properties of the specification
    that concern them.

    Modelling conventions.
    - Integers are Python integers: [Z], no wrap-around.
    - A [date] object is its day ordinal ([date.toordinal()]), a [Z] from 1
      to [MAXORDINAL]; [d + timedelta(days=1)] is [d + 1] and [(a - b).days]
      is [a - b].  The [OverflowError] of a step past [date.max] is not
      modelled.
    - A Python [str] is the string of its UTF-8 bytes, so that the byte-wise
      comparison of [String.compare] is both the comparison of [str] and
      that of an SQLite TEXT column.
    - The [date] column of the [actions] table holds text, and the model
      keeps it as text: rows are sorted, grouped and looked up by their date
      text, and a text becomes a date only through [parse_date], the model
      of [datetime.strptime(s, "%Y-%m-%d")] on ASCII text ([strptime] also
      accepts the decimal digits of other scripts; such a text is rejected
      here).  [isoformat] is [date.isoformat()].
    - [today] and [last_check_date] are kept as dates: the source holds them
      as the text [isoformat] wrote and parses them back.
    - The [actions] table is the list of its rows [(date, type)] in
      increasing [id] order; the [type] column is an unconstrained string
      ([/log] stores whatever the form sends).
    - The profile dictionary [p] always carries the same ten keys; it is a
      record, and [p[k]] for a computed key [k] goes through
      [stat_get]/[stat_set].
    - Python floats are IEEE 754 binary64 values, modelled by the Standard
      Library's [spec_float] with precision 53 and [emax] 1024.
    - A raised exception is [None]. *)

From Stdlib Require Import ZArith List String Ascii Lia Sorted SpecFloat.
From stdpp Require Import base option list strings gmap.

Open Scope Z_scope.

(** ** Constants *)

Definition STAT_KEYS : list string :=
  ["strength"; "stamina"; "intelligence"; "wealth"; "discipline"; "consistency"]%string.

Definition ACTION_TYPES : list string :=
  ["strength"; "stamina"; "intelligence"; "wealth"; "discipline"]%string.

Definition GAIN : gmap string Z :=
  list_to_map
    [("strength", 5); ("stamina", 5); ("intelligence", 3); ("wealth", 7);
     ("discipline", 4)]%string.

Definition EXP_PER_ACTION : Z := 10.
Definition CONSISTENCY_PER_DAY : Z := 2.

Definition need_exp_for_next (level : Z) : Z := 100 + level * 20.

Definition streak_bonus_exp (streak : Z) : Z :=
  if 30 <=? streak then 30
  else if 10 <=? streak then 30
  else if 5 <=? streak then 15
  else if 2 <=? streak then 5
  else 0.

(** ** The profile *)

Record Profile : Type := mkProfile {
  level : Z;
  exp : Z;
  strength : Z;
  stamina : Z;
  intelligence : Z;
  wealth : Z;
  discipline : Z;
  consistency : Z;
  streak : Z;
  last_check_date : Z
}.

Definition set_level (v : Z) (p : Profile) : Profile :=
  mkProfile v (exp p) (strength p) (stamina p) (intelligence p) (wealth p)
    (discipline p) (consistency p) (streak p) (last_check_date p).

Definition set_exp (v : Z) (p : Profile) : Profile :=
  mkProfile (level p) v (strength p) (stamina p) (intelligence p) (wealth p)
    (discipline p) (consistency p) (streak p) (last_check_date p).

Definition set_strength (v : Z) (p : Profile) : Profile :=
  mkProfile (level p) (exp p) v (stamina p) (intelligence p) (wealth p)
    (discipline p) (consistency p) (streak p) (last_check_date p).

Definition set_stamina (v : Z) (p : Profile) : Profile :=
  mkProfile (level p) (exp p) (strength p) v (intelligence p) (wealth p)
    (discipline p) (consistency p) (streak p) (last_check_date p).

Definition set_intelligence (v : Z) (p : Profile) : Profile :=
  mkProfile (level p) (exp p) (strength p) (stamina p) v (wealth p)
    (discipline p) (consistency p) (streak p) (last_check_date p).

Definition set_wealth (v : Z) (p : Profile) : Profile :=
  mkProfile (level p) (exp p) (strength p) (stamina p) (intelligence p) v
    (discipline p) (consistency p) (streak p) (last_check_date p).

Definition set_discipline (v : Z) (p : Profile) : Profile :=
  mkProfile (level p) (exp p) (strength p) (stamina p) (intelligence p)
    (wealth p) v (consistency p) (streak p) (last_check_date p).

Definition set_consistency (v : Z) (p : Profile) : Profile :=
  mkProfile (level p) (exp p) (strength p) (stamina p) (intelligence p)
    (wealth p) (discipline p) v (streak p) (last_check_date p).

Definition set_streak (v : Z) (p : Profile) : Profile :=
  mkProfile (level p) (exp p) (strength p) (stamina p) (intelligence p)
    (wealth p) (discipline p) (consistency p) v (last_check_date p).

Definition set_last_check_date (v : Z) (p : Profile) : Profile :=
  mkProfile (level p) (exp p) (strength p) (stamina p) (intelligence p)
    (wealth p) (discipline p) (consistency p) (streak p) v.

(** [p[k]] for a computed key.  The source only computes keys taken from
    [GAIN], [ACTION_TYPES] or [STAT_KEYS], all of them among the six stat
    keys; any other key reads 0 and writes nothing here. *)
Definition stat_get (p : Profile) (k : string) : Z :=
  if decide (k = "strength"%string) then strength p
  else if decide (k = "stamina"%string) then stamina p
  else if decide (k = "intelligence"%string) then intelligence p
  else if decide (k = "wealth"%string) then wealth p
  else if decide (k = "discipline"%string) then discipline p
  else if decide (k = "consistency"%string) then consistency p
  else 0.

Definition stat_set (p : Profile) (k : string) (v : Z) : Profile :=
  if decide (k = "strength"%string) then set_strength v p
  else if decide (k = "stamina"%string) then set_stamina v p
  else if decide (k = "intelligence"%string) then set_intelligence v p
  else if decide (k = "wealth"%string) then set_wealth v p
  else if decide (k = "discipline"%string) then set_discipline v p
  else if decide (k = "consistency"%string) then set_consistency v p
  else p.

(** The dictionary literal at the top of [recompute_profile_from_actions],
    also the row [init_db] inserts. *)
Definition zero_profile (today : Z) : Profile :=
  mkProfile 1 0 0 0 0 0 0 0 0 today.

(** ** Dates *)

(** [date.max.toordinal()] *)
Definition MAXORDINAL : Z := 3652059.

(** A [date] object is its proleptic Gregorian ordinal; there is one for
    every ordinal from 1 to [MAXORDINAL]. *)
Definition is_date (n : Z) : bool := (1 <=? n) && (n <=? MAXORDINAL).

Definition is_leap (year : Z) : bool :=
  (year mod 4 =? 0) && (negb (year mod 100 =? 0) || (year mod 400 =? 0)).

Definition days_before_year (year : Z) : Z :=
  let y := year - 1 in y * 365 + y / 4 - y / 100 + y / 400.

Definition month_length (leap : bool) (month : Z) : Z :=
  if (month =? 2) && leap then 29
  else nth (Z.to_nat (month - 1)) [31; 28; 31; 30; 31; 30; 31; 31; 30; 31; 30; 31] 0.

Definition days_before_month (leap : bool) (month : Z) : Z :=
  nth (Z.to_nat (month - 1)) [0; 31; 59; 90; 120; 151; 181; 212; 243; 273; 304; 334] 0
  + (if (2 <? month) && leap then 1 else 0).

Definition days_in_month (year month : Z) : Z := month_length (is_leap year) month.

(** [date(year, month, day).toordinal()] *)
Definition ymd2ord (year month day : Z) : Z :=
  days_before_year year + days_before_month (is_leap year) month + day.

(** Month and day of the [n]-th day (from 0) of a year. *)
Definition month_day (leap : bool) (n : Z) : Z * Z :=
  let month := (n + 50) / 32 in
  let preceding := days_before_month leap month in
  if n <? preceding then
    (month - 1, n - (preceding - month_length leap (month - 1)) + 1)
  else (month, n - preceding + 1).

(** [date.fromordinal(n)] as (year, month, day). *)
Definition ord2ymd (n : Z) : Z * Z * Z :=
  let n := n - 1 in
  let n400 := n / 146097 in
  let n := n mod 146097 in
  let n100 := n / 36524 in
  let n := n mod 36524 in
  let n4 := n / 1461 in
  let n := n mod 1461 in
  let n1 := n / 365 in
  let n := n mod 365 in
  let year := n400 * 400 + 1 + n100 * 100 + n4 * 4 + n1 in
  if (n1 =? 4) || (n100 =? 4) then (year - 1, 12, 31)
  else
    let leapyear := (n1 =? 3) && (negb (n4 =? 24) || (n100 =? 3)) in
    let '(month, day) := month_day leapyear n in
    (year, month, day).

(** ** Date texts *)

Definition digit_char (k : Z) : ascii := ascii_of_N (Z.to_N (48 + k)).

Definition digit_val (c : ascii) : option Z :=
  let n := Z.of_N (N_of_ascii c) in
  if (48 <=? n) && (n <=? 57) then Some (n - 48) else None.

(** ["%04d-%02d-%02d" % (year, month, day)] *)
Definition iso_text (year month day : Z) : string :=
  String (digit_char (year / 1000)) (String (digit_char (year / 100 mod 10))
  (String (digit_char (year / 10 mod 10)) (String (digit_char (year mod 10))
  (String "-" (String (digit_char (month / 10)) (String (digit_char (month mod 10))
  (String "-" (String (digit_char (day / 10)) (String (digit_char (day mod 10))
  EmptyString))))))))).

(** [d.isoformat()]; outside the range of [date] there is no [d], and the
    text is empty. *)
Definition isoformat (d : Z) : string :=
  if is_date d then let '(year, month, day) := ord2ymd d in iso_text year month day
  else EmptyString.

(** [date(year, month, day)]: [None] is the [ValueError] of a date that
    does not exist. *)
Definition date_of_ymd (year month day : Z) : option Z :=
  if (1 <=? year) && (year <=? 9999) && (1 <=? month) && (month <=? 12) &&
     (1 <=? day) && (day <=? days_in_month year month)
  then Some (ymd2ord year month day) else None.

Definition parse_month (s : string) : option (Z * string) :=
  match s with
  | String c1 (String c2 r) =>
      if Ascii.eqb c2 "-" then
        v ← digit_val c1; if 1 <=? v then Some (v, r) else None
      else
        match r with
        | String c3 r' =>
            if Ascii.eqb c3 "-" then
              v1 ← digit_val c1; v2 ← digit_val c2;
              if ((v1 =? 1) && (v2 <=? 2)) || ((v1 =? 0) && (1 <=? v2))
              then Some (10 * v1 + v2, r') else None
            else None
        | EmptyString => None
        end
  | _ => None
  end.

Definition parse_day (s : string) : option Z :=
  match s with
  | String c1 EmptyString => v ← digit_val c1; if 1 <=? v then Some v else None
  | String c1 (String c2 EmptyString) =>
      if Ascii.eqb c1 " " then
        v ← digit_val c2; if 1 <=? v then Some v else None
      else
        v1 ← digit_val c1; v2 ← digit_val c2;
        if ((v1 =? 3) && (v2 <=? 1)) || ((1 <=? v1) && (v1 <=? 2)) ||
           ((v1 =? 0) && (1 <=? v2))
        then Some (10 * v1 + v2) else None
  | _ => None
  end.

(** [parse_date]: [datetime.strptime(s, "%Y-%m-%d").date()]. *)
Definition parse_date (s : string) : option Z :=
  match s with
  | String y1 (String y2 (String y3 (String y4 (String sep rest)))) =>
      if Ascii.eqb sep "-" then
        a ← digit_val y1; b ← digit_val y2; c ← digit_val y3; e ← digit_val y4;
        '(month, rest) ← parse_month rest;
        day ← parse_day rest;
        date_of_ymd (1000 * a + 100 * b + 10 * c + e) month day
      else None
  | _ => None
  end.


(** ** The action log *)

(** The [actions] table: its rows [(date, type)] in increasing [id] order.
    The [date] column is TEXT and holds what was stored: [today_str()] from
    [/log], and whatever text [parse_date] accepted from [/update]. *)

(** [ORDER BY date ASC, id ASC] over rows held in [id] order: a stable sort
    on the date text, compared byte by byte as SQLite compares TEXT. *)
Fixpoint insert_by_date (a : string * string) (l : list (string * string)) :
    list (string * string) :=
  match l with
  | [] => [a]
  | b :: l' => if String.leb a.1 b.1 then a :: l else b :: insert_by_date a l'
  end.

Definition get_all_actions (db : list (string * string)) :
    list (string * string) :=
  foldr insert_by_date [] db.

(** [SELECT 1 FROM actions WHERE date=? LIMIT 1] *)
Definition did_anything_on (db : list (string * string)) (d : string) : bool :=
  existsb (fun a => String.eqb a.1 d) db.

(** The larger of two texts. *)
Definition text_max (s1 s2 : string) : string :=
  if String.leb s1 s2 then s2 else s1.

(** The smaller of two texts. *)
Definition text_min (s1 s2 : string) : string :=
  if String.leb s1 s2 then s1 else s2.

(** [SELECT date FROM actions WHERE type=? ORDER BY date DESC LIMIT 1] *)
Definition last_action_date_for_type (db : list (string * string))
    (t : string) : option string :=
  match filter (fun a => a.2 = t) db with
  | [] => None
  | a :: l => Some (foldr text_max a.1 l.*1)
  end.

(** ** Full recompute *)

(** [by_date.setdefault(d, []).append(t)] over the whole log; the keys are
    the date texts of the rows. *)
Definition group_by_date (actions : list (string * string)) :
    gmap string (list string) :=
  fold_left (fun m a => <[a.1 := default [] (m !! a.1) ++ [a.2]]> m) actions ∅.

(** [min(by_date.keys())], the least key as Python compares [str]; [None]
    is the [ValueError] of an empty dictionary. *)
Definition min_key (m : gmap string (list string)) : option string :=
  match (map_to_list m).*1 with
  | [] => None
  | k :: ks => Some (foldr text_min k ks)
  end.

(** Body of [for t in types_today]. *)
Definition add_action (p : Profile) (t : string) : Profile :=
  match GAIN !! t with
  | Some g =>
      let p := stat_set p t (stat_get p t + g) in
      set_exp (exp p + EXP_PER_ACTION) p
  | None => p
  end.


(** The day's gains: the body of the day loop up to, and excluding, the
    level-up.  The types of the day are looked up under [d.isoformat()]. *)
Definition day_gains (by_date : gmap string (list string)) (d : Z)
    (p : Profile) : Profile :=
  let types_today := default [] (by_date !! isoformat d) in
  let p := fold_left add_action types_today p in
  if 0 <? Z.of_nat (length types_today) then
    let p := set_consistency (consistency p + CONSISTENCY_PER_DAY) p in
    let p := set_streak (streak p + 1) p in
    set_exp (exp p + streak_bonus_exp (streak p)) p
  else set_streak 0 p.

(** [while p["exp"] >= need_exp_for_next(p["level"])], bounded by [fuel]
    iterations. *)
Fixpoint level_up_loop (fuel : nat) (p : Profile) : Profile :=
  match fuel with
  | O => p
  | S fuel' =>
      if need_exp_for_next (level p) <=? exp p then
        let p := set_exp (exp p - need_exp_for_next (level p)) p in
        level_up_loop fuel' (set_level (level p + 1) p)
      else p
  end.

(** Every iteration removes [need >= 100] experience once the level is
    non-negative, so [exp] itself bounds the number of iterations
    ([level_up_normalized] below shows that the loop is left through its
    test). *)
Definition level_up (p : Profile) : Profile :=
  level_up_loop (Z.to_nat (exp p)) p.


Definition day_step (by_date : gmap string (list string)) (d : Z)
    (p : Profile) : Profile :=
  level_up (day_gains by_date d p).

(** The two date loops of the source have the same shape,
    [while d <= end: body(d); d += timedelta(days=1)]; [iter_days] runs it
    for at most [fuel] iterations. *)
Fixpoint iter_days (body : Z → Profile → Profile) (fuel : nat)
    (d end_ : Z) (p : Profile) : Profile :=
  match fuel with
  | O => p
  | S fuel' =>
      if d <=? end_ then iter_days body fuel' (d + 1) end_ (body d p) else p
  end.


(** The initial dictionary and the day loop of
    [recompute_profile_from_actions] (up to [d += timedelta(days=1)]), for a
    non-empty [actions]: [start] is [parse_date] of the least key, and
    [None] is the [ValueError] of a key that [parse_date] rejects. *)
Definition walk_phase (actions : list (string * string)) (today : Z) :
    option Profile :=
  let p := zero_profile today in
  let by_date := group_by_date actions in
  start_str ← min_key by_date;
  start ← parse_date start_str;
  Some (iter_days (day_step by_date) (Z.to_nat (today - start + 1)) start today p).

(** [last_date_for]: initialised to [None] on the five action types, then
    overwritten in log order with the date text of the row. *)
Definition last_date_init : gmap string (option string) :=
  list_to_map ((fun t => (t, None)) <$> ACTION_TYPES).

Definition last_date_for (actions : list (string * string)) :
    gmap string (option string) :=
  fold_left
    (fun m a => if decide (is_Some (m !! a.2)) then <[a.2 := Some a.1]> m else m)
    actions last_date_init.

(** Body of the decay loop, the same in the full recompute and in
    [apply_weekly_decay]; [last] is the date text found for [t].  [None] and
    the empty text take the [continue]; a text that [parse_date] rejects
    raises. *)
Definition decay_type (cur_d : Z) (last : option string) (p : Profile)
    (t : string) : option Profile :=
  match last with
  | None => Some p
  | Some last_d_str =>
      if decide (last_d_str = EmptyString) then Some p
      else
        last_d ← parse_date last_d_str;
        Some (if 7 <=? cur_d - last_d
              then stat_set p t (Z.max 0 (stat_get p t - 2)) else p)
  end.

(** The rest of [recompute_profile_from_actions]: the weak decay. *)
Definition decay_phase (actions : list (string * string)) (today : Z)
    (p : Profile) : option Profile :=
  let last := last_date_for actions in
  fold_left (fun acc t => p ← acc; decay_type today (mjoin (last !! t)) p t)
    ACTION_TYPES (Some p).

Definition recompute_profile_from_actions (db : list (string * string))
    (today : Z) : option Profile :=
  let actions := get_all_actions db in
  match actions with
  | [] => Some (zero_profile today)
  | _ :: _ => p ← walk_phase actions today; decay_phase actions today p
  end.

(** ** Incremental daily check *)

Definition apply_weekly_decay (db : list (string * string)) (p : Profile)
    (current_date : Z) : option Profile :=
  fold_left
    (fun acc t =>
       p ← acc; decay_type current_date (last_action_date_for_type db t) p t)
    ACTION_TYPES (Some p).

(** Body of the loop of [handle_daily_check]. *)
Definition streak_step (db : list (string * string)) (d : Z) (p : Profile) :
    Profile :=
  if did_anything_on db (isoformat d) then set_streak (streak p + 1) p
  else set_streak 0 p.

Definition handle_daily_check (db : list (string * string)) (p : Profile)
    (current_date : Z) : option Profile :=
  let last := last_check_date p in
  let cur := current_date in
  if cur <=? last then Some p
  else
    let p := iter_days (streak_step db) (Z.to_nat (cur - last)) (last + 1) cur p in
    p ← apply_weekly_decay db p current_date;
    Some (set_last_check_date current_date p).

(** ** Deferred levelling

    The alternative evaluation order the specification compares with: the
    same walk with no level-up inside the day loop, and one run of the
    level-up loop after the last day. *)
Definition walk_phase_deferred (actions : list (string * string)) (today : Z) :
    option Profile :=
  let p := zero_profile today in
  let by_date := group_by_date actions in
  start_str ← min_key by_date;
  start ← parse_date start_str;
  Some (level_up
          (iter_days (day_gains by_date) (Z.to_nat (today - start + 1))
             start today p)).

Definition recompute_deferred (db : list (string * string)) (today : Z) :
    option Profile :=
  let actions := get_all_actions db in
  match actions with
  | [] => Some (zero_profile today)
  | _ :: _ => p ← walk_phase_deferred actions today; decay_phase actions today p
  end.

(** ** Classification *)

(** Python floats: IEEE 754 binary64. *)
Definition binary64_prec : Z := 53.
Definition binary64_emax : Z := 1024.

(** The literal [0.7]: the nearest binary64 value, [0x1.6666666666666p-1]. *)
Definition FLOAT_0_7 : spec_float := S754_finite false 6305039478318694 (-53).

(** Conversion of an [int] operand to [float], rounding to nearest even;
    [None] is the [OverflowError] of an integer beyond the binary64 range. *)
Definition float_of_int (n : Z) : option spec_float :=
  match binary_normalize binary64_prec binary64_emax n 0 false with
  | S754_infinity _ => None
  | f => Some f
  end.

Definition float_mul (x y : spec_float) : spec_float :=
  SFmul binary64_prec binary64_emax x y.

(** [int(f)]: truncation towards zero; [None] on an infinity or a NaN. *)
Definition int_of_float (f : spec_float) : option Z :=
  match f with
  | S754_zero _ => Some 0
  | S754_finite s m e =>
      let a := if 0 <=? e then Z.pos m * 2 ^ e else Z.pos m / 2 ^ (- e) in
      Some (if s then - a else a)
  | _ => None
  end.

(** [int(v * 0.7)] *)
Definition int_mul_0_7 (v : Z) : option Z :=
  f ← float_of_int v; int_of_float (float_mul f FLOAT_0_7).

(** The label table, written out twice in the source. *)
Definition CLASS_LABEL : gmap string string :=
  list_to_map
    [("strength", "보디빌더"); ("stamina", "러너"); ("intelligence", "학자");
     ("wealth", "재력가"); ("discipline", "현자"); ("consistency", "맑은눈")]%string.

(** [sorted(items, key=lambda kv: kv[1], reverse=True)]: descending on the
    value, and stable (Python keeps the original order of equal keys also
    under [reverse=True]). *)
Fixpoint insert_desc (x : string * Z) (l : list (string * Z)) :
    list (string * Z) :=
  match l with
  | [] => [x]
  | y :: l' => if x.2 <? y.2 then y :: insert_desc x l' else x :: l
  end.

Definition sorted_desc (l : list (string * Z)) : list (string * Z) :=
  foldr insert_desc [] l.

Record Classification : Type := mkClassification {
  base_class : string;
  trait : option string;
  title : option string;
  sorted_stats : list (string * Z)
}.

Definition stats_items (p : Profile) : list (string * Z) :=
  (fun k => (k, stat_get p k)) <$> STAT_KEYS.

Definition compute_class_and_traits (p : Profile) : option Classification :=
  let ranked := sorted_desc (stats_items p) in
  '(top1, v1) ← ranked !! 0%nat;
  '(top2, v2) ← ranked !! 1%nat;
  '(top3, v3) ← ranked !! 2%nat;
  base ← CLASS_LABEL !! top1;
  tr ← (if 0 <? v1 then
          n ← int_mul_0_7 v1;
          if n <=? v2 then Some <$> CLASS_LABEL !! top2 else Some None
        else Some None);
  let ti :=
    if (v1 - v3 <=? 10) && (0 <? v1) then Some "맑은눈(확장형)"%string
    else None in
  Some (mkClassification base tr ti ranked).

(** ** Layer flags *)

(** [layer_flags]: for each stat key, in order, [flags[f"{k}_20"]] and
    [flags[f"{k}_50"]]. *)
Definition layer_flags (p : Profile) : gmap string bool :=
  fold_left
    (fun flags k =>
       let flags := <[(k ++ "_20")%string := 20 <=? stat_get p k]> flags in
       <[(k ++ "_50")%string := 50 <=? stat_get p k]> flags)
    STAT_KEYS ∅.

(** ** Logging today's actions *)

(** [log_today], on the table and the cached profile: nothing happens on an
    empty selection; otherwise one row per selected type is inserted with
    [today_str()] as its date (the new rows get the largest ids, in
    selection order), and the profile is recomputed from the whole table and
    saved.  The result is the table and the profile after the request;
    [None] for the profile is an exception raised by the recompute, after
    the rows were committed. *)
Definition log_today (db : list (string * string)) (cached : Profile)
    (today : Z) (selected : list string) :
    list (string * string) * option Profile :=
  match selected with
  | [] => (db, Some cached)
  | _ :: _ =>
      let db := db ++ ((fun t => (isoformat today, t)) <$> selected) in
      (db, recompute_profile_from_actions db today)
  end.

(** ** The recent actions of the index page *)

Definition TYPE_KO : gmap string string :=
  list_to_map
    [("strength", "근력운동"); ("stamina", "유산소"); ("intelligence", "공부/독서");
     ("wealth", "적금/투자"); ("discipline", "금주/식단")]%string.

(** A row of the [actions] table with the columns [get_recent_actions]
    selects; [row_note] is [None] for SQL NULL. *)
Record ActionRow : Type := mkActionRow {
  row_id : Z;
  row_date : string;
  row_type : string;
  row_note : option string
}.

(** A dictionary of the list [get_recent_actions] returns. *)
Record RecentAction : Type := mkRecentAction {
  ra_id : Z;
  ra_date : string;
  ra_type : string;
  ra_type_ko : string;
  ra_note : string
}.

(** [a] comes no later than [b] under [ORDER BY date DESC, id DESC], the
    dates compared as text. *)
Definition row_newer_eq (a b : ActionRow) : bool :=
  String.ltb (row_date b) (row_date a) ||
  (String.eqb (row_date b) (row_date a) && (row_id b <=? row_id a)).

Fixpoint insert_recent (r : ActionRow) (l : list ActionRow) : list ActionRow :=
  match l with
  | [] => [r]
  | b :: l' => if row_newer_eq r b then r :: l else b :: insert_recent r l'
  end.

(** [ORDER BY date DESC, id DESC LIMIT ?].  A negative limit is no limit in
    SQLite; a limit outside the signed 64-bit range cannot be bound to the
    statement ([OverflowError]). *)
Definition select_recent (tbl : list ActionRow) (limit : Z) :
    option (list ActionRow) :=
  if (- 2 ^ 63 <=? limit) && (limit <? 2 ^ 63) then
    let rows := foldr insert_recent [] tbl in
    Some (if limit <? 0 then rows
          else take (Z.to_nat (Z.min limit (Z.of_nat (length rows)))) rows)
  else None.

(** The dictionary built for one row: [TYPE_KO.get(t, t)] and
    [r["note"] or ""]. *)
Definition recent_of_row (r : ActionRow) : RecentAction :=
  let t := row_type r in
  mkRecentAction (row_id r) (row_date r) t (default t (TYPE_KO !! t))
    (default ""%string (row_note r)).

Definition get_recent_actions (tbl : list ActionRow) (limit : Z) :
    option (list RecentAction) :=
  match select_recent tbl limit with
  | Some rows => Some (recent_of_row <$> rows)
  | None => None
  end.

(** * The log as dated entries

    The specification speaks of a log of entries dated by calendar days.
    [DayLog] holds the algorithms of the engine on such a log, a list of
    pairs (day, type): the functions above with the date text replaced by
    the day it stands for.  It is a device of the proofs: on a table whose
    dates are all in the form [isoformat] writes, each function of the
    source returns what its counterpart here returns on the log [day_view]
    of the table ([recompute_day_view], [handle_daily_check_day_view]), and
    what is proved of the log carries over to the table. *)
Module DayLog.

(** [ORDER BY date ASC, id ASC] over rows held in [id] order: a stable sort
    on the date. *)
Fixpoint insert_by_date (a : Z * string) (l : list (Z * string)) :
    list (Z * string) :=
  match l with
  | [] => [a]
  | b :: l' => if a.1 <=? b.1 then a :: l else b :: insert_by_date a l'
  end.

Definition get_all_actions (db : list (Z * string)) : list (Z * string) :=
  foldr insert_by_date [] db.

(** [SELECT 1 FROM actions WHERE date=? LIMIT 1] *)
Definition did_anything_on (db : list (Z * string)) (d : Z) : bool :=
  existsb (fun a => a.1 =? d) db.

(** [SELECT date FROM actions WHERE type=? ORDER BY date DESC LIMIT 1] *)
Definition last_action_date_for_type (db : list (Z * string)) (t : string) :
    option Z :=
  match filter (fun a => a.2 = t) db with
  | [] => None
  | a :: l => Some (foldr Z.max a.1 l.*1)
  end.

(** ** Full recompute *)

(** [by_date.setdefault(d, []).append(t)] over the whole log. *)
Definition group_by_date (actions : list (Z * string)) : gmap Z (list string) :=
  fold_left (fun m a => <[a.1 := default [] (m !! a.1) ++ [a.2]]> m) actions ∅.

(** [min(by_date.keys())]; [None] is the [ValueError] of an empty
    dictionary. *)
Definition min_key (m : gmap Z (list string)) : option Z :=
  match (map_to_list m).*1 with
  | [] => None
  | k :: ks => Some (foldr Z.min k ks)
  end.

(** The day's gains: the body of the day loop up to, and excluding, the
    level-up. *)
Definition day_gains (by_date : gmap Z (list string)) (d : Z) (p : Profile) :
    Profile :=
  let types_today := default [] (by_date !! d) in
  let p := fold_left add_action types_today p in
  if 0 <? Z.of_nat (length types_today) then
    let p := set_consistency (consistency p + CONSISTENCY_PER_DAY) p in
    let p := set_streak (streak p + 1) p in
    set_exp (exp p + streak_bonus_exp (streak p)) p
  else set_streak 0 p.

Definition day_step (by_date : gmap Z (list string)) (d : Z) (p : Profile) :
    Profile :=
  level_up (day_gains by_date d p).

(** The initial dictionary and the day loop of
    [recompute_profile_from_actions] (up to [d += timedelta(days=1)]), for a
    non-empty [actions].  On such a log [min_key] is [Some]
    ([min_key_group_by_date]), so the [None] branch is never taken. *)
Definition walk_phase (actions : list (Z * string)) (today : Z) : Profile :=
  let p := zero_profile today in
  let by_date := group_by_date actions in
  match min_key by_date with
  | None => p
  | Some start =>
      iter_days (day_step by_date) (Z.to_nat (today - start + 1)) start today p
  end.

(** [last_date_for]: initialised to [None] on the five action types, then
    overwritten in log order. *)
Definition last_date_init : gmap string (option Z) :=
  list_to_map ((fun t => (t, None)) <$> ACTION_TYPES).

Definition last_date_for (actions : list (Z * string)) :
    gmap string (option Z) :=
  fold_left
    (fun m a => if decide (is_Some (m !! a.2)) then <[a.2 := Some a.1]> m else m)
    actions last_date_init.

(** Body of the decay loop, the same in the full recompute and in
    [apply_weekly_decay]; [last] is the most recent date found for [t], and
    [None] takes the [continue]. *)
Definition decay_type (cur_d : Z) (last : option Z) (p : Profile)
    (t : string) : Profile :=
  match last with
  | None => p
  | Some last_d =>
      if 7 <=? cur_d - last_d then stat_set p t (Z.max 0 (stat_get p t - 2))
      else p
  end.

(** The rest of [recompute_profile_from_actions]: the weak decay. *)
Definition decay_phase (actions : list (Z * string)) (today : Z)
    (p : Profile) : Profile :=
  let last := last_date_for actions in
  fold_left (fun p t => decay_type today (mjoin (last !! t)) p t) ACTION_TYPES p.

Definition recompute_profile_from_actions (db : list (Z * string))
    (today : Z) : Profile :=
  let actions := get_all_actions db in
  match actions with
  | [] => zero_profile today
  | _ :: _ => decay_phase actions today (walk_phase actions today)
  end.

(** ** Incremental daily check *)

Definition apply_weekly_decay (db : list (Z * string)) (p : Profile)
    (current_date : Z) : Profile :=
  fold_left
    (fun p t => decay_type current_date (last_action_date_for_type db t) p t)
    ACTION_TYPES p.

(** Body of the loop of [handle_daily_check]. *)
Definition streak_step (db : list (Z * string)) (d : Z) (p : Profile) :
    Profile :=
  if did_anything_on db d then set_streak (streak p + 1) p
  else set_streak 0 p.

Definition handle_daily_check (db : list (Z * string)) (p : Profile)
    (current_date : Z) : Profile :=
  let last := last_check_date p in
  let cur := current_date in
  if cur <=? last then p
  else
    let p := iter_days (streak_step db) (Z.to_nat (cur - last)) (last + 1) cur p in
    let p := apply_weekly_decay db p current_date in
    set_last_check_date current_date p.

(** ** Deferred levelling

    The alternative evaluation order the specification compares with: the
    same walk with no level-up inside the day loop, and one run of the
    level-up loop after the last day. *)
Definition walk_phase_deferred (actions : list (Z * string)) (today : Z) :
    Profile :=
  let p := zero_profile today in
  let by_date := group_by_date actions in
  match min_key by_date with
  | None => p
  | Some start =>
      level_up
        (iter_days (day_gains by_date) (Z.to_nat (today - start + 1)) start today p)
  end.

Definition recompute_deferred (db : list (Z * string)) (today : Z) : Profile :=
  let actions := get_all_actions db in
  match actions with
  | [] => zero_profile today
  | _ :: _ => decay_phase actions today (walk_phase_deferred actions today)
  end.

(** [log_today], on the table and the cached profile: nothing happens on an
    empty selection; otherwise one row per selected type is inserted with
    today's date (the new rows get the largest ids, in selection order), and
    the profile is recomputed from the whole table and saved. *)
Definition log_today (db : list (Z * string)) (cached : Profile) (today : Z)
    (selected : list string) : list (Z * string) * Profile :=
  match selected with
  | [] => (db, cached)
  | _ :: _ =>
      let db := db ++ ((fun t => (today, t)) <$> selected) in
      (db, recompute_profile_from_actions db today)
  end.


End DayLog.

(** * Vocabulary of the statements *)

(** Experience needed to reach [level p] from level 1, plus the experience
    held: the quantity the level-up loop conserves. *)
Definition total_exp (p : Profile) : Z :=
  exp p + 100 * (level p - 1) + 10 * level p * (level p - 1).

(** Two profiles that agree on everything but [level] and [exp]. *)
Definition same_stats (p q : Profile) : Prop :=
  strength p = strength q ∧ stamina p = stamina q ∧
  intelligence p = intelligence q ∧ wealth p = wealth q ∧
  discipline p = discipline q ∧ consistency p = consistency q ∧
  streak p = streak q ∧ last_check_date p = last_check_date q.

(** The invariant of the data model: a level of at least 1, experience
    below the requirement of the level, and nothing negative. *)
Definition profile_ok (p : Profile) : Prop :=
  1 ≤ level p ∧ 0 ≤ exp p ∧ exp p < need_exp_for_next (level p) ∧
  0 ≤ strength p ∧ 0 ≤ stamina p ∧ 0 ≤ intelligence p ∧ 0 ≤ wealth p ∧
  0 ≤ discipline p ∧ 0 ≤ consistency p ∧ 0 ≤ streak p.

(** The relation between the walk that levels up every day ([p]) and the
    walk that defers levelling ([q]): the same stats and the same total
    experience, [p] being normalized. *)
Definition levelling_rel (p q : Profile) : Prop :=
  same_stats p q ∧ total_exp p = total_exp q ∧
  0 ≤ level p ∧ 0 ≤ exp p ∧ exp p < need_exp_for_next (level p) ∧
  0 ≤ level q ∧ 0 ≤ exp q ∧ 0 ≤ streak p.

(** The order of [ORDER BY date ASC]. *)
Definition date_le (a b : Z * string) : Prop := a.1 ≤ b.1.

(** [start] is the earliest date present in the log. *)
Definition earliest (start : Z) (db : list (Z * string)) : Prop :=
  start ∈ db.*1 ∧ ∀ d, d ∈ db.*1 → start ≤ d.

(** [d] is the most recent date on which type [t] was logged. *)
Definition latest (db : list (Z * string)) (t : string) (d : Z) : Prop :=
  (d, t) ∈ db ∧ ∀ d', (d', t) ∈ db → d' ≤ d.

(** Type [t] occurs nowhere in the log. *)
Definition never_logged (db : list (Z * string)) (t : string) : Prop :=
  ∀ d, (d, t) ∉ db.

(** The streak rule the walk applies, day by day. *)
Definition streak_rule (db : list (Z * string)) (s d : Z) : Z :=
  if decide (d ∈ db.*1) then s + 1 else 0.

(** Occurrences of type [t] among the types of one day. *)
Definition count_type (t : string) (ts : list string) : Z :=
  Z.of_nat (length (filter (fun x => x = t) ts)).

(** Entries of one day whose type is a key of [GAIN]. *)
Definition count_gainful (ts : list string) : Z :=
  Z.of_nat (length (filter (fun x => x ∈ ACTION_TYPES) ts)).

(** Rows of the log that satisfy [P]. *)
Definition count_if (P : Z * string → Prop) `{∀ a, Decision (P a)}
    (db : list (Z * string)) : Z :=
  Z.of_nat (length (filter P db)).

(** Entries of type [t] dated [today] or earlier. *)
Definition count_upto (db : list (Z * string)) (t : string) (today : Z) : Z :=
  count_if (fun a => a.2 = t ∧ a.1 ≤ today) db.

(** The decay loop over a list of types, [last_of] giving the most recent
    date of each type. *)
Definition decay_fold (last_of : string → option Z) (cur_d : Z)
    (ts : list string) (p : Profile) : Profile :=
  fold_left (fun p t => DayLog.decay_type cur_d (last_of t) p t) ts p.

(** What the decay of one type does to its own stat. *)
Definition decayed (last_of : string → option Z) (cur_d : Z) (t : string)
    (v : Z) : Z :=
  match last_of t with
  | Some last_d => if 7 <=? cur_d - last_d then Z.max 0 (v - 2) else v
  | None => v
  end.

(** Position of a key in [STAT_KEYS], the order of the dictionary [stats]. *)
Fixpoint index_of (k : string) (l : list string) : nat :=
  match l with
  | [] => 0
  | x :: l' => if decide (x = k) then 0 else S (index_of k l')
  end.

(** The rank of a key in the canonical six-key order. *)
Definition key_rank (k : string) : nat := index_of k STAT_KEYS.

(** [x] is ranked before [y]: a larger value, or the same value and an
    earlier key. *)
Definition ranks_before (x y : string * Z) : Prop :=
  y.2 < x.2 ∨ (x.2 = y.2 ∧ (key_rank x.1 < key_rank y.1)%nat).

(** [x] comes before [y] in the dictionary [stats]. *)
Definition key_before (x y : string * Z) : Prop :=
  (key_rank x.1 < key_rank y.1)%nat.

(** A shift record with a non-negative mantissa of at most [D] digits. *)
Definition shr_bounded (D : Z) (mrs : shr_record) : Prop :=
  0 ≤ shr_m mrs ∧ Zdigits2 (shr_m mrs) ≤ D.

(** The result of a rounding: not an infinity, not a NaN. *)
Definition float_bounded (D E : Z) (f : spec_float) : Prop :=
  match f with
  | S754_zero _ => True
  | S754_finite _ m e => Z.pos (digits2_pos m) ≤ D ∧ e ≤ E
  | _ => False
  end.

(** The streak and the streak bonuses earned over a list of days: the pair
    (streak after the days, sum of the bonuses of the logged days). *)
Definition bonus_walk (db : list (Z * string)) (days : list Z) : Z * Z :=
  fold_left
    (fun sb d =>
       let s := streak_rule db sb.1 d in
       (s, sb.2 + (if decide (d ∈ db.*1) then streak_bonus_exp s else 0)))
    days (0, 0).


(** The date a stored text stands for; 0 for a text that is no date. *)
Definition day_of (s : string) : Z := default 0 (parse_date s).

(** [s] is a date in the form [isoformat] writes it: [YYYY-MM-DD], month
    and day padded with zeros. *)
Definition is_iso (s : string) : bool :=
  match parse_date s with
  | Some d => String.eqb (isoformat d) s
  | None => false
  end.

(** Every date of the table is in the form [isoformat] writes. *)
Definition canonical (db : list (string * string)) : Prop :=
  forallb (fun a => is_iso a.1) db = true.

(** Every date of the table is accepted by [parse_date]. *)
Definition dates_parse (db : list (string * string)) : Prop :=
  forallb (fun a => bool_decide (is_Some (parse_date a.1))) db = true.

(** The table with its dates parsed: the log as dated entries. *)
Definition day_view (db : list (string * string)) : list (Z * string) :=
  (fun a => (day_of a.1, a.2)) <$> db.

(** The order of [ORDER BY date ASC] on the date text. *)
Definition text_le (a b : string * string) : Prop :=
  String.leb a.1 b.1 = true.

(** The order of the recent list: larger date text first, then larger
    id. *)
Definition newer_first (a b : RecentAction) : Prop :=
  String.ltb (ra_date b) (ra_date a) = true ∨
  (ra_date b = ra_date a ∧ ra_id b ≤ ra_id a).

(** The same order on the days the date texts stand for. *)
Definition later_day_first (a b : RecentAction) : Prop :=
  day_of (ra_date b) < day_of (ra_date a) ∨
  (day_of (ra_date b) = day_of (ra_date a) ∧ ra_id b ≤ ra_id a).


(** [s] is the least date text of the table. *)
Definition least_text (s : string) (db : list (string * string)) : Prop :=
  s ∈ db.*1 ∧ ∀ s', s' ∈ db.*1 → String.leb s s' = true.

(** [s] is the greatest date text among the rows of type [t]. *)
Definition greatest_text (db : list (string * string)) (t s : string) : Prop :=
  (s, t) ∈ db ∧ ∀ s', (s', t) ∈ db → String.leb s' s = true.

(** No row of the table has type [t]. *)
Definition no_row_of_type (db : list (string * string)) (t : string) : Prop :=
  ∀ s, (s, t) ∉ db.

(** The date the decay loop compares with today, from the date text found
    for a type: the inner [None] is the [continue] taken on no text or the
    empty text, the outer [None] the [ValueError] of [parse_date]. *)
Definition decay_day (last : option string) : option (option Z) :=
  match last with
  | None => Some None
  | Some s =>
      if decide (s = EmptyString) then Some None
      else d ← parse_date s; Some (Some d)
  end.

(** The days walked by the full recompute, from [start] to [today], on the
    initial dictionary. *)
Definition day_walk (db : list (string * string)) (start today : Z) : Profile :=
  fold_left (fun p d => day_step (group_by_date (get_all_actions db)) d p)
    (seqZ start (today - start + 1)) (zero_profile today).

(** The same days walked with no level-up. *)
Definition day_walk_deferred (db : list (string * string)) (start today : Z) :
    Profile :=
  fold_left (fun p d => day_gains (group_by_date (get_all_actions db)) d p)
    (seqZ start (today - start + 1)) (zero_profile today).

(** The date the decay loop finds for a type, when the loop returns. *)
Definition last_day_for_type (db : list (string * string)) (t : string) :
    option Z :=
  mjoin (decay_day (last_action_date_for_type db t)).

(** Every date text the decay loop parses is accepted. *)
Definition decay_parses (db : list (string * string)) : Prop :=
  Forall (fun t => is_Some (decay_day (last_action_date_for_type db t)))
    ACTION_TYPES.

(** The streak rule of the incremental check, day by day. *)
Definition streak_after (db : list (string * string)) (s d : Z) : Z :=
  if did_anything_on db (isoformat d) then s + 1 else 0.

(** The profile the incremental check returns, when it returns. *)
Definition daily_check_result (db : list (string * string)) (p : Profile)
    (current_date : Z) : Profile :=
  if current_date <=? last_check_date p then p
  else
    set_last_check_date current_date
      (decay_fold (last_day_for_type db) current_date ACTION_TYPES
         (set_streak
            (fold_left (streak_after db)
               (seqZ (last_check_date p + 1) (current_date - last_check_date p))
               (streak p))
            p)).

(** [last] is the most recent date on which type [t] was logged: every row
    of the type carries a date, and [last] is the latest of them. *)
Definition latest_day (db : list (string * string)) (t : string) (last : Z) :
    Prop :=
  (∃ s, (s, t) ∈ db ∧ parse_date s = Some last) ∧
  ∀ s, (s, t) ∈ db → ∃ n, parse_date s = Some n ∧ n ≤ last.


(** The check that [month_day] gives a month and a day of that month, the
    [n + 1]-th day of the year. *)
Definition month_day_ok (leap : bool) (n : Z) : bool :=
  let '(m, d) := month_day leap n in
  (1 <=? m) && (m <=? 12) && (1 <=? d) && (d <=? month_length leap m) &&
  (days_before_month leap m + d =? n + 1).


(** Lexicographic combination of three comparisons. *)
Definition lex3 (c1 c2 c3 : comparison) : comparison :=
  match c1 with
  | Eq => match c2 with Eq => c3 | c => c end
  | c => c
  end.


(** * Auxiliary results *)

(** ** Record accessors *)

Ltac elem_cases H :=
  repeat (apply elem_of_cons in H as [H|H]); [..|by apply elem_of_nil in H].

Ltac elem_solve := apply list_elem_of_In; simpl; tauto.

(** Closes [∀ k, k ∈ STAT_KEYS → stat_get p k < bound] on a concrete
    profile. *)
Ltac stats_below :=
  let k := fresh "k" in
  let Hk := fresh "Hk" in
  intros k Hk; unfold STAT_KEYS in Hk; elem_cases Hk; subst k; reflexivity.

Lemma stat_set_level p k v : level (stat_set p k v) = level p.
Proof. unfold stat_set; repeat case_decide; reflexivity. Qed.

Lemma stat_set_exp p k v : exp (stat_set p k v) = exp p.
Proof. unfold stat_set; repeat case_decide; reflexivity. Qed.

Lemma stat_set_streak p k v : streak (stat_set p k v) = streak p.
Proof. unfold stat_set; repeat case_decide; reflexivity. Qed.

Lemma stat_set_last_check_date p k v :
  last_check_date (stat_set p k v) = last_check_date p.
Proof. unfold stat_set; repeat case_decide; reflexivity. Qed.

Lemma stat_get_set_eq p k v : k ∈ STAT_KEYS → stat_get (stat_set p k v) k = v.
Proof. unfold STAT_KEYS; intros Hk. elem_cases Hk; subst k; reflexivity. Qed.

Lemma stat_get_set_ne p k k' v :
  k ≠ k' → stat_get (stat_set p k v) k' = stat_get p k'.
Proof.
  intros Hne; unfold stat_set, stat_get.
  repeat case_decide; subst; try reflexivity; congruence.
Qed.

Lemma ACTION_TYPES_STAT_KEYS t : t ∈ ACTION_TYPES → t ∈ STAT_KEYS.
Proof.
  unfold ACTION_TYPES, STAT_KEYS; intros Ht.
  elem_cases Ht; subst t; elem_solve.
Qed.

Lemma consistency_not_action_type : "consistency"%string ∉ ACTION_TYPES.
Proof. unfold ACTION_TYPES; intros H. elem_cases H; discriminate H. Qed.

(** [GAIN] has exactly the five action types as keys. *)
Lemma GAIN_lookup_Some t g :
  GAIN !! t = Some g ↔
  (t, g) ∈ [("strength", 5); ("stamina", 5); ("intelligence", 3);
            ("wealth", 7); ("discipline", 4)]%string.
Proof.
  unfold GAIN. rewrite <- elem_of_list_to_map; [reflexivity|].
  apply NoDup_ListNoDup. cbn.
  repeat (constructor; [simpl; intuition discriminate|]). constructor.
Qed.

Lemma GAIN_is_Some t : is_Some (GAIN !! t) ↔ t ∈ ACTION_TYPES.
Proof.
  unfold ACTION_TYPES; split.
  - intros [g Hg]. apply GAIN_lookup_Some in Hg.
    elem_cases Hg; inversion Hg; subst; elem_solve.
  - intros Ht. elem_cases Ht; subst t; eexists; reflexivity.
Qed.

(** ** The level-up loop *)

Lemma same_stats_refl p : same_stats p p.
Proof. repeat split. Qed.

Lemma same_stats_trans p q r : same_stats p q → same_stats q r → same_stats p r.
Proof. unfold same_stats; intuition congruence. Qed.

Lemma same_stats_sym p q : same_stats p q → same_stats q p.
Proof. unfold same_stats; intuition congruence. Qed.

Lemma same_stats_eq p q :
  same_stats p q → level p = level q → exp p = exp q → p = q.
Proof.
  destruct p, q; unfold same_stats; cbn.
  intros (? & ? & ? & ? & ? & ? & ? & ?) ? ?; congruence.
Qed.

Lemma level_up_loop_same_stats fuel p : same_stats (level_up_loop fuel p) p.
Proof.
  revert p; induction fuel as [|fuel IH]; intros p; cbn; [apply same_stats_refl|].
  case_match; [|apply same_stats_refl].
  eapply same_stats_trans; [apply IH|]. repeat split.
Qed.

Lemma level_up_loop_total_exp fuel p :
  total_exp (level_up_loop fuel p) = total_exp p.
Proof.
  revert p; induction fuel as [|fuel IH]; intros p; cbn; [reflexivity|].
  case_match; [|reflexivity].
  rewrite IH. unfold total_exp, need_exp_for_next; cbn. lia.
Qed.

Lemma level_up_loop_level_le fuel p : level p ≤ level (level_up_loop fuel p).
Proof.
  revert p; induction fuel as [|fuel IH]; intros p; cbn; [lia|].
  case_match; [|lia]. etransitivity; [|apply IH]. cbn; lia.
Qed.

Lemma level_up_loop_exp_nonneg fuel p :
  0 ≤ level p → 0 ≤ exp p → 0 ≤ exp (level_up_loop fuel p).
Proof.
  revert p; induction fuel as [|fuel IH]; intros p Hl He; cbn; [lia|].
  case_match eqn:E; [|lia]. apply Z.leb_le in E.
  apply IH; cbn; unfold need_exp_for_next in *; lia.
Qed.

(** With enough fuel the loop is left because its test fails. *)
Lemma level_up_loop_exits fuel p :
  0 ≤ level p → (Z.to_nat (exp p) ≤ fuel)%nat →
  exp (level_up_loop fuel p) < need_exp_for_next (level (level_up_loop fuel p)).
Proof.
  revert p; induction fuel as [|fuel IH]; intros p Hl Hf; cbn.
  - unfold need_exp_for_next; lia.
  - case_match eqn:E; [|apply Z.leb_gt in E; lia]. apply Z.leb_le in E.
    apply IH; cbn; unfold need_exp_for_next in *; lia.
Qed.

Lemma level_up_normalized p :
  0 ≤ level p → exp (level_up p) < need_exp_for_next (level (level_up p)).
Proof. intros Hl. apply level_up_loop_exits; [done|lia]. Qed.

(** A normalized profile is determined by its total experience. *)
Lemma normalized_unique l1 e1 l2 e2 :
  0 ≤ l1 → 0 ≤ l2 →
  0 ≤ e1 < need_exp_for_next l1 → 0 ≤ e2 < need_exp_for_next l2 →
  e1 + 100 * (l1 - 1) + 10 * l1 * (l1 - 1) =
  e2 + 100 * (l2 - 1) + 10 * l2 * (l2 - 1) →
  l1 = l2 ∧ e1 = e2.
Proof.
  unfold need_exp_for_next; intros Hl1 Hl2 He1 He2 Heq.
  assert (l1 = l2) as ->; [|split; [reflexivity|lia]].
  destruct (Z.lt_trichotomy l1 l2) as [Hlt|[Heq'|Hgt]]; [exfalso|done|exfalso]; nia.
Qed.

Lemma level_up_idem p :
  exp p < need_exp_for_next (level p) → level_up p = p.
Proof.
  unfold level_up; intros H. destruct (Z.to_nat (exp p)); cbn; [done|].
  case_match eqn:E; [apply Z.leb_le in E; lia|done].
Qed.

(** ** The date loop *)

(** With the fuel the source's loop bound gives, [iter_days] visits every
    date from [d] to [end_] in order. *)
Lemma iter_days_fold body fuel d end_ p :
  (Z.to_nat (end_ - d + 1) ≤ fuel)%nat →
  iter_days body fuel d end_ p =
  fold_left (fun p d => body d p) (seqZ d (end_ - d + 1)) p.
Proof.
  revert d p; induction fuel as [|fuel IH]; intros d p Hf; cbn.
  - rewrite seqZ_nil by lia. reflexivity.
  - case_match eqn:E.
    + apply Z.leb_le in E. rewrite seqZ_cons by lia. cbn.
      rewrite IH by lia. do 2 f_equal; lia.
    + apply Z.leb_gt in E. rewrite seqZ_nil by lia. reflexivity.
Qed.

(** Invariant rule for a walk over consecutive dates. *)
Lemma fold_days_inv (I : Z → Profile → Prop) body n :
  ∀ start p,
  I start p →
  (∀ d q, start ≤ d < start + Z.of_nat n → I d q → I (d + 1) (body d q)) →
  I (start + Z.of_nat n)
    (fold_left (fun p d => body d p) (seqZ start (Z.of_nat n)) p).
Proof.
  induction n as [|n IH]; intros start p Hp Hstep.
  - rewrite seqZ_nil by lia. replace (start + Z.of_nat 0) with start by lia. done.
  - rewrite seqZ_cons by lia. cbn [fold_left].
    replace (Z.pred (Z.of_nat (S n))) with (Z.of_nat n) by lia.
    replace (start + Z.of_nat (S n)) with (Z.succ start + Z.of_nat n) by lia.
    apply IH.
    + apply Hstep; [lia|done].
    + intros d q Hd. apply Hstep. lia.
Qed.

(** Relational form, for two bodies run over the same dates. *)
Lemma fold_days_rel (R : Profile → Profile → Prop) body1 body2 (l : list Z) :
  (∀ d p q, R p q → R (body1 d p) (body2 d q)) →
  ∀ p q, R p q →
  R (fold_left (fun p d => body1 d p) l p) (fold_left (fun p d => body2 d p) l q).
Proof.
  intros Hstep. induction l as [|d l IH]; intros p q Hpq; cbn; [done|].
  apply IH, Hstep, Hpq.
Qed.

(** ** Dates and their texts *)

Ltac digit_cases k :=
  let H := fresh in
  assert (k = 0 ∨ k = 1 ∨ k = 2 ∨ k = 3 ∨ k = 4 ∨ k = 5 ∨ k = 6 ∨ k = 7 ∨
          k = 8 ∨ k = 9) as H by lia;
  destruct H as [->|[->|[->|[->|[->|[->|[->|[->|[->| ->]]]]]]]]].

Lemma digit_val_char k : 0 ≤ k ≤ 9 → digit_val (digit_char k) = Some k.
Proof. intros Hk. digit_cases k; reflexivity. Qed.

Lemma digit_char_dash k : 0 ≤ k ≤ 9 → Ascii.eqb (digit_char k) "-" = false.
Proof. intros Hk. digit_cases k; reflexivity. Qed.

Lemma digit_char_space k : 0 ≤ k ≤ 9 → Ascii.eqb (digit_char k) " " = false.
Proof. intros Hk. digit_cases k; reflexivity. Qed.

Lemma compare_digit_char j k :
  0 ≤ j ≤ 9 → 0 ≤ k ≤ 9 → Ascii.compare (digit_char j) (digit_char k) = (j ?= k).
Proof. intros Hj Hk. digit_cases j; digit_cases k; reflexivity. Qed.

(** *** The calendar *)

Lemma days_before_year_succ y :
  days_before_year (y + 1) = days_before_year y + 365 + (if is_leap y then 1 else 0).
Proof.
  unfold days_before_year, is_leap. cbn zeta.
  replace (y + 1 - 1) with y by lia.
  destruct (y mod 4 =? 0) eqn:E4; destruct (y mod 100 =? 0) eqn:E100;
    destruct (y mod 400 =? 0) eqn:E400; cbn [andb orb negb];
    repeat match goal with
           | H : (_ =? _) = true |- _ => apply Z.eqb_eq in H
           | H : (_ =? _) = false |- _ => apply Z.eqb_neq in H
           end; Z.div_mod_to_equations; lia.
Qed.

Ltac bool_hyps :=
  repeat match goal with
         | H : (_ =? _) = true |- _ => apply Z.eqb_eq in H
         | H : (_ =? _) = false |- _ => apply Z.eqb_neq in H
         | H : (_ <=? _) = true |- _ => apply Z.leb_le in H
         | H : (_ <=? _) = false |- _ => apply Z.leb_gt in H
         | H : (_ <? _) = true |- _ => apply Z.ltb_lt in H
         | H : (_ <? _) = false |- _ => apply Z.ltb_ge in H
         | H : _ && _ = true |- _ => apply andb_true_iff in H as [? ?]
         | H : _ || _ = false |- _ => apply orb_false_iff in H as [? ?]
         end.

(** The year of an ordinal and the day within the year. *)
Lemma ord2ymd_year n :
  let n0 := n - 1 in
  let n100 := n0 mod 146097 / 36524 in
  let n4 := n0 mod 146097 mod 36524 / 1461 in
  let n1 := n0 mod 146097 mod 36524 mod 1461 / 365 in
  let r := n0 mod 146097 mod 36524 mod 1461 mod 365 in
  let year := n0 / 146097 * 400 + 1 + n100 * 100 + n4 * 4 + n1 in
  if (n1 =? 4) || (n100 =? 4) then
    is_leap (year - 1) = true ∧ days_before_year (year - 1) + 365 = n0
  else
    is_leap year = (n1 =? 3) && (negb (n4 =? 24) || (n100 =? 3)) ∧
    days_before_year year + r = n0 ∧ 0 ≤ r < 365.
Proof.
  cbn zeta. unfold is_leap, days_before_year. cbn zeta.
  set (n0 := n - 1).
  set (n400 := n0 / 146097). set (r1 := n0 mod 146097).
  set (n100 := r1 / 36524). set (r2 := r1 mod 36524).
  set (n4 := r2 / 1461). set (r3 := r2 mod 1461).
  set (n1 := r3 / 365). set (r := r3 mod 365).
  assert (n0 = 146097 * n400 + r1 ∧ 0 ≤ r1 < 146097) as [E1 B1]
    by (subst n400 r1; Z.div_mod_to_equations; lia).
  assert (r1 = 36524 * n100 + r2 ∧ 0 ≤ r2 < 36524) as [E2 B2]
    by (subst n100 r2; Z.div_mod_to_equations; lia).
  assert (r2 = 1461 * n4 + r3 ∧ 0 ≤ r3 < 1461) as [E3 B3]
    by (subst n4 r3; Z.div_mod_to_equations; lia).
  assert (r3 = 365 * n1 + r ∧ 0 ≤ r < 365) as [E4 B4]
    by (subst n1 r; Z.div_mod_to_equations; lia).
  clearbody n400 r1 n100 r2 n4 r3 n1 r. clearbody n0.
  assert (0 ≤ n100 ≤ 4) by lia. assert (0 ≤ n4 ≤ 24) by lia.
  assert (0 ≤ n1 ≤ 4) by lia.
  assert (∀ y, is_leap y = true ↔
            y mod 4 = 0 ∧ (y mod 100 ≠ 0 ∨ y mod 400 = 0)) as Hleap.
  { intros y. unfold is_leap.
    rewrite andb_true_iff, orb_true_iff, negb_true_iff, !Z.eqb_eq, Z.eqb_neq.
    reflexivity. }
  fold (is_leap (n400 * 400 + 1 + n100 * 100 + n4 * 4 + n1 - 1)).
  fold (is_leap (n400 * 400 + 1 + n100 * 100 + n4 * 4 + n1)).
  destruct ((n1 =? 4) || (n100 =? 4)) eqn:Esp.
  - split.
    + apply Hleap. apply orb_true_iff in Esp as [Esp|Esp]; apply Z.eqb_eq in Esp;
        Z.div_mod_to_equations; lia.
    + apply orb_true_iff in Esp as [Esp|Esp]; apply Z.eqb_eq in Esp;
        Z.div_mod_to_equations; lia.
  - apply orb_false_iff in Esp as [Es1 Es2].
    apply Z.eqb_neq in Es1. apply Z.eqb_neq in Es2.
    split; [|split; [Z.div_mod_to_equations; lia|lia]].
    destruct ((n1 =? 3) && (negb (n4 =? 24) || (n100 =? 3))) eqn:El.
    + apply Hleap. apply andb_true_iff in El as [El1 El2].
      apply Z.eqb_eq in El1.
      apply orb_true_iff in El2 as [El2|El2];
        [apply negb_true_iff, Z.eqb_neq in El2|apply Z.eqb_eq in El2];
        Z.div_mod_to_equations; lia.
    + apply not_true_is_false. intros Hl. apply Hleap in Hl.
      apply andb_false_iff in El as [El|El].
      * apply Z.eqb_neq in El. Z.div_mod_to_equations; lia.
      * apply orb_false_iff in El as [El1 El2].
        apply negb_false_iff, Z.eqb_eq in El1. apply Z.eqb_neq in El2.
        Z.div_mod_to_equations; lia.
Qed.

Lemma month_day_spec (leap : bool) n :
  0 ≤ n < 365 + (if leap then 1 else 0) →
  ∃ m d, month_day leap n = (m, d) ∧ 1 ≤ m ≤ 12 ∧ 1 ≤ d ≤ month_length leap m ∧
         days_before_month leap m + d = n + 1.
Proof.
  intros Hn.
  assert (forallb (month_day_ok leap)
            (seqZ 0 (365 + (if leap then 1 else 0))) = true) as Hall
    by (destruct leap; vm_compute; reflexivity).
  rewrite forallb_forall in Hall. specialize (Hall n).
  assert (month_day_ok leap n = true) as Hok.
  { apply Hall. apply list_elem_of_In, elem_of_seqZ. lia. }
  unfold month_day_ok in Hok. destruct (month_day leap n) as [m d].
  exists m, d. bool_hyps. repeat split; lia.
Qed.

Lemma MAXORDINAL_eq : MAXORDINAL = days_before_year 10000.
Proof. reflexivity. Qed.

Lemma days_before_year_mono y y' : y ≤ y' → days_before_year y ≤ days_before_year y'.
Proof.
  intros H. unfold days_before_year. cbn zeta. Z.div_mod_to_equations. lia.
Qed.

Lemma days_before_year_lt y y' :
  y < y' → days_before_year y + 365 + (if is_leap y then 1 else 0) ≤ days_before_year y'.
Proof.
  intros H. rewrite <- days_before_year_succ. apply days_before_year_mono. lia.
Qed.

(** [fromordinal] gives a date of the calendar, and [toordinal] inverts
    it. *)
Lemma ord2ymd_spec n :
  is_date n = true →
  ∃ y m d, ord2ymd n = (y, m, d) ∧
    1 ≤ y ≤ 9999 ∧ 1 ≤ m ≤ 12 ∧ 1 ≤ d ≤ days_in_month y m ∧ ymd2ord y m d = n.
Proof.
  unfold is_date. intros Hn. bool_hyps. rewrite MAXORDINAL_eq in *.
  pose proof (ord2ymd_year n) as Hy. cbn zeta in Hy.
  unfold ord2ymd. cbn zeta.
  set (year := (n - 1) / 146097 * 400 + 1 + (n - 1) mod 146097 / 36524 * 100 +
               (n - 1) mod 146097 mod 36524 / 1461 * 4 +
               (n - 1) mod 146097 mod 36524 mod 1461 / 365) in *.
  assert (∀ y, days_before_year y ≤ n - 1 <
               days_before_year y + 365 + (if is_leap y then 1 else 0) →
               1 ≤ y ≤ 9999) as Hrange.
  { intros y Hb. split.
    - destruct (decide (1 ≤ y)) as [|Hlt]; [done|].
      pose proof (days_before_year_lt y 1 ltac:(lia)) as Hm.
      change (days_before_year 1) with 0 in Hm. lia.
    - destruct (decide (y ≤ 9999)) as [|Hgt]; [done|].
      pose proof (days_before_year_mono 10000 y ltac:(lia)). lia. }
  destruct (_ || _) eqn:Esp.
  - destruct Hy as [Hleap Hd]. exists (year - 1), 12, 31.
    split; [done|]. split; [apply Hrange; rewrite Hleap; lia|].
    unfold days_in_month, ymd2ord. rewrite Hleap.
    change (month_length true 12) with 31.
    change (days_before_month true 12) with 335. lia.
  - destruct Hy as (Hleap & Hd & Hr). rewrite <- Hleap.
    set (r := (n - 1) mod 146097 mod 36524 mod 1461 mod 365) in *.
    destruct (month_day_spec (is_leap year) r) as (m & d & -> & Hm & Hdd & Hsum).
    { destruct (is_leap year); lia. }
    exists year, m, d. split; [done|].
    split; [apply Hrange; destruct (is_leap year); lia|].
    unfold days_in_month, ymd2ord. repeat split; lia.
Qed.

(** [toordinal] is strictly increasing in (year, month, day). *)
Lemma days_before_month_next leap m :
  1 ≤ m ≤ 11 →
  days_before_month leap (m + 1) = days_before_month leap m + month_length leap m.
Proof.
  intros Hm.
  assert (m = 1 ∨ m = 2 ∨ m = 3 ∨ m = 4 ∨ m = 5 ∨ m = 6 ∨ m = 7 ∨ m = 8 ∨
          m = 9 ∨ m = 10 ∨ m = 11) as H by lia.
  destruct H as [->|[->|[->|[->|[->|[->|[->|[->|[->|[->| ->]]]]]]]]]];
    destruct leap; reflexivity.
Qed.

Lemma month_length_pos leap m : 1 ≤ m ≤ 12 → 28 ≤ month_length leap m ≤ 31.
Proof.
  intros Hm.
  assert (m = 1 ∨ m = 2 ∨ m = 3 ∨ m = 4 ∨ m = 5 ∨ m = 6 ∨ m = 7 ∨ m = 8 ∨
          m = 9 ∨ m = 10 ∨ m = 11 ∨ m = 12) as H by lia.
  destruct H as [->|[->|[->|[->|[->|[->|[->|[->|[->|[->|[->| ->]]]]]]]]]]];
    destruct leap; vm_compute; (split; discriminate).
Qed.

Lemma days_before_month_lt leap m m' :
  1 ≤ m → m < m' → m' ≤ 12 →
  days_before_month leap m + month_length leap m ≤ days_before_month leap m'.
Proof.
  intros H1 Hlt H12.
  replace m' with (m + 1 + Z.of_nat (Z.to_nat (m' - m - 1))) by lia.
  assert (m + 1 + Z.of_nat (Z.to_nat (m' - m - 1)) ≤ 12) as Hb by lia.
  induction (Z.to_nat (m' - m - 1)) as [|k IH].
  - rewrite Z.add_0_r, days_before_month_next by lia. lia.
  - etransitivity; [apply IH; lia|].
    replace (m + 1 + Z.of_nat (S k)) with (m + 1 + Z.of_nat k + 1) by lia.
    rewrite days_before_month_next by lia.
    pose proof (month_length_pos leap (m + 1 + Z.of_nat k) ltac:(lia)). lia.
Qed.

Lemma year_length y :
  days_before_month (is_leap y) 12 + month_length (is_leap y) 12 =
  365 + (if is_leap y then 1 else 0).
Proof. destruct (is_leap y); reflexivity. Qed.

Lemma ymd2ord_bounds y m d :
  1 ≤ m ≤ 12 → 1 ≤ d ≤ days_in_month y m →
  days_before_year y < ymd2ord y m d ≤
  days_before_year y + 365 + (if is_leap y then 1 else 0).
Proof.
  unfold days_in_month, ymd2ord. intros Hm Hd.
  assert (0 ≤ days_before_month (is_leap y) m) as H0.
  { destruct (decide (m = 1)) as [->|Hne]; [by destruct (is_leap y)|].
    pose proof (days_before_month_lt (is_leap y) 1 m ltac:(lia) ltac:(lia) ltac:(lia)).
    pose proof (month_length_pos (is_leap y) 1 ltac:(lia)).
    assert (0 ≤ days_before_month (is_leap y) 1) by by destruct (is_leap y).
    lia. }
  split; [lia|]. pose proof (year_length y) as Hyl.
  destruct (decide (m = 12)) as [->|Hne]; [lia|].
  pose proof (days_before_month_lt (is_leap y) m 12 ltac:(lia) ltac:(lia) ltac:(lia)).
  pose proof (month_length_pos (is_leap y) 12 ltac:(lia)). lia.
Qed.

Lemma ymd2ord_lt y m d y' m' d' :
  1 ≤ m ≤ 12 → 1 ≤ d ≤ days_in_month y m →
  1 ≤ m' ≤ 12 → 1 ≤ d' ≤ days_in_month y' m' →
  y < y' ∨ (y = y' ∧ (m < m' ∨ (m = m' ∧ d < d'))) →
  ymd2ord y m d < ymd2ord y' m' d'.
Proof.
  intros Hm Hd Hm' Hd' [Hy|[<- [Hmm|[<- Hdd]]]].
  - pose proof (ymd2ord_bounds y m d Hm Hd).
    pose proof (ymd2ord_bounds y' m' d' Hm' Hd').
    pose proof (days_before_year_lt y y' Hy). lia.
  - unfold days_in_month, ymd2ord in *.
    pose proof (days_before_month_lt (is_leap y) m m' ltac:(lia) Hmm ltac:(lia)).
    lia.
  - unfold ymd2ord. lia.
Qed.

Lemma ymd2ord_is_date y m d :
  1 ≤ y ≤ 9999 → 1 ≤ m ≤ 12 → 1 ≤ d ≤ days_in_month y m →
  is_date (ymd2ord y m d) = true.
Proof.
  intros Hy Hm Hd. pose proof (ymd2ord_bounds y m d Hm Hd) as Hb.
  pose proof (days_before_year_mono 1 y ltac:(lia)) as H1.
  change (days_before_year 1) with 0 in H1.
  pose proof (days_before_year_lt y 10000 ltac:(lia)) as H2.
  unfold is_date. rewrite MAXORDINAL_eq.
  apply andb_true_iff. split; [apply Z.leb_le|apply Z.leb_le]; lia.
Qed.

(** *** Texts and dates *)

Lemma parse_iso_text y m d :
  1 ≤ y ≤ 9999 → 1 ≤ m ≤ 12 → 1 ≤ d ≤ days_in_month y m →
  parse_date (iso_text y m d) = Some (ymd2ord y m d).
Proof.
  intros Hy Hm Hd.
  assert (d ≤ 31) as Hd31.
  { unfold days_in_month in Hd.
    pose proof (month_length_pos (is_leap y) m Hm). lia. }
  unfold iso_text, parse_date. change (Ascii.eqb "-" "-") with true. cbv iota.
  rewrite !digit_val_char by (Z.div_mod_to_equations; lia).
  cbn [mbind option_bind].
  unfold parse_month. rewrite digit_char_dash by (Z.div_mod_to_equations; lia).
  change (Ascii.eqb "-" "-") with true. cbv iota.
  rewrite !digit_val_char by (Z.div_mod_to_equations; lia).
  cbn [mbind option_bind].
  replace (((m / 10 =? 1) && (m mod 10 <=? 2)) || ((m / 10 =? 0) && (1 <=? m mod 10)))
    with true.
  2:{ symmetry. apply orb_true_iff. rewrite !andb_true_iff, !Z.eqb_eq, !Z.leb_le.
      Z.div_mod_to_equations. lia. }
  cbv iota beta. cbn [mbind option_bind]. unfold parse_day.
  rewrite digit_char_space by (Z.div_mod_to_equations; lia).
  rewrite !digit_val_char by (Z.div_mod_to_equations; lia).
  cbn [mbind option_bind].
  replace (((d / 10 =? 3) && (d mod 10 <=? 1)) || ((1 <=? d / 10) && (d / 10 <=? 2)) ||
           ((d / 10 =? 0) && (1 <=? d mod 10))) with true.
  2:{ symmetry. rewrite !orb_true_iff, !andb_true_iff, !Z.eqb_eq, !Z.leb_le.
      Z.div_mod_to_equations. lia. }
  cbv iota. cbn [mbind option_bind].
  replace (1000 * (y / 1000) + 100 * (y / 100 mod 10) + 10 * (y / 10 mod 10) + y mod 10)
    with y by (Z.div_mod_to_equations; lia).
  replace (10 * (m / 10) + m mod 10) with m by (Z.div_mod_to_equations; lia).
  replace (10 * (d / 10) + d mod 10) with d by (Z.div_mod_to_equations; lia).
  unfold date_of_ymd.
  replace ((1 <=? y) && (y <=? 9999) && (1 <=? m) && (m <=? 12) && (1 <=? d) &&
           (d <=? days_in_month y m)) with true; [done|].
  symmetry. rewrite !andb_true_iff, !Z.leb_le. lia.
Qed.

(** Parsing the ISO text of a date gives the date back. *)
Lemma parse_date_isoformat d : is_date d = true → parse_date (isoformat d) = Some d.
Proof.
  intros Hd. unfold isoformat. rewrite Hd.
  destruct (ord2ymd_spec d Hd) as (y & m & dd & -> & Hy & Hm & Hdd & <-).
  by apply parse_iso_text.
Qed.

Lemma date_of_ymd_Some y m d n :
  date_of_ymd y m d = Some n →
  1 ≤ y ≤ 9999 ∧ 1 ≤ m ≤ 12 ∧ 1 ≤ d ≤ days_in_month y m ∧ n = ymd2ord y m d.
Proof.
  unfold date_of_ymd. case_match eqn:E; [|done]. intros [= <-].
  rewrite !andb_true_iff, !Z.leb_le in E. lia.
Qed.

(** A parsed text is a date. *)
Lemma parse_date_is_date s d : parse_date s = Some d → is_date d = true.
Proof.
  unfold parse_date. intros H.
  repeat (case_match; try discriminate H).
  repeat match goal with
         | H : _ ≫= _ = Some _ |- _ => apply bind_Some in H as (? & ? & H)
         | H : (let '(_, _) := ?p in _) = Some _ |- _ => destruct p
         end.
  apply date_of_ymd_Some in H as (Hy & Hm & Hd & ->). by apply ymd2ord_is_date.
Qed.

(** The ISO texts of dates compare as the dates do. *)
Lemma compare_iso_text y m d y' m' d' :
  0 ≤ y ≤ 9999 → 0 ≤ m ≤ 99 → 0 ≤ d ≤ 99 →
  0 ≤ y' ≤ 9999 → 0 ≤ m' ≤ 99 → 0 ≤ d' ≤ 99 →
  String.compare (iso_text y m d) (iso_text y' m' d') =
  lex3 (y ?= y') (m ?= m') (d ?= d').
Proof.
  intros Hy Hm Hd Hy' Hm' Hd'. unfold iso_text. cbn [String.compare].
  rewrite !compare_digit_char by (Z.div_mod_to_equations; lia).
  change (Ascii.compare "-" "-") with Eq. cbv iota.
  repeat match goal with
         | |- context [?a ?= ?b] =>
             lazymatch a with
             | context [Z.div] => idtac
             | context [Z.modulo] => idtac
             end;
             let H := fresh "E" in
             destruct (Z.compare_spec a b) as [H|H|H]; cbv iota
         end;
    unfold lex3;
    repeat match goal with
           | |- context [?a ?= ?b] =>
               first [ replace (a ?= b) with Lt
                         by (symmetry; apply Z.compare_lt_iff;
                             Z.div_mod_to_equations; lia)
                     | replace (a ?= b) with Gt
                         by (symmetry; apply Z.compare_gt_iff;
                             Z.div_mod_to_equations; lia)
                     | replace (a ?= b) with Eq
                         by (symmetry; apply Z.compare_eq_iff;
                             Z.div_mod_to_equations; lia) ]
           end; reflexivity.
Qed.

Lemma lex3_ymd2ord y m d y' m' d' :
  1 ≤ m ≤ 12 → 1 ≤ d ≤ days_in_month y m →
  1 ≤ m' ≤ 12 → 1 ≤ d' ≤ days_in_month y' m' →
  lex3 (y ?= y') (m ?= m') (d ?= d') = (ymd2ord y m d ?= ymd2ord y' m' d').
Proof.
  intros Hm Hd Hm' Hd'. unfold lex3.
  destruct (Z.compare_spec y y') as [->|Hy|Hy];
    [destruct (Z.compare_spec m m') as [->|Hmm|Hmm];
       [destruct (Z.compare_spec d d') as [->|Hdd|Hdd]|..]|..];
    symmetry;
    first [ apply Z.compare_eq_iff; reflexivity
          | apply Z.compare_lt_iff; apply ymd2ord_lt; try done; lia
          | apply Z.compare_gt_iff; apply ymd2ord_lt; try done; lia ].
Qed.

Lemma compare_isoformat a b :
  is_date a = true → is_date b = true →
  String.compare (isoformat a) (isoformat b) = (a ?= b).
Proof.
  intros Ha Hb. unfold isoformat. rewrite Ha, Hb.
  destruct (ord2ymd_spec a Ha) as (y & m & d & -> & Hy & Hm & Hd & <-).
  destruct (ord2ymd_spec b Hb) as (y' & m' & d' & -> & Hy' & Hm' & Hd' & <-).
  assert (d ≤ 31 ∧ d' ≤ 31) as [? ?].
  { unfold days_in_month in *.
    pose proof (month_length_pos (is_leap y) m Hm).
    pose proof (month_length_pos (is_leap y') m' Hm'). lia. }
  rewrite compare_iso_text by lia. by apply lex3_ymd2ord.
Qed.

(** ** Further facts on profiles *)

Lemma level_up_same_stats p : same_stats (level_up p) p.
Proof. apply level_up_loop_same_stats. Qed.

Lemma same_stats_stat_get p q k : same_stats p q → stat_get p k = stat_get q k.
Proof.
  intros (? & ? & ? & ? & ? & ? & ? & ?). unfold stat_get.
  repeat case_decide; done.
Qed.

Lemma fold_left_inv (I : Profile → Prop) body (l : list Z) :
  (∀ d p, I p → I (body d p)) →
  ∀ p, I p → I (fold_left (fun p d => body d p) l p).
Proof.
  intros Hstep. induction l as [|d l IH]; intros p Hp; cbn; [done|].
  apply IH, Hstep, Hp.
Qed.

Lemma zero_profile_ok today : profile_ok (zero_profile today).
Proof. unfold profile_ok, need_exp_for_next; cbn. lia. Qed.

Lemma profile_ok_stat_nonneg p k :
  profile_ok p → k ∈ STAT_KEYS → 0 ≤ stat_get p k.
Proof.
  intros (_ & _ & _ & ? & ? & ? & ? & ? & ? & _) Hk.
  unfold STAT_KEYS in Hk. elem_cases Hk; subst k; done.
Qed.

Lemma stat_get_set_streak p k v : stat_get (set_streak v p) k = stat_get p k.
Proof. unfold stat_get. repeat case_decide; reflexivity. Qed.

Lemma stat_get_set_last_check_date p k v :
  stat_get (set_last_check_date v p) k = stat_get p k.
Proof. unfold stat_get. repeat case_decide; reflexivity. Qed.

Lemma level_up_loop_set_date fuel v :
  ∀ p,
  level_up_loop fuel (set_last_check_date v p) =
  set_last_check_date v (level_up_loop fuel p).
Proof.
  induction fuel as [|fuel IH]; intros p; cbn; [done|].
  case_match; [|done]. by rewrite <- IH.
Qed.

Lemma fold_left_ext_in (f g : Z → Profile → Profile) (l : list Z) :
  (∀ d p, d ∈ l → f d p = g d p) →
  ∀ p, fold_left (fun p d => f d p) l p = fold_left (fun p d => g d p) l p.
Proof.
  induction l as [|d l IH]; intros Hfg p; cbn [fold_left]; [done|].
  rewrite Hfg by left. apply IH. intros d' p' Hd'. apply Hfg. by right.
Qed.


Lemma NoDup_ACTION_TYPES : NoDup ACTION_TYPES.
Proof.
  apply NoDup_ListNoDup. unfold ACTION_TYPES.
  repeat (constructor; [simpl; intuition discriminate|]). constructor.
Qed.

Lemma count_type_cons t a ts :
  count_type t (a :: ts) = (if decide (a = t) then 1 else 0) + count_type t ts.
Proof.
  unfold count_type. rewrite filter_cons. case_decide; cbn [length]; lia.
Qed.

Lemma count_gainful_cons a ts :
  count_gainful (a :: ts) =
  (if decide (a ∈ ACTION_TYPES) then 1 else 0) + count_gainful ts.
Proof.
  unfold count_gainful. rewrite filter_cons. case_decide; cbn [length]; lia.
Qed.

Lemma count_type_nonneg t ts : 0 ≤ count_type t ts.
Proof. unfold count_type; lia. Qed.

Lemma count_gainful_nonneg ts : 0 ≤ count_gainful ts.
Proof. unfold count_gainful; lia. Qed.

Lemma count_type_perm t ts ts' : ts ≡ₚ ts' → count_type t ts = count_type t ts'.
Proof. intros H. unfold count_type. by rewrite H. Qed.

Lemma add_action_eq p t :
  add_action p t =
  mkProfile (level p) (exp p + 10 * count_gainful [t])
    (strength p + 5 * count_type "strength" [t])
    (stamina p + 5 * count_type "stamina" [t])
    (intelligence p + 3 * count_type "intelligence" [t])
    (wealth p + 7 * count_type "wealth" [t])
    (discipline p + 4 * count_type "discipline" [t])
    (consistency p) (streak p) (last_check_date p).
Proof.
  unfold add_action. destruct (GAIN !! t) as [g|] eqn:E.
  - apply GAIN_lookup_Some in E.
    rewrite count_gainful_cons, !count_type_cons.
    change (count_gainful []) with 0. change (count_type _ []) with 0.
    unfold stat_set, stat_get, EXP_PER_ACTION.
    elem_cases E; inversion E; subst; clear E;
      (rewrite (decide_True (P := _ ∈ ACTION_TYPES)) by elem_solve);
      repeat (first [rewrite decide_True by reflexivity
                    |rewrite decide_False by discriminate]);
      destruct p; unfold set_exp, set_strength, set_stamina, set_intelligence,
        set_wealth, set_discipline; cbn; f_equal; lia.
  - assert (t ∉ ACTION_TYPES) as Hna.
    { rewrite <- GAIN_is_Some, E. by intros [? ?]. }
    rewrite count_gainful_cons, !count_type_cons.
    rewrite decide_False by done.
    unfold ACTION_TYPES in Hna.
    repeat (rewrite decide_False by (intros ->; apply Hna; elem_solve)).
    change (count_gainful []) with 0. change (count_type _ []) with 0.
    destruct p; cbn; f_equal; lia.
Qed.

Lemma fold_add_action ts :
  ∀ p,
  fold_left add_action ts p =
  mkProfile (level p) (exp p + 10 * count_gainful ts)
    (strength p + 5 * count_type "strength" ts)
    (stamina p + 5 * count_type "stamina" ts)
    (intelligence p + 3 * count_type "intelligence" ts)
    (wealth p + 7 * count_type "wealth" ts)
    (discipline p + 4 * count_type "discipline" ts)
    (consistency p) (streak p) (last_check_date p).
Proof.
  induction ts as [|t ts IH]; intros p; cbn [fold_left].
  - change (count_gainful []) with 0. change (count_type _ []) with 0.
    destruct p; cbn; f_equal; lia.
  - rewrite IH, add_action_eq. cbn [level exp strength stamina intelligence
      wealth discipline consistency streak last_check_date].
    rewrite (count_gainful_cons t ts), !(count_type_cons _ t ts).
    rewrite (count_gainful_cons t []), !(count_type_cons _ t []).
    change (count_gainful []) with 0. change (count_type _ []) with 0.
    f_equal; lia.
Qed.

(** * Properties of the engine on a log of dated entries *)

Module DayLogFacts.
Import DayLog.

(** *** The log and its grouping by date *)

Lemma days_insert_by_date_perm a l : insert_by_date a l ≡ₚ a :: l.
Proof.
  induction l as [|b l IH]; cbn; [done|].
  case_match; [done|]. rewrite IH. apply Permutation_swap.
Qed.

Lemma days_get_all_actions_perm db : get_all_actions db ≡ₚ db.
Proof.
  induction db as [|a db IH]; cbn; [done|].
  rewrite days_insert_by_date_perm. by rewrite IH.
Qed.

Lemma days_insert_by_date_sorted a l :
  StronglySorted date_le l → StronglySorted date_le (insert_by_date a l).
Proof.
  induction 1 as [|b l Hs IH Hb]; cbn; [repeat constructor|].
  case_match eqn:E.
  - apply Z.leb_le in E. constructor; [by constructor|].
    constructor; [done|]. eapply Forall_impl; [exact Hb|].
    intros c Hc. unfold date_le in *. lia.
  - apply Z.leb_gt in E. constructor; [done|].
    rewrite days_insert_by_date_perm. constructor; [|done]. unfold date_le; lia.
Qed.

Lemma days_get_all_actions_sorted db : StronglySorted date_le (get_all_actions db).
Proof.
  induction db as [|a db IH]; cbn; [constructor|].
  by apply days_insert_by_date_sorted.
Qed.

Lemma days_get_all_actions_nil db : get_all_actions db = [] ↔ db = [].
Proof.
  split; [|by intros ->].
  intros H. apply Permutation_nil_r. rewrite <- H.
  symmetry; apply days_get_all_actions_perm.
Qed.

(** The dictionary [by_date] maps a date to the types logged on it, in log
    order, and has no entry for the other dates. *)
Lemma days_group_by_date_fold actions d :
  ∀ m : gmap Z (list string),
  fold_left (fun m a => <[a.1 := default [] (m !! a.1) ++ [a.2]]> m) actions m
    !! d =
  match (filter (fun a => a.1 = d) actions).*2 with
  | [] => m !! d
  | ts => Some (default [] (m !! d) ++ ts)
  end.
Proof.
  induction actions as [|a l IH]; intros m; cbn [fold_left]; [done|].
  rewrite IH. rewrite filter_cons. case_decide as Ha.
  - rewrite Ha, lookup_insert_eq. cbn.
    destruct ((filter (λ a0, a0.1 = d) l).*2) as [|t ts]; [done|].
    by rewrite <- app_assoc.
  - by rewrite lookup_insert_ne.
Qed.

Lemma days_group_by_date_lookup actions d :
  default [] (group_by_date actions !! d) =
  (filter (fun a => a.1 = d) actions).*2.
Proof.
  unfold group_by_date. rewrite days_group_by_date_fold, lookup_empty.
  by destruct ((filter (λ a, a.1 = d) actions).*2).
Qed.

Lemma days_group_by_date_is_Some actions d :
  is_Some (group_by_date actions !! d) ↔ d ∈ actions.*1.
Proof.
  unfold group_by_date. rewrite days_group_by_date_fold, lookup_empty.
  destruct ((filter (λ a, a.1 = d) actions).*2) as [|t ts] eqn:E.
  - split; [by intros [? ?]|]. intros Hd. exfalso.
    apply list_elem_of_fmap in Hd as (a & -> & Ha).
    apply fmap_nil_inv in E.
    assert (a ∈ filter (λ a0, a0.1 = a.1) actions) as Hin
      by by apply list_elem_of_filter.
    rewrite E in Hin. by apply elem_of_nil in Hin.
  - split; [|by eexists]. intros _.
    assert (t ∈ (filter (λ a, a.1 = d) actions).*2) as Hin
      by (rewrite E; left).
    apply list_elem_of_fmap in Hin as (a & _ & Ha).
    apply list_elem_of_filter in Ha as [<- Ha]. by apply list_elem_of_fmap_2.
Qed.

Lemma types_today_nil actions d :
  default [] (group_by_date actions !! d) = [] ↔ d ∉ actions.*1.
Proof.
  rewrite <- days_group_by_date_is_Some. rewrite days_group_by_date_lookup.
  unfold group_by_date. rewrite days_group_by_date_fold, lookup_empty.
  destruct ((filter (λ a, a.1 = d) actions).*2) as [|t ts].
  - split; [by intros _ [? ?]|done].
  - split; [done|]. intros H. exfalso. apply H. by eexists.
Qed.

(** [min(by_date.keys())] is the earliest date of the log. *)
Lemma foldr_min_spec k ks :
  foldr Z.min k ks ∈ k :: ks ∧ ∀ x, x ∈ k :: ks → foldr Z.min k ks ≤ x.
Proof.
  induction ks as [|y ks [IHin IHle]]; cbn.
  - split; [left|]. intros x Hx. apply list_elem_of_singleton in Hx. lia.
  - split.
    + destruct (Z.min_spec y (foldr Z.min k ks)) as [[_ ->]|[_ ->]].
      * right; left.
      * apply elem_of_cons in IHin as [->|?]; [left|by do 2 right].
    + intros x Hx.
      assert (x = y ∨ x ∈ k :: ks) as [->|Hx'].
      { apply elem_of_cons in Hx as [->|Hx]; [right; left|].
        apply elem_of_cons in Hx as [->|Hx]; [by left|by right; right]. }
      * lia.
      * specialize (IHle x Hx'). lia.
Qed.

Lemma earliest_unique s1 s2 db : earliest s1 db → earliest s2 db → s1 = s2.
Proof. intros [H1 H1'] [H2 H2']. specialize (H1' _ H2). specialize (H2' _ H1). lia. Qed.

Lemma days_min_key_group_by_date actions :
  actions ≠ [] → ∃ start,
    min_key (group_by_date actions) = Some start ∧ earliest start actions.
Proof.
  intros Hne. unfold min_key.
  assert (∀ d, d ∈ (map_to_list (group_by_date actions)).*1 ↔ d ∈ actions.*1)
    as Hkeys.
  { intros d. rewrite <- days_group_by_date_is_Some. split.
    - intros Hd. apply list_elem_of_fmap in Hd as ([k v] & -> & Hkv).
      apply elem_of_map_to_list in Hkv. by eexists.
    - intros [v Hv]. apply elem_of_map_to_list in Hv.
      by apply (list_elem_of_fmap_2 fst) in Hv. }
  destruct ((map_to_list (group_by_date actions)).*1) as [|k ks].
  - destruct actions as [|a l]; [done|]. exfalso.
    assert (a.1 ∈ (a :: l).*1) as Ha by (cbn; left).
    apply Hkeys in Ha. by apply elem_of_nil in Ha.
  - eexists; split; [done|].
    destruct (foldr_min_spec k ks) as [Hin Hle]. split.
    + by apply Hkeys.
    + intros d Hd. by apply Hle, Hkeys.
Qed.

(** *** The gains of one day in closed form *)

(** A day with no entry only resets the streak. *)
Lemma day_gains_gap by_date d p :
  default [] (by_date !! d) = [] → day_gains by_date d p = set_streak 0 p.
Proof. unfold day_gains. intros ->. reflexivity. Qed.

(** A day with entries: per-type gains, 10 experience per gainful entry,
    the consistency gain, the streak increment and the streak bonus. *)
Lemma day_gains_active by_date d p :
  let ts := default [] (by_date !! d) in
  ts ≠ [] →
  day_gains by_date d p =
  mkProfile (level p)
    (exp p + 10 * count_gainful ts + streak_bonus_exp (streak p + 1))
    (strength p + 5 * count_type "strength" ts)
    (stamina p + 5 * count_type "stamina" ts)
    (intelligence p + 3 * count_type "intelligence" ts)
    (wealth p + 7 * count_type "wealth" ts)
    (discipline p + 4 * count_type "discipline" ts)
    (consistency p + 2) (streak p + 1) (last_check_date p).
Proof.
  intros ts Hts. unfold day_gains. fold ts.
  replace (0 <? Z.of_nat (length ts)) with true
    by (symmetry; apply Z.ltb_lt; destruct ts; [done|cbn [length]; lia]).
  rewrite fold_add_action. reflexivity.
Qed.

Lemma day_gains_level by_date d p : level (day_gains by_date d p) = level p.
Proof.
  destruct (decide (default [] (by_date !! d) = [])) as [E|E].
  - by rewrite day_gains_gap.
  - by rewrite day_gains_active.
Qed.

Lemma day_gains_exp_le by_date d p :
  0 ≤ streak p → exp p ≤ exp (day_gains by_date d p).
Proof.
  intros Hs. destruct (decide (default [] (by_date !! d) = [])) as [E|E].
  - rewrite day_gains_gap by done. cbn; lia.
  - rewrite day_gains_active by done. cbn.
    pose proof (count_gainful_nonneg (default [] (by_date !! d))).
    unfold streak_bonus_exp. repeat case_match; lia.
Qed.

(** The gains of a day depend neither on the level nor on the experience
    held. *)
Lemma day_gains_same_stats by_date d p q :
  same_stats p q →
  same_stats (day_gains by_date d p) (day_gains by_date d q) ∧
  exp (day_gains by_date d p) - exp p = exp (day_gains by_date d q) - exp q.
Proof.
  intros (H1 & H2 & H3 & H4 & H5 & H6 & H7 & H8).
  destruct (decide (default [] (by_date !! d) = [])) as [E|E].
  - rewrite !day_gains_gap by done. unfold same_stats; cbn. repeat split; try done; lia.
  - rewrite !day_gains_active by done. unfold same_stats; cbn.
    rewrite H1, H2, H3, H4, H5, H6, H7, H8. repeat split; lia.
Qed.

Lemma day_step_streak by_date d p :
  streak (day_step by_date d p) =
  if decide (default [] (by_date !! d) = []) then 0 else streak p + 1.
Proof.
  unfold day_step.
  destruct (level_up_same_stats (day_gains by_date d p))
    as (_ & _ & _ & _ & _ & _ & -> & _).
  case_decide as E.
  - by rewrite day_gains_gap.
  - by rewrite day_gains_active.
Qed.

(** *** The decay loop *)

Section decay.
Context (last_of : string → option Z) (cur_d : Z).

Lemma decay_type_frame last p t :
  let q := decay_type cur_d last p t in
  level q = level p ∧ exp q = exp p ∧ streak q = streak p ∧
  last_check_date q = last_check_date p.
Proof.
  unfold decay_type. destruct last as [last_d|]; [|done].
  case_match; [|done].
  by rewrite stat_set_level, stat_set_exp, stat_set_streak,
    stat_set_last_check_date.
Qed.

Lemma decay_type_other last p t k :
  k ≠ t → stat_get (decay_type cur_d last p t) k = stat_get p k.
Proof.
  intros Hk. unfold decay_type. destruct last as [last_d|]; [|done].
  case_match; [|done]. by apply stat_get_set_ne.
Qed.

Lemma decay_type_self p t :
  t ∈ STAT_KEYS →
  stat_get (decay_type cur_d (last_of t) p t) t = decayed last_of cur_d t (stat_get p t).
Proof.
  intros Ht. unfold decay_type, decayed. destruct (last_of t) as [last_d|]; [|done].
  case_match; [|done]. by apply stat_get_set_eq.
Qed.

Lemma decay_fold_cons t ts p :
  decay_fold last_of cur_d (t :: ts) p = decay_fold last_of cur_d ts (decay_type cur_d (last_of t) p t).
Proof. reflexivity. Qed.

Lemma decay_fold_frame ts :
  ∀ p, let q := decay_fold last_of cur_d ts p in
  level q = level p ∧ exp q = exp p ∧ streak q = streak p ∧
  last_check_date q = last_check_date p.
Proof.
  induction ts as [|t ts IH]; intros p; [done|].
  cbn zeta. rewrite decay_fold_cons.
  destruct (IH (decay_type cur_d (last_of t) p t)) as (-> & -> & -> & ->).
  apply decay_type_frame.
Qed.

Lemma decay_fold_other ts k :
  k ∉ ts → ∀ p, stat_get (decay_fold last_of cur_d ts p) k = stat_get p k.
Proof.
  induction ts as [|t ts IH]; intros Hk p; [done|].
  apply not_elem_of_cons in Hk as [Hne Hk].
  rewrite decay_fold_cons, IH by done. by apply decay_type_other.
Qed.

Lemma decay_fold_self ts k :
  NoDup ts → k ∈ ts → k ∈ STAT_KEYS →
  ∀ p, stat_get (decay_fold last_of cur_d ts p) k = decayed last_of cur_d k (stat_get p k).
Proof.
  induction ts as [|t ts IH]; intros Hnd Hk Hs p; [by apply elem_of_nil in Hk|].
  apply NoDup_cons in Hnd as [Ht Hnd]. rewrite decay_fold_cons.
  apply elem_of_cons in Hk as [->|Hk].
  - rewrite decay_fold_other by done. by apply decay_type_self.
  - rewrite IH by done.
    rewrite decay_type_other; [done|]. by intros ->.
Qed.

Lemma decayed_nonneg t v : 0 ≤ v → 0 ≤ decayed last_of cur_d t v.
Proof. unfold decayed. repeat case_match; lia. Qed.
End decay.

Lemma decay_fold_consistency last_of cur_d p :
  consistency (decay_fold last_of cur_d ACTION_TYPES p) = consistency p.
Proof.
  apply (decay_fold_other last_of cur_d ACTION_TYPES "consistency"
           consistency_not_action_type p).
Qed.

(** The decay loop of either path, on an action type. *)
Lemma decay_fold_action_type last_of cur_d p t :
  t ∈ ACTION_TYPES →
  stat_get (decay_fold last_of cur_d ACTION_TYPES p) t =
  decayed last_of cur_d t (stat_get p t).
Proof.
  intros Ht. apply decay_fold_self; [apply NoDup_ACTION_TYPES|done|].
  by apply ACTION_TYPES_STAT_KEYS.
Qed.

(** *** The most recent date of a type *)

Lemma latest_unique db t d1 d2 : latest db t d1 → latest db t d2 → d1 = d2.
Proof. intros [H1 H1'] [H2 H2']. specialize (H1' _ H2). specialize (H2' _ H1). lia. Qed.

Lemma latest_perm db db' t d : db ≡ₚ db' → latest db t d → latest db' t d.
Proof.
  intros Hp [H1 H2]. split; [by rewrite <- Hp|].
  intros d'. rewrite <- Hp. apply H2.
Qed.

Lemma never_logged_perm db db' t : db ≡ₚ db' → never_logged db t → never_logged db' t.
Proof. intros Hp H d. rewrite <- Hp. apply H. Qed.

Lemma days_last_date_for_fold t l :
  ∀ (m : gmap string (option Z)) o,
  m !! t = Some o →
  fold_left
    (fun m a => if decide (is_Some (m !! a.2)) then <[a.2 := Some a.1]> m else m)
    l m !! t =
  Some (match last (filter (fun a => a.2 = t) l).*1 with
        | Some d => Some d
        | None => o
        end).
Proof.
  induction l as [|a l IH]; intros m o Hm; cbn [fold_left]; [done|].
  rewrite filter_cons. destruct (decide (a.2 = t)) as [Ha|Ha].
  - rewrite Ha. rewrite decide_True by (by eexists).
    rewrite (IH _ (Some a.1)) by apply lookup_insert_eq.
    cbn [fmap list_fmap]. rewrite last_cons. by destruct (last _).
  - apply IH. case_decide; [|done]. by rewrite lookup_insert_ne.
Qed.

Lemma days_last_date_for_lookup actions t :
  t ∈ ACTION_TYPES →
  mjoin (last_date_for actions !! t) =
  last (filter (fun a => a.2 = t) actions).*1.
Proof.
  intros Ht. unfold last_date_for.
  rewrite (days_last_date_for_fold t actions last_date_init None).
  - cbn. by destruct (last _).
  - unfold ACTION_TYPES in Ht. elem_cases Ht; subst t; reflexivity.
Qed.

Lemma days_last_type_spec l t :
  match last (filter (fun a => a.2 = t) l).*1 with
  | Some d => (d, t) ∈ l
  | None => never_logged l t
  end.
Proof.
  destruct (last _) as [d|] eqn:E.
  - apply last_Some_elem_of in E.
    apply list_elem_of_fmap in E as ([d' t'] & -> & Ha).
    apply list_elem_of_filter in Ha as [Ht Ha]. cbn in *. by subst.
  - apply last_None, fmap_nil_inv in E. intros d Hd.
    assert ((d, t) ∈ filter (λ a, a.2 = t) l) as Hin
      by by apply list_elem_of_filter.
    rewrite E in Hin. by apply elem_of_nil in Hin.
Qed.

(** In a log sorted by date, the last entry of a type carries its most
    recent date. *)
Lemma days_sorted_last_type_max l t d :
  StronglySorted date_le l →
  last (filter (fun a => a.2 = t) l).*1 = Some d →
  ∀ d', (d', t) ∈ l → d' ≤ d.
Proof.
  induction 1 as [|a l Hs IH Ha]; intros Hlast d' Hd'; [by apply elem_of_nil in Hd'|].
  rewrite filter_cons in Hlast. destruct (decide (a.2 = t)) as [Hat|Hat].
  - cbn [fmap list_fmap] in Hlast. rewrite last_cons in Hlast.
    destruct (last (filter (λ a0, a0.2 = t) l).*1) as [d0|] eqn:E.
    + injection Hlast as ->.
      apply elem_of_cons in Hd' as [Heq|Hd']; [|by apply IH].
      pose proof (days_last_type_spec l t) as Hin. rewrite E in Hin.
      rewrite Forall_forall in Ha. apply Ha in Hin.
      subst a. exact Hin.
    + injection Hlast as <-.
      apply elem_of_cons in Hd' as [Heq|Hd']; [by subst a|].
      pose proof (days_last_type_spec l t) as Hnl. rewrite E in Hnl.
      by apply Hnl in Hd'.
  - apply elem_of_cons in Hd' as [Heq|Hd']; [by subst a|]. by apply IH.
Qed.

(** The dictionary [last_date_for] of the full recompute holds, for each
    action type, its most recent date in the log. *)
Lemma days_last_date_for_spec db t :
  t ∈ ACTION_TYPES →
  match mjoin (last_date_for (get_all_actions db) !! t) with
  | Some d => latest db t d
  | None => never_logged db t
  end.
Proof.
  intros Ht. rewrite days_last_date_for_lookup by done.
  pose proof (days_last_type_spec (get_all_actions db) t) as Hspec.
  destruct (last _) as [d|] eqn:E.
  - apply (latest_perm (get_all_actions db)); [apply days_get_all_actions_perm|].
    split; [done|].
    by apply days_sorted_last_type_max; [apply days_get_all_actions_sorted|].
  - by apply (never_logged_perm (get_all_actions db));
      [apply days_get_all_actions_perm|].
Qed.

Lemma foldr_max_spec k ks :
  foldr Z.max k ks ∈ k :: ks ∧ ∀ x, x ∈ k :: ks → x ≤ foldr Z.max k ks.
Proof.
  induction ks as [|y ks [IHin IHle]]; cbn.
  - split; [left|]. intros x Hx. apply list_elem_of_singleton in Hx. lia.
  - split.
    + destruct (Z.max_spec y (foldr Z.max k ks)) as [[_ ->]|[_ ->]].
      * apply elem_of_cons in IHin as [->|?]; [left|by do 2 right].
      * right; left.
    + intros x Hx.
      assert (x = y ∨ x ∈ k :: ks) as [->|Hx'].
      { apply elem_of_cons in Hx as [->|Hx]; [right; left|].
        apply elem_of_cons in Hx as [->|Hx]; [by left|by right; right]. }
      * lia.
      * specialize (IHle x Hx'). lia.
Qed.

(** The query of the incremental path returns the same date. *)
Lemma days_last_action_date_for_type_spec db t :
  match last_action_date_for_type db t with
  | Some d => latest db t d
  | None => never_logged db t
  end.
Proof.
  unfold last_action_date_for_type.
  destruct (filter (λ a, a.2 = t) db) as [|a l] eqn:E.
  - intros d Hd.
    assert ((d, t) ∈ filter (λ a, a.2 = t) db) as Hin
      by by apply list_elem_of_filter.
    rewrite E in Hin. by apply elem_of_nil in Hin.
  - destruct (foldr_max_spec a.1 l.*1) as [Hin Hle].
    change (a.1 :: l.*1) with ((a :: l).*1) in Hin, Hle.
    rewrite <- E in Hin, Hle. split.
    + apply list_elem_of_fmap in Hin as ([d' t'] & Hd & Ha).
      apply list_elem_of_filter in Ha as [Ht Ha]. cbn in *. by subst.
    + intros d' Hd'. apply Hle.
      apply (list_elem_of_fmap_2' fst _ (d', t)); [|done].
      by apply list_elem_of_filter.
Qed.

(** *** The day walk of the full recompute *)

Lemma earliest_perm start db db' : db ≡ₚ db' → earliest start db → earliest start db'.
Proof.
  intros Hp [H1 H2]. split; [by rewrite <- Hp|].
  intros d. rewrite <- Hp. apply H2.
Qed.

(** The dates with entries, read off the grouped log. *)
Lemma by_date_nil db d :
  default [] (group_by_date (get_all_actions db) !! d) = [] ↔ d ∉ db.*1.
Proof. rewrite types_today_nil. by rewrite days_get_all_actions_perm. Qed.

(** The walk starts at the earliest date of the log and visits every date
    up to [today]. *)
Lemma walk_phase_fold db today :
  db ≠ [] →
  ∃ start, earliest start db ∧
    walk_phase (get_all_actions db) today =
    fold_left (fun p d => day_step (group_by_date (get_all_actions db)) d p)
      (seqZ start (today - start + 1)) (zero_profile today).
Proof.
  intros Hne.
  destruct (days_min_key_group_by_date (get_all_actions db)) as (start & Hmin & He).
  { by rewrite days_get_all_actions_nil. }
  exists start. split.
  - eapply earliest_perm; [apply days_get_all_actions_perm|done].
  - unfold walk_phase. rewrite Hmin. by apply iter_days_fold.
Qed.

Lemma recompute_nonempty db today :
  db ≠ [] →
  recompute_profile_from_actions db today =
  decay_fold (fun t => mjoin (last_date_for (get_all_actions db) !! t)) today
    ACTION_TYPES (walk_phase (get_all_actions db) today).
Proof.
  intros Hne. unfold recompute_profile_from_actions.
  destruct (get_all_actions db) eqn:E; [by apply days_get_all_actions_nil in E|].
  reflexivity.
Qed.

Lemma walk_phase_nil today : walk_phase [] today = zero_profile today.
Proof. reflexivity. Qed.

Lemma day_step_streak_rule db d p :
  streak (day_step (group_by_date (get_all_actions db)) d p) =
  streak_rule db (streak p) d.
Proof.
  rewrite day_step_streak. unfold streak_rule.
  destruct (decide (d ∈ db.*1)) as [Hd|Hd].
  - rewrite decide_False; [done|]. rewrite by_date_nil. tauto.
  - rewrite decide_True; [done|]. by rewrite by_date_nil.
Qed.

Lemma fold_day_step_streak db days :
  ∀ p,
  streak (fold_left (fun p d => day_step (group_by_date (get_all_actions db)) d p)
            days p) =
  fold_left (streak_rule db) days (streak p).
Proof.
  induction days as [|d days IH]; intros p; cbn [fold_left]; [done|].
  by rewrite IH, day_step_streak_rule.
Qed.

Lemma streak_rule_nonneg db days : ∀ s, 0 ≤ s → 0 ≤ fold_left (streak_rule db) days s.
Proof.
  induction days as [|d days IH]; intros s Hs; cbn; [done|].
  apply IH. unfold streak_rule. case_decide; lia.
Qed.

Lemma streak_rule_in db s d : d ∈ db.*1 → streak_rule db s d = s + 1.
Proof. intros H. unfold streak_rule. by rewrite decide_True. Qed.

Lemma streak_rule_out db s d : d ∉ db.*1 → streak_rule db s d = 0.
Proof. intros H. unfold streak_rule. by rewrite decide_False. Qed.


(** *** Counting entries of the log *)

Lemma count_if_nonneg P `{∀ a, Decision (P a)} db : 0 ≤ count_if P db.
Proof. unfold count_if; lia. Qed.

Lemma count_if_ext P Q `{∀ a, Decision (P a)} `{∀ a, Decision (Q a)} db :
  (∀ a, a ∈ db → P a ↔ Q a) → count_if P db = count_if Q db.
Proof.
  unfold count_if. induction db as [|a db IH]; intros HPQ; [done|].
  rewrite !filter_cons.
  assert (P a ↔ Q a) as Ha by (apply HPQ; left).
  assert (Z.of_nat (length (filter P db)) = Z.of_nat (length (filter Q db)))
    as IH' by (apply IH; intros b Hb; apply HPQ; by right).
  repeat case_decide; cbn [length]; try tauto; lia.
Qed.

Lemma count_if_none P `{∀ a, Decision (P a)} db :
  (∀ a, a ∈ db → ¬ P a) → count_if P db = 0.
Proof.
  unfold count_if. induction db as [|a db IH]; intros HP; [done|].
  rewrite filter_cons, decide_False by (apply HP; left).
  apply IH. intros b Hb. apply HP. by right.
Qed.

Lemma count_if_split P Q R `{∀ a, Decision (P a)} `{∀ a, Decision (Q a)}
    `{∀ a, Decision (R a)} db :
  (∀ a, P a ↔ Q a ∨ R a) → (∀ a, Q a → R a → False) →
  count_if P db = count_if Q db + count_if R db.
Proof.
  intros HP HQR. unfold count_if. induction db as [|a db IH]; [done|].
  rewrite !filter_cons. specialize (HP a). specialize (HQR a).
  repeat case_decide; cbn [length]; try tauto; lia.
Qed.

Lemma count_if_perm P `{∀ a, Decision (P a)} db db' :
  db ≡ₚ db' → count_if P db = count_if P db'.
Proof. intros Hp. unfold count_if. by rewrite Hp. Qed.

Lemma count_type_fmap t (l : list (Z * string)) :
  count_type t l.*2 = count_if (fun a => a.2 = t) l.
Proof.
  unfold count_type, count_if. induction l as [|a l IH]; [done|].
  cbn [fmap list_fmap]. rewrite !filter_cons.
  repeat case_decide; cbn [length]; try tauto; lia.
Qed.

(** The entries of type [t] the day loop sees on date [d]. *)
Lemma count_type_by_date db d t :
  count_type t (default [] (group_by_date (get_all_actions db) !! d)) =
  count_if (fun a => a.2 = t ∧ a.1 = d) db.
Proof.
  rewrite days_group_by_date_lookup, count_type_fmap.
  unfold count_if. rewrite list_filter_filter. by rewrite days_get_all_actions_perm.
Qed.

(** One day adds, to the stat of each action type, its gain once per entry
    of that type. *)
Lemma day_step_stat db d p t g :
  GAIN !! t = Some g →
  stat_get (day_step (group_by_date (get_all_actions db)) d p) t =
  stat_get p t + g * count_if (fun a => a.2 = t ∧ a.1 = d) db.
Proof.
  intros Hg. unfold day_step.
  rewrite (same_stats_stat_get _ _ t (level_up_same_stats _)).
  rewrite <- count_type_by_date.
  set (by_date := group_by_date (get_all_actions db)).
  destruct (decide (default [] (by_date !! d) = [])) as [E|E].
  - rewrite day_gains_gap, E by done. change (count_type t []) with 0.
    replace (g * 0) with 0 by lia. rewrite Z.add_0_r.
    unfold stat_get. repeat case_decide; reflexivity.
  - rewrite day_gains_active by done.
    apply GAIN_lookup_Some in Hg. elem_cases Hg; inversion Hg; subst; reflexivity.
Qed.

Lemma day_step_consistency by_date d p :
  consistency (day_step by_date d p) =
  consistency p + (if decide (default [] (by_date !! d) = []) then 0 else 2).
Proof.
  unfold day_step.
  destruct (level_up_same_stats (day_gains by_date d p))
    as (_ & _ & _ & _ & _ & -> & _ & _).
  case_decide as E.
  - rewrite day_gains_gap by done. cbn; lia.
  - by rewrite day_gains_active.
Qed.

(** After the walk, the stat of an action type is its gain times the number
    of its entries dated [today] or earlier. *)
Lemma walk_phase_stat db today t g :
  GAIN !! t = Some g →
  stat_get (walk_phase (get_all_actions db) today) t = g * count_upto db t today.
Proof.
  intros Hg. destruct (decide (db = [])) as [->|Hne].
  { cbn. apply GAIN_lookup_Some in Hg. elem_cases Hg; inversion Hg; reflexivity. }
  destruct (walk_phase_fold db today Hne) as (start & [Hin Hmin] & ->).
  assert (stat_get (zero_profile today) t = 0) as Hzero.
  { apply GAIN_lookup_Some in Hg. elem_cases Hg; inversion Hg; reflexivity. }
  assert (∀ a, a ∈ db → start ≤ a.1) as Hmin'.
  { intros a Ha. apply Hmin. by apply list_elem_of_fmap_2. }
  destruct (decide (today < start)) as [Hlt|Hge].
  - rewrite seqZ_nil by lia. cbn [fold_left]. rewrite Hzero.
    unfold count_upto. rewrite count_if_none; [lia|].
    intros a Ha [_ Hle]. specialize (Hmin' a Ha). lia.
  - set (I := fun (d : Z) (p : Profile) =>
        stat_get p t = g * count_if (fun a => a.2 = t ∧ a.1 < d) db).
    replace (today - start + 1) with (Z.of_nat (Z.to_nat (today - start + 1))) by lia.
    assert (I (start + Z.of_nat (Z.to_nat (today - start + 1)))
              (fold_left (fun p d => day_step (group_by_date (get_all_actions db)) d p)
                 (seqZ start (Z.of_nat (Z.to_nat (today - start + 1))))
                 (zero_profile today))) as HI.
    { apply fold_days_inv.
      - unfold I. rewrite Hzero, count_if_none; [lia|].
        intros a Ha [_ Hl]. specialize (Hmin' a Ha). lia.
      - unfold I. intros d q _ Hq. rewrite (day_step_stat db d q t g Hg), Hq.
        rewrite (count_if_split (fun a => a.2 = t ∧ a.1 < d + 1)
                   (fun a => a.2 = t ∧ a.1 < d) (fun a => a.2 = t ∧ a.1 = d));
          [lia| |]; intros a; destruct (decide (a.1 < d));
          destruct (decide (a.1 = d)); intuition lia. }
    unfold I in HI. rewrite HI. f_equal. unfold count_upto.
    apply count_if_ext. intros a _.
    destruct (decide (a.1 ≤ today)); intuition lia.
Qed.

(** ** The full recompute *)

(** *** Streak and weak decay *)



(** *** Invariants of the profile *)

Lemma day_gains_stats_nonneg by_date d p :
  0 ≤ strength p → 0 ≤ stamina p → 0 ≤ intelligence p → 0 ≤ wealth p →
  0 ≤ discipline p → 0 ≤ consistency p → 0 ≤ streak p →
  let q := day_gains by_date d p in
  0 ≤ strength q ∧ 0 ≤ stamina q ∧ 0 ≤ intelligence q ∧ 0 ≤ wealth q ∧
  0 ≤ discipline q ∧ 0 ≤ consistency q ∧ 0 ≤ streak q.
Proof.
  intros. destruct (decide (default [] (by_date !! d) = [])) as [E|E]; subst q.
  - rewrite day_gains_gap by done. cbn. repeat split; lia.
  - rewrite day_gains_active by done. cbn.
    pose proof (fun t => count_type_nonneg t (default [] (by_date !! d))) as Hc.
    pose proof (Hc "strength"%string). pose proof (Hc "stamina"%string).
    pose proof (Hc "intelligence"%string). pose proof (Hc "wealth"%string).
    pose proof (Hc "discipline"%string). repeat split; lia.
Qed.

Lemma days_day_step_ok by_date d p : profile_ok p → profile_ok (day_step by_date d p).
Proof.
  intros (Hl & He & _ & H1 & H2 & H3 & H4 & H5 & H6 & H7).
  pose proof (day_gains_stats_nonneg by_date d p H1 H2 H3 H4 H5 H6 H7) as Hg.
  pose proof (day_gains_level by_date d p) as Hlev.
  pose proof (day_gains_exp_le by_date d p H7) as Hexp.
  unfold day_step. set (g := day_gains by_date d p) in *. cbn zeta in Hg.
  pose proof (level_up_loop_level_le (Z.to_nat (exp g)) g) as Hle.
  fold (level_up g) in Hle. unfold profile_ok.
  destruct (level_up_same_stats g) as (-> & -> & -> & -> & -> & -> & -> & _).
  split; [lia|]. split; [apply level_up_loop_exp_nonneg; lia|].
  split; [apply level_up_normalized; lia|]. exact Hg.
Qed.

Lemma decay_fold_ok last_of cur_d p :
  profile_ok p → profile_ok (decay_fold last_of cur_d ACTION_TYPES p).
Proof.
  intros (Hl & He & Hn & H1 & H2 & H3 & H4 & H5 & H6 & H7).
  set (q := decay_fold last_of cur_d ACTION_TYPES p).
  destruct (decay_fold_frame last_of cur_d ACTION_TYPES p) as (Ql & Qe & Qs & _).
  pose proof (decay_fold_consistency last_of cur_d p) as Qc.
  assert (∀ t, t ∈ ACTION_TYPES → 0 ≤ stat_get p t → 0 ≤ stat_get q t) as Hst.
  { intros t Ht Hp. subst q. rewrite decay_fold_action_type by done.
    by apply decayed_nonneg. }
  fold q in Ql, Qe, Qs, Qc. unfold profile_ok. rewrite Ql, Qe, Qs, Qc.
  repeat split; try done.
  - apply (Hst "strength"%string); [elem_solve|done].
  - apply (Hst "stamina"%string); [elem_solve|done].
  - apply (Hst "intelligence"%string); [elem_solve|done].
  - apply (Hst "wealth"%string); [elem_solve|done].
  - apply (Hst "discipline"%string); [elem_solve|done].
Qed.

(** For every log and every today, the profile the full recompute
    returns has level at least 1, experience at least 0 and strictly below
    [need(level) = 100 + level * 20], each of the six stats at least 0, and a
    streak of at least 0. *)
Lemma days_full_recompute_invariants db today :
  let r := recompute_profile_from_actions db today in
  1 ≤ level r ∧ 0 ≤ exp r ∧ exp r < 100 + level r * 20 ∧
  0 ≤ strength r ∧ 0 ≤ stamina r ∧ 0 ≤ intelligence r ∧ 0 ≤ wealth r ∧
  0 ≤ discipline r ∧ 0 ≤ consistency r ∧ 0 ≤ streak r.
Proof.
  intros r. change (profile_ok r). subst r.
  destruct (decide (db = [])) as [->|Hne]; [apply zero_profile_ok|].
  rewrite recompute_nonempty by done. apply decay_fold_ok.
  destruct (walk_phase_fold db today Hne) as (start & _ & ->).
  apply fold_left_inv; [apply days_day_step_ok|apply zero_profile_ok].
Qed.

(** *** Levelling once per day or once at the end *)

Lemma levelling_rel_step by_date d p q :
  levelling_rel p q →
  levelling_rel (day_step by_date d p) (day_gains by_date d q).
Proof.
  intros (Hs & Ht & Hlp & Hep & _ & Hlq & Heq & Hsp).
  destruct (day_gains_same_stats by_date d p q Hs) as [Hs' Hd].
  pose proof (day_gains_level by_date d p) as Hlev.
  pose proof (day_gains_level by_date d q) as Hlevq.
  pose proof (day_gains_exp_le by_date d p Hsp) as Hexp.
  assert (streak q = streak p) as Hsq by (symmetry; apply Hs).
  pose proof (day_gains_exp_le by_date d q) as Hexpq. rewrite Hsq in Hexpq.
  specialize (Hexpq Hsp).
  assert (0 ≤ streak (day_step by_date d p)) as Hstreak.
  { rewrite day_step_streak. case_decide; lia. }
  revert Hstreak. unfold day_step. set (g := day_gains by_date d p) in *.
  set (h := day_gains by_date d q) in *. intros Hstreak.
  pose proof (level_up_loop_level_le (Z.to_nat (exp g)) g) as Hle.
  fold (level_up g) in Hle.
  unfold levelling_rel.
  split; [eapply same_stats_trans; [apply level_up_same_stats|exact Hs']|].
  split.
  { unfold level_up. rewrite level_up_loop_total_exp.
    unfold total_exp in *. rewrite Hlev, Hlevq. lia. }
  split; [lia|]. split; [apply level_up_loop_exp_nonneg; lia|].
  split; [apply level_up_normalized; lia|].
  split; [lia|]. split; [lia|]. exact Hstreak.
Qed.

Lemma levelling_rel_zero today :
  levelling_rel (zero_profile today) (zero_profile today).
Proof.
  unfold levelling_rel, need_exp_for_next; cbn.
  split; [apply same_stats_refl|]. repeat split; lia.
Qed.

(** Levelling once at the end reaches the profile that levelling every day
    has reached. *)
Lemma levelling_rel_final p q : levelling_rel p q → level_up q = p.
Proof.
  intros (Hs & Ht & Hlp & Hep & Hnp & Hlq & Heq & _).
  pose proof (level_up_loop_level_le (Z.to_nat (exp q)) q) as Hle.
  fold (level_up q) in Hle.
  pose proof (level_up_normalized q Hlq) as Hn.
  pose proof (level_up_loop_exp_nonneg (Z.to_nat (exp q)) q Hlq Heq) as He.
  fold (level_up q) in He.
  pose proof (level_up_loop_total_exp (Z.to_nat (exp q)) q) as Hte.
  fold (level_up q) in Hte. unfold total_exp in Ht, Hte.
  destruct (normalized_unique (level (level_up q)) (exp (level_up q))
              (level p) (exp p)) as [Hl' He']; try lia.
  apply same_stats_eq; [|done|done].
  eapply same_stats_trans; [apply level_up_same_stats|].
  by apply same_stats_sym.
Qed.

Lemma days_walk_phase_deferred_eq actions today :
  walk_phase_deferred actions today = walk_phase actions today.
Proof.
  unfold walk_phase_deferred, walk_phase.
  destruct (min_key (group_by_date actions)) as [start|]; [|done].
  rewrite !iter_days_fold by lia. apply levelling_rel_final.
  apply (fold_days_rel levelling_rel); [|apply levelling_rel_zero].
  intros d p q. apply levelling_rel_step.
Qed.

(** Running the level-up loop at the end of every simulated day, as
    the source does, and accumulating the gains of the whole walk to run the
    loop once at the end give the same profile, hence the same level and
    experience, for every log and every today. *)
Lemma days_levelling_per_day_or_deferred db today :
  recompute_deferred db today = recompute_profile_from_actions db today ∧
  (level (recompute_deferred db today), exp (recompute_deferred db today)) =
  (level (recompute_profile_from_actions db today),
   exp (recompute_profile_from_actions db today)).
Proof.
  assert (recompute_deferred db today = recompute_profile_from_actions db today)
    as H.
  { unfold recompute_deferred, recompute_profile_from_actions.
    destruct (get_all_actions db); [done|].
    by rewrite days_walk_phase_deferred_eq. }
  split; [exact H|]. by rewrite H.
Qed.

(** *** The empty log and the streak bonus *)

(** On an empty log the full recompute returns, for every today, the
    zero-state profile: level 1, experience 0, the six stats 0, streak 0 and
    last-evaluated date today.  (The model is a total function: there is no
    failure to return.) *)
Lemma days_full_recompute_empty today :
  recompute_profile_from_actions [] today = mkProfile 1 0 0 0 0 0 0 0 0 today.
Proof. reflexivity. Qed.

(** ** The incremental daily check *)

Lemma streak_step_frame db d p :
  let q := streak_step db d p in
  level q = level p ∧ exp q = exp p ∧ consistency q = consistency p ∧
  last_check_date q = last_check_date p.
Proof. unfold streak_step. by case_match. Qed.

Lemma apply_weekly_decay_fold db p current_date :
  apply_weekly_decay db p current_date =
  decay_fold (last_action_date_for_type db) current_date ACTION_TYPES p.
Proof. reflexivity. Qed.

(** The incremental daily check leaves level, experience and
    consistency as they were in the cached profile, for every profile and
    every current date; and when the current date is not after the last
    evaluated date, it returns the profile unchanged, last evaluated date
    included. *)
Lemma days_daily_check_frame db p current_date :
  let q := handle_daily_check db p current_date in
  level q = level p ∧ exp q = exp p ∧ consistency q = consistency p ∧
  (current_date ≤ last_check_date p → q = p).
Proof.
  intros q. subst q. unfold handle_daily_check.
  destruct (current_date <=? last_check_date p) eqn:E.
  { by repeat split. }
  apply Z.leb_gt in E.
  rewrite apply_weekly_decay_fold, iter_days_fold by lia.
  set (w := fold_left (fun p d => streak_step db d p) _ p).
  assert (level w = level p ∧ exp w = exp p ∧ consistency w = consistency p)
    as (Hl & He & Hc).
  { subst w.
    apply (fold_left_inv
             (fun q => level q = level p ∧ exp q = exp p ∧
                       consistency q = consistency p)); [|done].
    intros d q (Hl & He & Hc).
    destruct (streak_step_frame db d q) as (-> & -> & -> & _). done. }
  destruct (decay_fold_frame (last_action_date_for_type db) current_date
              ACTION_TYPES w) as (Dl & De & _ & _).
  pose proof (decay_fold_consistency (last_action_date_for_type db)
                current_date w) as Dc.
  cbn [level exp consistency set_last_check_date].
  rewrite Dl, De, Dc. repeat split; try done. lia.
Qed.

(** ** Further properties of the engine *)

(** *** The streak as a run of logged days *)

Lemma recompute_empty_log today :
  recompute_profile_from_actions [] today = zero_profile today.
Proof. reflexivity. Qed.

(** The streak of the full recompute, as a fold over the walked dates. *)
Lemma recompute_streak_fold db today :
  db ≠ [] →
  ∃ start, earliest start db ∧
    streak (recompute_profile_from_actions db today) =
    fold_left (streak_rule db) (seqZ start (today - start + 1)) 0.
Proof.
  intros Hne. destruct (walk_phase_fold db today Hne) as (start & He & Hw).
  exists start. split; [done|].
  rewrite recompute_nonempty by done.
  destruct (decay_fold_frame
              (fun t => mjoin (last_date_for (get_all_actions db) !! t)) today
              ACTION_TYPES (walk_phase (get_all_actions db) today))
    as (_ & _ & -> & _).
  rewrite Hw. apply fold_day_step_streak.
Qed.

(** After [n] walked days the streak [s] counts the last [s] days, all
    logged, and the day before them is not. *)
Lemma streak_rule_run db start n :
  let s := fold_left (streak_rule db) (seqZ start (Z.of_nat n)) 0 in
  0 ≤ s ≤ Z.of_nat n ∧
  (∀ d, start + Z.of_nat n - s ≤ d < start + Z.of_nat n → d ∈ db.*1) ∧
  (s < Z.of_nat n → start + Z.of_nat n - s - 1 ∉ db.*1).
Proof.
  induction n as [|n (Hs & Hrun & Hgap)]; cbn zeta.
  - rewrite seqZ_nil by lia. cbn. split; [lia|]. split; intros; lia.
  - rewrite seqZ_S, fold_left_app. cbn [fold_left].
    set (s := fold_left (streak_rule db) (seqZ start (Z.of_nat n)) 0) in *.
    destruct (decide (start + Z.of_nat n ∈ db.*1)) as [Hd|Hd].
    + rewrite streak_rule_in by done. split; [lia|]. split.
      * intros d Hrange.
        destruct (decide (d = start + Z.of_nat n)) as [->|Hne]; [done|].
        apply Hrun. lia.
      * intros Hlt.
        replace (start + Z.of_nat (S n) - (s + 1) - 1)
          with (start + Z.of_nat n - s - 1) by lia.
        apply Hgap. lia.
    + rewrite streak_rule_out by done. split; [lia|]. split.
      * intros d Hrange. lia.
      * intros _.
        by replace (start + Z.of_nat (S n) - 0 - 1) with (start + Z.of_nat n) by lia.
Qed.

Lemma recompute_streak_run db today :
  let s := streak (recompute_profile_from_actions db today) in
  0 ≤ s ∧
  (∀ d, today - s < d ≤ today → d ∈ db.*1) ∧
  (today - s ∉ db.*1) ∧
  (s = 0 ↔ today ∉ db.*1).
Proof.
  intros s.
  assert (0 ≤ s ∧ (∀ d, today - s < d ≤ today → d ∈ db.*1) ∧ today - s ∉ db.*1)
    as (Hs & Hrun & Hgap).
  { subst s. destruct (decide (db = [])) as [->|Hne].
    { cbn. split; [lia|]. split; [intros; lia|]. apply not_elem_of_nil. }
    destruct (recompute_streak_fold db today Hne) as (start & [Hin Hmin] & ->).
    destruct (decide (today < start)) as [Hlt|Hge].
    - rewrite seqZ_nil by lia. cbn. split; [lia|]. split; [intros; lia|].
      intros Hd. apply Hmin in Hd. lia.
    - pose proof (streak_rule_run db start (Z.to_nat (today - start + 1)))
        as (Hs & Hrun & Hgap).
      rewrite Z2Nat.id in Hs, Hrun, Hgap by lia.
      set (s := fold_left (streak_rule db) (seqZ start (today - start + 1)) 0) in *.
      split; [lia|]. split.
      + intros d Hd. apply Hrun. lia.
      + destruct (decide (s < today - start + 1)) as [Hlt|Hall].
        * replace (today - s) with (start + (today - start + 1) - s - 1) by lia.
          by apply Hgap.
        * intros Hd. apply Hmin in Hd. lia. }
  split; [done|]. split; [done|]. split; [done|]. split.
  - intros Hz. rewrite Hz in Hgap. by rewrite Z.sub_0_r in Hgap.
  - intros Hno. destruct (decide (s = 0)) as [|Hnz]; [done|].
    exfalso. apply Hno. apply Hrun. lia.
Qed.

(** The streak of the full recompute is the length of the run of
    consecutive logged days that ends today: the last [streak] days up to
    and including today all have an entry, and the day before them has
    none.  In particular the streak is 0 exactly when nothing is logged
    today. *)
Lemma days_full_recompute_streak_run db today :
  let s := streak (recompute_profile_from_actions db today) in
  0 ≤ s ∧
  (∀ d, today - s < d ≤ today → d ∈ db.*1) ∧
  (today - s ∉ db.*1) ∧
  (s = 0 ↔ today ∉ db.*1).
Proof. apply recompute_streak_run. Qed.

(** *** The incremental daily check, day by day *)

Lemma did_anything_on_spec db d : did_anything_on db d = true ↔ d ∈ db.*1.
Proof.
  unfold did_anything_on. rewrite existsb_exists, list_elem_of_fmap. split.
  - intros (a & Ha & Hd). apply Z.eqb_eq in Hd. exists a.
    split; [done|]. by apply list_elem_of_In.
  - intros (a & -> & Ha). exists a. split; [by apply list_elem_of_In|].
    apply Z.eqb_refl.
Qed.

Lemma days_streak_step_eq db d p :
  streak_step db d p = set_streak (streak_rule db (streak p) d) p.
Proof.
  unfold streak_step. destruct (did_anything_on db d) eqn:E.
  - apply did_anything_on_spec in E. by rewrite streak_rule_in.
  - rewrite streak_rule_out; [done|].
    intros Hd. apply did_anything_on_spec in Hd. congruence.
Qed.

Lemma days_fold_streak_step db days :
  ∀ p,
  fold_left (fun p d => streak_step db d p) days p =
  set_streak (fold_left (streak_rule db) days (streak p)) p.
Proof.
  induction days as [|d days IH]; intros p; cbn [fold_left].
  - by destruct p.
  - rewrite IH, days_streak_step_eq. reflexivity.
Qed.

(** The check on a later date: the streak walk over the elapsed days, the
    decay, the new date. *)
Lemma handle_daily_check_later db p current_date :
  last_check_date p < current_date →
  handle_daily_check db p current_date =
  set_last_check_date current_date
    (decay_fold (last_action_date_for_type db) current_date ACTION_TYPES
       (set_streak
          (fold_left (streak_rule db)
             (seqZ (last_check_date p + 1) (current_date - last_check_date p))
             (streak p))
          p)).
Proof.
  intros Hlt. unfold handle_daily_check.
  replace (current_date <=? last_check_date p) with false
    by (symmetry; apply Z.leb_gt; lia).
  rewrite apply_weekly_decay_fold, iter_days_fold by lia.
  replace (current_date - (last_check_date p + 1) + 1)
    with (current_date - last_check_date p) by lia.
  by rewrite days_fold_streak_step.
Qed.

Lemma handle_daily_check_last_check_date db p current_date :
  last_check_date (handle_daily_check db p current_date) =
  Z.max (last_check_date p) current_date.
Proof.
  destruct (decide (current_date ≤ last_check_date p)) as [Hle|Hgt].
  - unfold handle_daily_check.
    replace (current_date <=? last_check_date p) with true
      by (symmetry; by apply Z.leb_le). lia.
  - rewrite handle_daily_check_later by lia. cbn. lia.
Qed.

Lemma handle_daily_check_streak db p current_date :
  last_check_date p < current_date →
  streak (handle_daily_check db p current_date) =
  fold_left (streak_rule db)
    (seqZ (last_check_date p + 1) (current_date - last_check_date p)) (streak p).
Proof.
  intros Hlt. rewrite handle_daily_check_later by done.
  cbn [streak set_last_check_date].
  by destruct (decay_fold_frame (last_action_date_for_type db) current_date
                 ACTION_TYPES
                 (set_streak
                    (fold_left (streak_rule db)
                       (seqZ (last_check_date p + 1)
                          (current_date - last_check_date p))
                       (streak p)) p)) as (_ & _ & -> & _).
Qed.

Lemma handle_daily_check_stat db p current_date t :
  last_check_date p < current_date → t ∈ ACTION_TYPES →
  stat_get (handle_daily_check db p current_date) t =
  decayed (last_action_date_for_type db) current_date t (stat_get p t).
Proof.
  intros Hlt Ht. rewrite handle_daily_check_later by done.
  rewrite stat_get_set_last_check_date, decay_fold_action_type by done.
  by rewrite stat_get_set_streak.
Qed.

(** A second check on the same date changes nothing: the incremental
    daily check is idempotent, and it leaves the last evaluated date at the
    later of the cached date and the current date. *)
Lemma days_daily_check_idempotent db p current_date :
  let q := handle_daily_check db p current_date in
  handle_daily_check db q current_date = q ∧
  last_check_date q = Z.max (last_check_date p) current_date.
Proof.
  intros q. pose proof (handle_daily_check_last_check_date db p current_date) as Hd.
  fold q in Hd. split; [|done].
  unfold handle_daily_check at 1.
  replace (current_date <=? last_check_date q) with true
    by (symmetry; apply Z.leb_le; lia).
  reflexivity.
Qed.

(** On a date after the last evaluated one, the check applies the weak
    decay to each action type: the stat loses 2, floored at 0, when the type
    has been logged and its most recent date is 7 or more days before the
    current date, and is unchanged otherwise, in particular for a type never
    logged. *)
Lemma days_daily_check_decay db p current_date t :
  last_check_date p < current_date → t ∈ ACTION_TYPES →
  let q := handle_daily_check db p current_date in
  (∀ last, latest db t last →
     stat_get q t =
     if decide (7 ≤ current_date - last) then Z.max 0 (stat_get p t - 2)
     else stat_get p t) ∧
  (never_logged db t → stat_get q t = stat_get p t).
Proof.
  intros Hlt Ht q. subst q. rewrite handle_daily_check_stat by done.
  unfold decayed. pose proof (days_last_action_date_for_type_spec db t) as Hspec.
  destruct (last_action_date_for_type db t) as [d|]; split.
  - intros last Hl. rewrite (latest_unique _ _ _ _ Hl Hspec).
    destruct (decide (7 ≤ current_date - d)) as [H7|H7].
    + by replace (7 <=? current_date - d) with true
        by (symmetry; by apply Z.leb_le).
    + by replace (7 <=? current_date - d) with false
        by (symmetry; apply Z.leb_gt; lia).
  - intros Hnl. destruct Hspec as [Hin _]. by apply Hnl in Hin.
  - intros last [Hin _]. by apply Hspec in Hin.
  - done.
Qed.

(** The check never raises a stat and keeps the invariant of the
    profile: from a profile with level at least 1, experience within the
    level's requirement and nothing negative it returns such a profile, with
    every stat at most what it was. *)
Lemma days_daily_check_keeps_invariant db p current_date :
  profile_ok p →
  let q := handle_daily_check db p current_date in
  profile_ok q ∧ ∀ k, k ∈ STAT_KEYS → stat_get q k ≤ stat_get p k.
Proof.
  intros Hok q. subst q.
  destruct (decide (current_date ≤ last_check_date p)) as [Hle|Hgt].
  { unfold handle_daily_check.
    replace (current_date <=? last_check_date p) with true
      by (symmetry; by apply Z.leb_le). split; [done|]. intros; lia. }
  rewrite handle_daily_check_later by lia.
  set (s := fold_left (streak_rule db) _ (streak p)).
  assert (0 ≤ s) as Hs.
  { apply streak_rule_nonneg. apply Hok. }
  assert (profile_ok (set_streak s p)) as Hok'.
  { destruct Hok as (? & ? & ? & ? & ? & ? & ? & ? & ? & ?).
    unfold profile_ok. cbn. repeat split; done. }
  pose proof (decay_fold_ok (last_action_date_for_type db) current_date _ Hok')
    as Hdec.
  split.
  - destruct Hdec as (? & ? & ? & ? & ? & ? & ? & ? & ? & ?).
    unfold profile_ok. cbn. repeat split; done.
  - intros k Hk. rewrite stat_get_set_last_check_date.
    destruct (decide (k ∈ ACTION_TYPES)) as [Ha|Ha].
    + rewrite decay_fold_action_type, stat_get_set_streak by done.
      pose proof (profile_ok_stat_nonneg p k Hok Hk).
      unfold decayed. repeat case_match; lia.
    + rewrite decay_fold_other, stat_get_set_streak by done. lia.
Qed.

(** *** The incremental path against the full recompute *)

Lemma days_day_step_last_check_date by_date d p :
  last_check_date (day_step by_date d p) = last_check_date p.
Proof.
  unfold day_step.
  destruct (level_up_same_stats (day_gains by_date d p))
    as (_ & _ & _ & _ & _ & _ & _ & ->).
  destruct (decide (default [] (by_date !! d) = [])) as [E|E].
  - by rewrite day_gains_gap.
  - by rewrite day_gains_active.
Qed.

Lemma recompute_last_check_date db today :
  last_check_date (recompute_profile_from_actions db today) = today.
Proof.
  destruct (decide (db = [])) as [->|Hne]; [reflexivity|].
  rewrite recompute_nonempty by done.
  destruct (decay_fold_frame
              (fun t => mjoin (last_date_for (get_all_actions db) !! t)) today
              ACTION_TYPES (walk_phase (get_all_actions db) today))
    as (_ & _ & _ & ->).
  destruct (walk_phase_fold db today Hne) as (start & _ & ->).
  apply (fold_left_inv (fun p => last_check_date p = today)); [|done].
  intros d p <-. apply days_day_step_last_check_date.
Qed.

Lemma days_handle_daily_check_not_later db p d :
  d ≤ last_check_date p → handle_daily_check db p d = p.
Proof.
  intros Hd. unfold handle_daily_check.
  by replace (d <=? last_check_date p) with true by (symmetry; by apply Z.leb_le).
Qed.

(** A daily check made on the day of a full recompute, or with an
    earlier date, returns the recomputed profile as it is: the page view
    that follows a log, an edit or a delete does not alter the profile just
    saved. *)
Lemma days_daily_check_after_recompute db today d :
  d ≤ today →
  handle_daily_check db (recompute_profile_from_actions db today) d =
  recompute_profile_from_actions db today.
Proof.
  intros Hd. apply days_handle_daily_check_not_later.
  by rewrite recompute_last_check_date.
Qed.

Lemma streak_rule_unlogged db days :
  (∀ d, d ∈ days → d ∉ db.*1) → fold_left (streak_rule db) days 0 = 0.
Proof.
  induction days as [|d days IH]; intros Hno; cbn [fold_left]; [done|].
  rewrite streak_rule_out by (apply Hno; left).
  apply IH. intros d' Hd'. apply Hno. by right.
Qed.

Lemma recompute_streak_empty today :
  streak (recompute_profile_from_actions [] today) = 0.
Proof. reflexivity. Qed.

(** With the log unchanged, the streak the incremental check reaches
    from a recomputed profile is the streak a full recompute gives on the
    later date: on the streak the two paths agree. *)
Lemma days_incremental_streak_agrees db d1 d2 :
  d1 ≤ d2 →
  streak (handle_daily_check db (recompute_profile_from_actions db d1) d2) =
  streak (recompute_profile_from_actions db d2).
Proof.
  intros Hle. destruct (decide (d1 = d2)) as [->|Hne].
  { rewrite days_handle_daily_check_not_later; [done|].
    by rewrite recompute_last_check_date. }
  rewrite handle_daily_check_streak by (rewrite recompute_last_check_date; lia).
  rewrite recompute_last_check_date.
  destruct (decide (db = [])) as [->|Hdb].
  { rewrite !recompute_streak_empty. apply streak_rule_unlogged.
    intros d _. apply not_elem_of_nil. }
  destruct (recompute_streak_fold db d1 Hdb) as (start & He & ->).
  destruct (recompute_streak_fold db d2 Hdb) as (start' & He' & ->).
  rewrite <- (earliest_unique _ _ _ He He'). clear start' He'.
  destruct He as [Hin Hmin].
  destruct (decide (start ≤ d1 + 1)) as [Hs|Hs].
  - replace (d2 - start + 1) with ((d1 - start + 1) + (d2 - d1)) by lia.
    rewrite (seqZ_app start (d1 - start + 1) (d2 - d1)) by lia.
    rewrite fold_left_app.
    by replace (start + (d1 - start + 1)) with (d1 + 1) by lia.
  - rewrite (seqZ_nil start (d1 - start + 1)) by lia. cbn [fold_left].
    destruct (decide (start ≤ d2)) as [Hs2|Hs2].
    + replace (d2 - d1) with ((start - d1 - 1) + (d2 - start + 1)) by lia.
      rewrite (seqZ_app (d1 + 1) (start - d1 - 1) (d2 - start + 1)) by lia.
      rewrite fold_left_app.
      replace (d1 + 1 + (start - d1 - 1)) with start by lia.
      rewrite streak_rule_unlogged; [done|].
      intros d Hd Hlog. apply elem_of_seqZ in Hd. apply Hmin in Hlog. lia.
    + rewrite (seqZ_nil start) by lia. cbn [fold_left].
      apply streak_rule_unlogged.
      intros d Hd Hlog. apply elem_of_seqZ in Hd. apply Hmin in Hlog. lia.
Qed.

(** The stats of the full recompute in closed form. *)
Lemma recompute_stat_latest db today t g last :
  GAIN !! t = Some g → latest db t last →
  stat_get (recompute_profile_from_actions db today) t =
  if decide (7 ≤ today - last) then Z.max 0 (g * count_upto db t today - 2)
  else g * count_upto db t today.
Proof.
  intros Hg Hl.
  assert (t ∈ ACTION_TYPES) as Ht by (apply GAIN_is_Some; by eexists).
  assert (db ≠ []) as Hne.
  { intros ->. destruct Hl as [Hin _]. by apply elem_of_nil in Hin. }
  rewrite recompute_nonempty by done.
  rewrite decay_fold_action_type by done. unfold decayed.
  pose proof (days_last_date_for_spec db t Ht) as Hlast.
  destruct (mjoin (last_date_for (get_all_actions db) !! t)) as [d|].
  - rewrite (latest_unique _ _ _ _ Hlast Hl).
    rewrite (walk_phase_stat db today t g Hg).
    destruct (decide (7 ≤ today - last)) as [H7|H7].
    + by replace (7 <=? today - last) with true by (symmetry; by apply Z.leb_le).
    + by replace (7 <=? today - last) with false
        by (symmetry; apply Z.leb_gt; lia).
  - destruct Hl as [Hin _]. by apply Hlast in Hin.
Qed.

Lemma recompute_stat_never db today t :
  t ∈ ACTION_TYPES → never_logged db t →
  stat_get (recompute_profile_from_actions db today) t = 0.
Proof.
  intros Ht Hnl. destruct (decide (db = [])) as [->|Hne].
  { unfold ACTION_TYPES in Ht. elem_cases Ht; subst t; reflexivity. }
  rewrite recompute_nonempty by done.
  rewrite decay_fold_action_type by done. unfold decayed.
  pose proof (days_last_date_for_spec db t Ht) as Hlast.
  destruct (mjoin (last_date_for (get_all_actions db) !! t)) as [d|].
  { destruct Hlast as [Hin _]. by apply Hnl in Hin. }
  apply GAIN_is_Some in Ht as [g Hg].
  rewrite (walk_phase_stat db today t g Hg).
  unfold count_upto. rewrite count_if_none; [lia|].
  intros [d' t'] Ha [Ht' _]. cbn in Ht'. subst t'. by apply Hnl in Ha.
Qed.

(** After the walk and the decay, the stat of an action type is its
    gain times the number of its entries dated today or earlier, less 2
    (floored at 0) when its most recent entry, of any date, is 7 or more
    days old.  Entries dated after today are not counted, yet they count as
    the most recent entry; a type logged within the last six days, or in
    the future, is not decayed. *)
Lemma days_full_recompute_stat_closed_form db today t g :
  GAIN !! t = Some g →
  let r := recompute_profile_from_actions db today in
  (∀ last, latest db t last →
     stat_get r t =
     if decide (7 ≤ today - last) then Z.max 0 (g * count_upto db t today - 2)
     else g * count_upto db t today) ∧
  (never_logged db t → stat_get r t = 0) ∧
  (∀ d, (d, t) ∈ db → today - d < 7 → stat_get r t = g * count_upto db t today).
Proof.
  intros Hg r. subst r. split; [|split].
  - intros last Hl. by apply recompute_stat_latest.
  - intros Hnl. apply recompute_stat_never; [|done].
    apply GAIN_is_Some. by eexists.
  - intros d Hd Hrecent.
    assert (t ∈ ACTION_TYPES) as Ht by (apply GAIN_is_Some; by eexists).
    pose proof (days_last_action_date_for_type_spec db t) as Hspec.
    destruct (last_action_date_for_type db t) as [last|].
    + rewrite (recompute_stat_latest db today t g last Hg Hspec).
      destruct Hspec as [_ Hmax]. specialize (Hmax d Hd).
      rewrite decide_False; [done|lia].
    + by apply Hspec in Hd.
Qed.

(** The incremental check decays again what the full recompute has
    already decayed: for a type whose most recent entry was 7 or more days
    old at the recompute, a check on a later day leaves the stat 2 below
    (floored at 0) the stat a full recompute gives on that day. *)
Lemma days_incremental_decays_again db d1 d2 t last :
  t ∈ ACTION_TYPES → latest db t last → 7 ≤ d1 - last → d1 < d2 →
  stat_get (handle_daily_check db (recompute_profile_from_actions db d1) d2) t =
  Z.max 0 (stat_get (recompute_profile_from_actions db d2) t - 2).
Proof.
  intros Ht Hl H7 Hlt.
  rewrite handle_daily_check_stat by (try rewrite recompute_last_check_date; done).
  unfold decayed. pose proof (days_last_action_date_for_type_spec db t) as Hspec.
  destruct (last_action_date_for_type db t) as [d|];
    [|destruct Hl as [Hin _]; by apply Hspec in Hin].
  rewrite (latest_unique _ _ _ _ Hspec Hl).
  replace (7 <=? d2 - last) with true by (symmetry; apply Z.leb_le; lia).
  destruct (proj2 (GAIN_is_Some t) Ht) as [g Hg].
  rewrite (recompute_stat_latest db d1 t g last Hg Hl).
  rewrite (recompute_stat_latest db d2 t g last Hg Hl).
  rewrite !decide_True by lia.
  assert (count_upto db t d1 = count_upto db t d2) as ->; [|done].
  unfold count_upto. apply count_if_ext. intros [d' t'] Ha. cbn.
  split; intros [-> Hd']; (split; [done|]).
  - lia.
  - destruct Hl as [_ Hmax]. specialize (Hmax d' Ha). lia.
Qed.

Lemma handle_daily_check_fields db p current_date :
  let q := handle_daily_check db p current_date in
  level q = level p ∧ exp q = exp p ∧ consistency q = consistency p.
Proof.
  cbn zeta. destruct (decide (current_date ≤ last_check_date p)) as [Hle|Hgt].
  { unfold handle_daily_check.
    by replace (current_date <=? last_check_date p) with true
      by (symmetry; by apply Z.leb_le). }
  rewrite handle_daily_check_later by lia.
  cbn [level exp consistency set_last_check_date].
  set (w := set_streak _ p).
  destruct (decay_fold_frame (last_action_date_for_type db) current_date
              ACTION_TYPES w) as (-> & -> & _ & _).
  by rewrite decay_fold_consistency.
Qed.

(** Two checks on successive dates against one check on the later
    date: streak, last evaluated date, level, experience and consistency
    come out the same, while each action stat, decayed at both checks, is at
    most what the single check leaves. *)
Lemma days_daily_checks_compose db p d1 d2 :
  last_check_date p < d1 → d1 < d2 →
  (∀ k, k ∈ STAT_KEYS → 0 ≤ stat_get p k) →
  let twice := handle_daily_check db (handle_daily_check db p d1) d2 in
  let once := handle_daily_check db p d2 in
  streak twice = streak once ∧
  last_check_date twice = last_check_date once ∧
  level twice = level once ∧ exp twice = exp once ∧
  consistency twice = consistency once ∧
  ∀ k, k ∈ STAT_KEYS → stat_get twice k ≤ stat_get once k.
Proof.
  intros H1 H2 Hpos twice once. subst twice once.
  pose proof (handle_daily_check_last_check_date db p d1) as Hd1.
  rewrite Z.max_r in Hd1 by lia.
  split; [|split; [|split; [|split; [|split]]]].
  - rewrite (handle_daily_check_streak db (handle_daily_check db p d1) d2)
      by (rewrite Hd1; lia).
    rewrite Hd1.
    rewrite (handle_daily_check_streak db p d1) by lia.
    rewrite (handle_daily_check_streak db p d2) by lia.
    replace (d2 - last_check_date p)
      with ((d1 - last_check_date p) + (d2 - d1)) by lia.
    rewrite (seqZ_app (last_check_date p + 1) (d1 - last_check_date p) (d2 - d1))
      by lia.
    rewrite fold_left_app.
    by replace (last_check_date p + 1 + (d1 - last_check_date p)) with (d1 + 1)
      by lia.
  - rewrite !handle_daily_check_last_check_date. lia.
  - destruct (handle_daily_check_fields db (handle_daily_check db p d1) d2)
      as (-> & _).
    destruct (handle_daily_check_fields db p d1) as (-> & _).
    by destruct (handle_daily_check_fields db p d2) as (-> & _).
  - destruct (handle_daily_check_fields db (handle_daily_check db p d1) d2)
      as (_ & -> & _).
    destruct (handle_daily_check_fields db p d1) as (_ & -> & _).
    by destruct (handle_daily_check_fields db p d2) as (_ & -> & _).
  - destruct (handle_daily_check_fields db (handle_daily_check db p d1) d2)
      as (_ & _ & ->).
    destruct (handle_daily_check_fields db p d1) as (_ & _ & ->).
    by destruct (handle_daily_check_fields db p d2) as (_ & _ & ->).
  - intros k Hk. specialize (Hpos k Hk).
    destruct (decide (k ∈ ACTION_TYPES)) as [Ha|Ha].
    + rewrite !handle_daily_check_stat by (try rewrite Hd1; done || lia).
      unfold decayed. destruct (last_action_date_for_type db k); [|lia].
      repeat case_match; lia.
    + rewrite !handle_daily_check_later by lia.
      rewrite !stat_get_set_last_check_date.
      rewrite !decay_fold_other by done.
      rewrite !stat_get_set_streak.
      rewrite stat_get_set_last_check_date, decay_fold_other by done.
      by rewrite stat_get_set_streak.
Qed.

(** *** Consistency, and the entries dated after today *)

Lemma fold_day_step_consistency db days :
  ∀ p,
  consistency
    (fold_left (fun p d => day_step (group_by_date (get_all_actions db)) d p)
       days p) =
  consistency p + 2 * Z.of_nat (length (filter (fun d => d ∈ db.*1) days)).
Proof.
  induction days as [|d days IH]; intros p; cbn [fold_left].
  - cbn. lia.
  - rewrite IH, day_step_consistency, filter_cons.
    destruct (decide (d ∈ db.*1)) as [Hd|Hd].
    + rewrite decide_False by (rewrite by_date_nil; tauto). cbn [length]. lia.
    + rewrite decide_True by (by rewrite by_date_nil). lia.
Qed.

Lemma recompute_consistency db today :
  consistency (recompute_profile_from_actions db today) =
  2 * Z.of_nat (length (filter (fun d => d ≤ today) (remove_dups db.*1))).
Proof.
  destruct (decide (db = [])) as [->|Hne]; [reflexivity|].
  rewrite recompute_nonempty, decay_fold_consistency by done.
  destruct (walk_phase_fold db today Hne) as (start & [Hin Hmin] & ->).
  rewrite fold_day_step_consistency. cbn [consistency zero_profile].
  rewrite Z.add_0_l. do 2 f_equal. apply Permutation_length.
  apply NoDup_Permutation.
  - apply NoDup_filter, NoDup_seqZ.
  - apply NoDup_filter, NoDup_remove_dups.
  - intros d. rewrite !list_elem_of_filter, elem_of_seqZ, elem_of_remove_dups.
    split.
    + intros [Hd Hrange]. split; [lia|done].
    + intros [Hle Hd]. split; [done|]. specialize (Hmin d Hd). lia.
Qed.

(** Consistency after a full recompute is 2 for each distinct date,
    today or earlier, that has an entry, whatever the number or the types of
    the entries of the date; it is never decayed. *)
Lemma days_full_recompute_consistency db today :
  consistency (recompute_profile_from_actions db today) =
  2 * Z.of_nat (length (filter (fun d => d ≤ today) (remove_dups db.*1))).
Proof. apply recompute_consistency. Qed.

Lemma recompute_as_decay db today :
  recompute_profile_from_actions db today =
  decay_fold (fun t => mjoin (last_date_for (get_all_actions db) !! t)) today
    ACTION_TYPES (walk_phase (get_all_actions db) today).
Proof.
  destruct (decide (db = [])) as [->|Hne]; [reflexivity|].
  by apply recompute_nonempty.
Qed.

Lemma count_gainful_fmap (l : list (Z * string)) :
  count_gainful l.*2 = count_if (fun a => a.2 ∈ ACTION_TYPES) l.
Proof.
  unfold count_gainful, count_if. induction l as [|a l IH]; [done|].
  cbn [fmap list_fmap]. rewrite !filter_cons.
  repeat case_decide; cbn [length]; try tauto; lia.
Qed.

Lemma count_gainful_by_date db d :
  count_gainful (default [] (group_by_date (get_all_actions db) !! d)) =
  count_if (fun a => a.2 ∈ ACTION_TYPES ∧ a.1 = d) db.
Proof.
  rewrite days_group_by_date_lookup, count_gainful_fmap.
  unfold count_if. rewrite list_filter_filter. by rewrite days_get_all_actions_perm.
Qed.

(** The gains of a day depend on the day's entries only through their
    number per type. *)
Lemma day_gains_determined by1 by2 d p :
  (default [] (by1 !! d) = [] ↔ default [] (by2 !! d) = []) →
  count_gainful (default [] (by1 !! d)) = count_gainful (default [] (by2 !! d)) →
  (∀ t, count_type t (default [] (by1 !! d)) =
        count_type t (default [] (by2 !! d))) →
  day_gains by1 d p = day_gains by2 d p.
Proof.
  intros Hnil Hg Ht.
  destruct (decide (default [] (by1 !! d) = [])) as [E1|E1].
  - rewrite !day_gains_gap; [done|by apply Hnil|done].
  - rewrite !day_gains_active; [|by rewrite <- Hnil|done].
    by rewrite Hg, !Ht.
Qed.

Lemma count_if_filter P Q `{∀ a, Decision (P a)} `{∀ a, Decision (Q a)} db :
  count_if P (filter Q db) = count_if (fun a => P a ∧ Q a) db.
Proof. unfold count_if. by rewrite list_filter_filter. Qed.

Lemma day_step_drop_future db today d p :
  d ≤ today →
  day_step (group_by_date (get_all_actions db)) d p =
  day_step
    (group_by_date (get_all_actions (filter (fun a => a.1 ≤ today) db))) d p.
Proof.
  intros Hd. unfold day_step. f_equal. apply day_gains_determined.
  - rewrite !by_date_nil. rewrite !list_elem_of_fmap.
    split; intros Hno (a & -> & Ha); apply Hno; exists a; (split; [done|]).
    + by apply list_elem_of_filter in Ha as [_ Ha].
    + by apply list_elem_of_filter.
  - rewrite !count_gainful_by_date, count_if_filter.
    apply count_if_ext. intros a _. cbn. intuition lia.
  - intros t. rewrite !count_type_by_date, count_if_filter.
    apply count_if_ext. intros a _. cbn. intuition lia.
Qed.

(** The day walk does not see the entries dated after today. *)
Lemma walk_phase_drop_future db today :
  walk_phase (get_all_actions db) today =
  walk_phase (get_all_actions (filter (fun a => a.1 ≤ today) db)) today.
Proof.
  set (db' := filter (fun a => a.1 ≤ today) db).
  destruct (decide (db = [])) as [->|Hne]; [done|].
  destruct (walk_phase_fold db today Hne) as (start & [Hin Hmin] & ->).
  destruct (decide (db' = [])) as [E|Hne'].
  - rewrite E. rewrite seqZ_nil; [reflexivity|].
    apply list_elem_of_fmap in Hin as (a & -> & Ha).
    destruct (decide (a.1 ≤ today)) as [Hle|Hgt]; [|lia].
    assert (a ∈ db') as Ha' by by apply list_elem_of_filter.
    rewrite E in Ha'. by apply elem_of_nil in Ha'.
  - destruct (walk_phase_fold db' today Hne') as (start' & [Hin' Hmin'] & ->).
    assert (start' = start) as ->.
    { apply list_elem_of_fmap in Hin' as (a' & -> & Ha').
      apply list_elem_of_filter in Ha' as [Hle' Ha'].
      assert (start ≤ a'.1) as H1 by (apply Hmin; by apply list_elem_of_fmap_2).
      apply list_elem_of_fmap in Hin as (a & -> & Ha).
      assert (a'.1 ≤ a.1); [|lia].
      apply Hmin'. apply list_elem_of_fmap_2. apply list_elem_of_filter.
      split; [lia|done]. }
    apply fold_left_ext_in. intros d p Hd. apply elem_of_seqZ in Hd.
    apply day_step_drop_future. lia.
Qed.

Lemma walk_phase_ok db today : profile_ok (walk_phase (get_all_actions db) today).
Proof.
  destruct (decide (db = [])) as [->|Hne]; [apply zero_profile_ok|].
  destruct (walk_phase_fold db today Hne) as (start & _ & ->).
  apply fold_left_inv; [apply days_day_step_ok|apply zero_profile_ok].
Qed.

(** Entries dated after today have no effect on level, experience,
    consistency, streak or last evaluated date: the full recompute gives the
    same values as on the log without them.  On an action stat their only
    effect is to hold off the decay: the stat is at least what it is
    without them, and the same when the type has no entry after today. *)
Lemma days_future_entries_only_shield db today :
  let r := recompute_profile_from_actions db today in
  let r' :=
    recompute_profile_from_actions (filter (fun a => a.1 ≤ today) db) today in
  level r = level r' ∧ exp r = exp r' ∧ consistency r = consistency r' ∧
  streak r = streak r' ∧ last_check_date r = last_check_date r' ∧
  ∀ t, t ∈ ACTION_TYPES →
    stat_get r' t ≤ stat_get r t ∧
    ((∀ d, (d, t) ∈ db → d ≤ today) → stat_get r t = stat_get r' t).
Proof.
  intros r r'. subst r r'. set (db' := filter (fun a => a.1 ≤ today) db).
  rewrite (recompute_as_decay db), (recompute_as_decay db').
  pose proof (walk_phase_drop_future db today) as Hw'. fold db' in Hw'.
  rewrite <- Hw'. clear Hw'.
  set (w := walk_phase (get_all_actions db) today).
  set (L := fun t => mjoin (last_date_for (get_all_actions db) !! t)).
  set (L' := fun t => mjoin (last_date_for (get_all_actions db') !! t)).
  destruct (decay_fold_frame L today ACTION_TYPES w) as (-> & -> & -> & ->).
  destruct (decay_fold_frame L' today ACTION_TYPES w) as (-> & -> & -> & ->).
  rewrite !decay_fold_consistency.
  do 5 (split; [done|]).
  intros t Ht. rewrite !decay_fold_action_type by done. unfold decayed.
  pose proof (profile_ok_stat_nonneg w t (walk_phase_ok db today)
                (ACTION_TYPES_STAT_KEYS t Ht)) as Hw.
  pose proof (days_last_date_for_spec db t Ht) as Hl. fold (L t) in Hl.
  pose proof (days_last_date_for_spec db' t Ht) as Hl'. fold (L' t) in Hl'.
  destruct (L t) as [d|], (L' t) as [d'|].
  - destruct Hl as [Hin Hmax], Hl' as [Hin' Hmax'].
    apply list_elem_of_filter in Hin' as [Hle' Hin']. cbn in Hle'.
    pose proof (Hmax d' Hin'). split.
    + repeat case_match; lia.
    + intros Hpast. specialize (Hpast d Hin).
      assert (d ≤ d'); [|by replace d' with d by lia].
      apply Hmax'. apply list_elem_of_filter. by split.
  - destruct Hl as [Hin Hmax].
    assert (today < d) as Hfut.
    { destruct (decide (d ≤ today)) as [Hle|Hgt]; [|lia]. exfalso.
      apply (Hl' d). apply list_elem_of_filter. by split. }
    split; [case_match eqn:E7; [apply Z.leb_le in E7|]; lia|].
    intros Hpast. specialize (Hpast d Hin). lia.
  - destruct Hl' as [Hin' _]. apply list_elem_of_filter in Hin' as [_ Hin'].
    by apply Hl in Hin'.
  - split; [lia|done].
Qed.

(** *** As the days pass *)

Lemma day_step_set_date by_date d v p :
  day_step by_date d (set_last_check_date v p) =
  set_last_check_date v (day_step by_date d p).
Proof.
  unfold day_step, level_up.
  assert (day_gains by_date d (set_last_check_date v p) =
          set_last_check_date v (day_gains by_date d p)) as ->.
  { destruct (decide (default [] (by_date !! d) = [])) as [E|E].
    - by rewrite !day_gains_gap.
    - by rewrite !day_gains_active. }
  apply level_up_loop_set_date.
Qed.

Lemma days_fold_day_step_set_date by_date days v :
  ∀ p,
  fold_left (fun p d => day_step by_date d p) days (set_last_check_date v p) =
  set_last_check_date v (fold_left (fun p d => day_step by_date d p) days p).
Proof.
  induction days as [|d days IH]; intros p; cbn [fold_left]; [done|].
  by rewrite day_step_set_date, IH.
Qed.

(** One more day of walk is one more run of the day's body. *)
Lemma walk_phase_succ db today start :
  earliest start db → start ≤ today + 1 →
  walk_phase (get_all_actions db) (today + 1) =
  set_last_check_date (today + 1)
    (day_step (group_by_date (get_all_actions db)) (today + 1)
       (walk_phase (get_all_actions db) today)).
Proof.
  intros He Hs.
  assert (db ≠ []) as Hne.
  { intros ->. destruct He as [Hin _]. by apply elem_of_nil in Hin. }
  destruct (walk_phase_fold db (today + 1) Hne) as (s1 & He1 & ->).
  destruct (walk_phase_fold db today Hne) as (s2 & He2 & ->).
  rewrite <- (earliest_unique _ _ _ He He1), <- (earliest_unique _ _ _ He He2).
  replace (today + 1 - start + 1) with ((today - start + 1) + 1) by lia.
  rewrite (seqZ_app start (today - start + 1) 1) by lia.
  rewrite fold_left_app.
  replace (start + (today - start + 1)) with (today + 1) by lia.
  rewrite (seqZ_cons (today + 1) 1), seqZ_nil by lia. cbn [fold_left].
  change (zero_profile (today + 1))
    with (set_last_check_date (today + 1) (zero_profile today)).
  by rewrite days_fold_day_step_set_date, day_step_set_date.
Qed.

Lemma day_step_grows by_date d p :
  0 ≤ level p → 0 ≤ streak p →
  level p ≤ level (day_step by_date d p) ∧
  total_exp p ≤ total_exp (day_step by_date d p) ∧
  consistency p ≤ consistency (day_step by_date d p).
Proof.
  intros Hl Hs. split; [|split].
  - unfold day_step, level_up.
    etransitivity; [|apply level_up_loop_level_le].
    by rewrite day_gains_level.
  - unfold day_step, level_up. rewrite level_up_loop_total_exp.
    pose proof (day_gains_exp_le by_date d p Hs).
    unfold total_exp. rewrite day_gains_level. lia.
  - rewrite day_step_consistency. case_decide; lia.
Qed.

Lemma days_recompute_walk_fields db today :
  let r := recompute_profile_from_actions db today in
  let w := walk_phase (get_all_actions db) today in
  level r = level w ∧ exp r = exp w ∧ consistency r = consistency w ∧
  streak r = streak w.
Proof.
  cbn zeta. rewrite recompute_as_decay.
  destruct (decay_fold_frame
              (fun t => mjoin (last_date_for (get_all_actions db) !! t)) today
              ACTION_TYPES (walk_phase (get_all_actions db) today))
    as (-> & -> & -> & _).
  by rewrite decay_fold_consistency.
Qed.

Lemma recompute_next_day db today :
  let r := recompute_profile_from_actions db today in
  let r' := recompute_profile_from_actions db (today + 1) in
  level r ≤ level r' ∧ total_exp r ≤ total_exp r' ∧
  consistency r ≤ consistency r'.
Proof.
  cbn zeta.
  destruct (days_recompute_walk_fields db today) as (Hl & He & Hc & _).
  destruct (days_recompute_walk_fields db (today + 1)) as (Hl' & He' & Hc' & _).
  unfold total_exp. rewrite Hl, He, Hc, Hl', He', Hc'.
  fold (total_exp (walk_phase (get_all_actions db) today)).
  fold (total_exp (walk_phase (get_all_actions db) (today + 1))).
  destruct (decide (db = [])) as [->|Hne]; [repeat split; by vm_compute|].
  destruct (walk_phase_fold db today Hne) as (start & He0 & Hw).
  destruct (decide (start ≤ today + 1)) as [Hs|Hs].
  - rewrite (walk_phase_succ db today start He0 Hs).
    pose proof (walk_phase_ok db today) as (Hlev & _ & _ & _ & _ & _ & _ & _ & _ & Hst).
    destruct (day_step_grows (group_by_date (get_all_actions db)) (today + 1)
                (walk_phase (get_all_actions db) today)) as (? & ? & ?);
      [lia|done|].
    unfold total_exp in *. cbn. lia.
  - destruct (walk_phase_fold db (today + 1) Hne) as (s1 & He1 & ->).
    rewrite <- (earliest_unique _ _ _ He0 He1). rewrite Hw.
    rewrite !seqZ_nil by lia. unfold total_exp. cbn. lia.
Qed.

(** With the log unchanged, a full recompute on a later day never
    gives a lower level, less total experience or less consistency than on
    an earlier day: stats may decay and the streak may reset, levels and
    experience are never lost. *)
Lemma days_full_recompute_monotone_in_today db today today' :
  today ≤ today' →
  let r := recompute_profile_from_actions db today in
  let r' := recompute_profile_from_actions db today' in
  level r ≤ level r' ∧ total_exp r ≤ total_exp r' ∧
  consistency r ≤ consistency r'.
Proof.
  intros Hle. cbn zeta.
  replace today' with (today + Z.of_nat (Z.to_nat (today' - today))) by lia.
  induction (Z.to_nat (today' - today)) as [|n (IHl & IHe & IHc)].
  - replace (today + Z.of_nat 0) with today by lia. lia.
  - replace (today + Z.of_nat (S n)) with (today + Z.of_nat n + 1) by lia.
    destruct (recompute_next_day db (today + Z.of_nat n)) as (? & ? & ?).
    lia.
Qed.

(** *** The two decay loops, and the order of the rows *)

Lemma decay_fold_ext L1 L2 cur_d ts :
  (∀ t, t ∈ ts → L1 t = L2 t) →
  ∀ p, decay_fold L1 cur_d ts p = decay_fold L2 cur_d ts p.
Proof.
  induction ts as [|t ts IH]; intros Heq p; [done|].
  rewrite !decay_fold_cons. rewrite (Heq t) by left.
  apply IH. intros t' Ht'. apply Heq. by right.
Qed.

Lemma days_last_date_paths_agree db t :
  t ∈ ACTION_TYPES →
  mjoin (last_date_for (get_all_actions db) !! t) =
  last_action_date_for_type db t.
Proof.
  intros Ht. pose proof (days_last_date_for_spec db t Ht) as H1.
  pose proof (days_last_action_date_for_type_spec db t) as H2.
  destruct (mjoin _) as [d1|], (last_action_date_for_type db t) as [d2|].
  - f_equal. by eapply latest_unique.
  - destruct H1 as [Hin _]. by apply H2 in Hin.
  - destruct H2 as [Hin _]. by apply H1 in Hin.
  - done.
Qed.

(** The decay written out at the end of the full recompute, from the
    dictionary [last_date_for] filled in log order, and [apply_weekly_decay],
    from one query per type, are the same function of the table, the date
    and the profile. *)
Lemma days_decay_paths_agree db today p :
  decay_phase (get_all_actions db) today p = apply_weekly_decay db p today.
Proof.
  rewrite apply_weekly_decay_fold.
  change (decay_phase (get_all_actions db) today p)
    with (decay_fold (fun t => mjoin (last_date_for (get_all_actions db) !! t))
            today ACTION_TYPES p).
  apply decay_fold_ext. intros t Ht. by apply days_last_date_paths_agree.
Qed.

Lemma days_insert_by_date_filter a l d :
  filter (fun b => b.1 = d) (insert_by_date a l) =
  filter (fun b => b.1 = d) (a :: l).
Proof.
  induction l as [|b l IH]; cbn [insert_by_date]; [done|].
  case_match eqn:E; [done|]. apply Z.leb_gt in E.
  rewrite (filter_cons _ b), IH, !(filter_cons _ a), (filter_cons _ b).
  repeat case_decide; try done. lia.
Qed.

Lemma days_get_all_actions_filter db d :
  filter (fun b => b.1 = d) (get_all_actions db) = filter (fun b => b.1 = d) db.
Proof.
  induction db as [|a db IH]; cbn [get_all_actions foldr]; [done|].
  rewrite days_insert_by_date_filter, !filter_cons.
  fold (get_all_actions db). by rewrite IH.
Qed.

(** [get_all_actions] returns every row of the table once, in
    non-decreasing order of date, the rows of one date in their order of
    insertion. *)
Lemma days_get_all_actions_order db :
  get_all_actions db ≡ₚ db ∧
  StronglySorted date_le (get_all_actions db) ∧
  ∀ d, filter (fun a => a.1 = d) (get_all_actions db) =
       filter (fun a => a.1 = d) db.
Proof.
  split; [apply days_get_all_actions_perm|].
  split; [apply days_get_all_actions_sorted|]. apply days_get_all_actions_filter.
Qed.

Lemma earliest_of_perm db db' s s' :
  db ≡ₚ db' → earliest s db → earliest s' db' → s = s'.
Proof.
  intros Hp He He'. eapply earliest_unique; [|exact He'].
  by eapply earliest_perm.
Qed.

Lemma days_day_step_perm db db' d p :
  db ≡ₚ db' →
  day_step (group_by_date (get_all_actions db)) d p =
  day_step (group_by_date (get_all_actions db')) d p.
Proof.
  intros Hp. unfold day_step. f_equal. apply day_gains_determined.
  - rewrite !by_date_nil. by rewrite Hp.
  - rewrite !count_gainful_by_date. by apply count_if_perm.
  - intros t. rewrite !count_type_by_date. by apply count_if_perm.
Qed.

Lemma walk_phase_perm db db' today :
  db ≡ₚ db' →
  walk_phase (get_all_actions db) today = walk_phase (get_all_actions db') today.
Proof.
  intros Hp. destruct (decide (db = [])) as [->|Hne].
  { apply Permutation_nil in Hp. by subst db'. }
  assert (db' ≠ []) as Hne'.
  { intros ->. apply Hne. by apply Permutation_nil_r. }
  destruct (walk_phase_fold db today Hne) as (s & He & ->).
  destruct (walk_phase_fold db' today Hne') as (s' & He' & ->).
  rewrite <- (earliest_of_perm _ _ _ _ Hp He He').
  apply fold_left_ext_in. intros d p _. by apply days_day_step_perm.
Qed.

(** The full recompute does not depend on the order of the rows of
    the table: two tables with the same rows give the same profile. *)
Lemma days_full_recompute_order_independent db db' today :
  db ≡ₚ db' →
  recompute_profile_from_actions db today =
  recompute_profile_from_actions db' today.
Proof.
  intros Hp. rewrite !recompute_as_decay. rewrite (walk_phase_perm db db') by done.
  apply decay_fold_ext. intros t Ht.
  rewrite !days_last_date_paths_agree by done.
  pose proof (days_last_action_date_for_type_spec db t) as H1.
  pose proof (days_last_action_date_for_type_spec db' t) as H2.
  destruct (last_action_date_for_type db t) as [d1|],
    (last_action_date_for_type db' t) as [d2|].
  - f_equal. eapply latest_unique; [|exact H2]. by eapply latest_perm.
  - destruct H1 as [Hin _]. rewrite Hp in Hin. by apply H2 in Hin.
  - destruct H2 as [Hin _]. rewrite <- Hp in Hin. by apply H1 in Hin.
  - done.
Qed.




(** *** Total experience *)

Lemma bonus_walk_snoc db days d :
  bonus_walk db (days ++ [d]) =
  (streak_rule db (bonus_walk db days).1 d,
   (bonus_walk db days).2 +
   (if decide (d ∈ db.*1)
    then streak_bonus_exp (streak_rule db (bonus_walk db days).1 d) else 0)).
Proof. unfold bonus_walk. by rewrite fold_left_app. Qed.

Lemma day_step_total_exp db d p :
  0 ≤ level p →
  total_exp (day_step (group_by_date (get_all_actions db)) d p) =
  total_exp p +
  10 * count_if (fun a => a.2 ∈ ACTION_TYPES ∧ a.1 = d) db +
  (if decide (d ∈ db.*1) then streak_bonus_exp (streak p + 1) else 0).
Proof.
  intros Hl. unfold day_step, level_up. rewrite level_up_loop_total_exp.
  rewrite <- count_gainful_by_date.
  set (by_date := group_by_date (get_all_actions db)).
  unfold total_exp. rewrite day_gains_level.
  destruct (decide (default [] (by_date !! d) = [])) as [E|E].
  - rewrite day_gains_gap, E by done.
    rewrite decide_False by (by apply by_date_nil).
    change (count_gainful []) with 0. cbn. lia.
  - rewrite day_gains_active by done.
    rewrite decide_True.
    + cbn. lia.
    + destruct (decide (d ∈ db.*1)) as [Hd|Hd]; [done|].
      by apply by_date_nil in Hd.
Qed.

(** The level and the experience of the full recompute are those of
    a total of 10 experience per entry of a gainful type dated today or
    earlier, plus the streak bonus of every logged day of the walk: no
    experience is lost to decay or to a streak reset. *)
Lemma days_full_recompute_total_exp db today :
  total_exp (recompute_profile_from_actions [] today) = 0 ∧
  (db ≠ [] →
   ∃ start, earliest start db ∧
     total_exp (recompute_profile_from_actions db today) =
     10 * count_if (fun a => a.2 ∈ ACTION_TYPES ∧ a.1 ≤ today) db +
     (bonus_walk db (seqZ start (today - start + 1))).2).
Proof.
  split; [reflexivity|]. intros Hne.
  destruct (walk_phase_fold db today Hne) as (start & He & Hw).
  exists start. split; [done|]. destruct He as [Hin Hmin].
  assert (∀ a, a ∈ db → start ≤ a.1) as Hmin'.
  { intros a Ha. apply Hmin. by apply list_elem_of_fmap_2. }
  destruct (days_recompute_walk_fields db today) as (Hl & Hx & _ & _).
  unfold total_exp. rewrite Hl, Hx.
  fold (total_exp (walk_phase (get_all_actions db) today)). rewrite Hw.
  destruct (decide (today < start)) as [Hlt|Hge].
  { rewrite seqZ_nil by lia. cbn [fold_left].
    rewrite count_if_none; [reflexivity|].
    intros a Ha [_ Hle]. specialize (Hmin' a Ha). lia. }
  set (I := fun (d : Z) (p : Profile) =>
      1 ≤ level p ∧
      streak p = (bonus_walk db (seqZ start (d - start))).1 ∧
      total_exp p =
      10 * count_if (fun a => a.2 ∈ ACTION_TYPES ∧ a.1 < d) db +
      (bonus_walk db (seqZ start (d - start))).2).
  replace (today - start + 1) with (Z.of_nat (Z.to_nat (today - start + 1))) by lia.
  assert (I (start + Z.of_nat (Z.to_nat (today - start + 1)))
            (fold_left (fun p d => day_step (group_by_date (get_all_actions db)) d p)
               (seqZ start (Z.of_nat (Z.to_nat (today - start + 1))))
               (zero_profile today))) as (_ & _ & HI).
  { apply fold_days_inv.
    - unfold I. rewrite Z.sub_diag, seqZ_nil by lia.
      rewrite count_if_none.
      + by vm_compute.
      + intros a Ha [_ Hl']. specialize (Hmin' a Ha). lia.
    - unfold I. intros d q Hd (Hlev & Hs & Ht).
      replace (d + 1 - start) with (Z.of_nat (S (Z.to_nat (d - start)))) by lia.
      rewrite seqZ_S, bonus_walk_snoc.
      replace (Z.of_nat (Z.to_nat (d - start))) with (d - start) by lia.
      replace (start + (d - start)) with d by lia.
      cbn [fst snd]. split; [|split].
      + etransitivity; [exact Hlev|]. unfold day_step, level_up.
        etransitivity; [|apply level_up_loop_level_le].
        by rewrite day_gains_level.
      + by rewrite day_step_streak_rule, Hs.
      + rewrite day_step_total_exp by lia. rewrite Ht, <- Hs.
        rewrite (count_if_split
                   (fun a => a.2 ∈ ACTION_TYPES ∧ a.1 < d + 1)
                   (fun a => a.2 ∈ ACTION_TYPES ∧ a.1 < d)
                   (fun a => a.2 ∈ ACTION_TYPES ∧ a.1 = d)).
        * assert (streak_rule db (streak q) d =
                  if decide (d ∈ db.*1) then streak q + 1 else 0) as Hr
            by reflexivity.
          case_decide; rewrite ?Hr; lia.
        * intros a. destruct (decide (a.1 < d)); destruct (decide (a.1 = d));
            intuition lia.
        * intros a. intuition lia. }
  rewrite HI.
  replace (start + Z.of_nat (Z.to_nat (today - start + 1)) - start)
    with (Z.of_nat (Z.to_nat (today - start + 1))) by lia.
  do 2 f_equal. apply count_if_ext. intros a _.
  destruct (decide (a.1 ≤ today)); intuition lia.
Qed.

Lemma days_day_step_streak_consistency by_date d p :
  0 ≤ streak p ∧ 2 * streak p ≤ consistency p →
  0 ≤ streak (day_step by_date d p) ∧
  2 * streak (day_step by_date d p) ≤ consistency (day_step by_date d p).
Proof.
  intros H. rewrite day_step_streak, day_step_consistency.
  destruct (decide (default [] (by_date !! d) = [])); lia.
Qed.

(** After a full recompute the consistency is at least twice the
    streak: every day of the current streak has earned its 2 points of
    consistency, and consistency is never taken back. *)
Lemma days_full_recompute_streak_le_consistency db today :
  let r := recompute_profile_from_actions db today in
  2 * streak r ≤ consistency r.
Proof.
  cbn zeta. destruct (days_recompute_walk_fields db today) as (_ & _ & -> & ->).
  destruct (decide (db = [])) as [->|Hne]; [by vm_compute|].
  destruct (walk_phase_fold db today Hne) as (start & _ & ->).
  apply (fold_left_inv
           (fun p => 0 ≤ streak p ∧ 2 * streak p ≤ consistency p)).
  - intros d p. apply days_day_step_streak_consistency.
  - cbn. lia.
Qed.


End DayLogFacts.

(** * The streak bonus and the level-up loop *)

(** C6.  The streak bonus is 0 for a streak of 1, 5 for a streak from 2 to 4,
    15 for a streak from 5 to 9 and 30 for every streak of 10 or more; from
    30 on it is the same 30 as from 10 to 29. *)
Theorem streak_bonus_exp_table :
  streak_bonus_exp 1 = 0 ∧
  (∀ s, 2 ≤ s ≤ 4 → streak_bonus_exp s = 5) ∧
  (∀ s, 5 ≤ s ≤ 9 → streak_bonus_exp s = 15) ∧
  (∀ s, 10 ≤ s → streak_bonus_exp s = 30) ∧
  (∀ s s', 10 ≤ s ≤ 29 → 30 ≤ s' → streak_bonus_exp s' = streak_bonus_exp s).
Proof.
  unfold streak_bonus_exp.
  repeat split; intros; repeat case_match; lia.
Qed.

Lemma streak_bonus_exp_table_witness :
  streak_bonus_exp 3 = 5 ∧ streak_bonus_exp 7 = 15 ∧ streak_bonus_exp 10 = 30 ∧
  streak_bonus_exp 45 = streak_bonus_exp 12.
Proof.
  destruct streak_bonus_exp_table as (_ & H2 & H5 & H10 & Hplateau).
  split; [apply H2; lia|]. split; [apply H5; lia|].
  split; [apply H10; lia|]. apply Hplateau; lia.
Defined.


(** X22.  From a non-negative level and experience the level-up loop ends
    with the experience within the requirement of the level reached, never
    lowers the level, conserves the total experience (the experience held
    plus the requirements of the levels passed), touches nothing else, and
    does nothing when the experience is already below the requirement. *)
Theorem level_up_spec p :
  0 ≤ level p → 0 ≤ exp p →
  let q := level_up p in
  level p ≤ level q ∧ 0 ≤ exp q ∧ exp q < need_exp_for_next (level q) ∧
  total_exp q = total_exp p ∧ same_stats q p ∧
  (exp p < need_exp_for_next (level p) → q = p).
Proof.
  intros Hl He q. subst q. split; [apply level_up_loop_level_le|].
  split; [by apply level_up_loop_exp_nonneg|].
  split; [by apply level_up_normalized|].
  split; [apply level_up_loop_total_exp|].
  split; [apply level_up_same_stats|]. apply level_up_idem.
Qed.

Lemma level_up_spec_witness :
  total_exp (level_up (mkProfile 1 400 0 0 0 0 0 0 0 0)) =
  total_exp (mkProfile 1 400 0 0 0 0 0 0 0 0) ∧
  exp (level_up (mkProfile 1 400 0 0 0 0 0 0 0 0)) <
  need_exp_for_next (level (level_up (mkProfile 1 400 0 0 0 0 0 0 0 0))).
Proof.
  destruct (level_up_spec (mkProfile 1 400 0 0 0 0 0 0 0 0))
    as (_ & _ & Hn & Ht & _); [cbn; lia|cbn; lia|].
  split; [exact Ht|exact Hn].
Defined.

(** X23.  The streak bonus never decreases as the streak grows, is never
    negative and never exceeds 30. *)
Theorem streak_bonus_exp_monotone s s' :
  s ≤ s' →
  streak_bonus_exp s ≤ streak_bonus_exp s' ∧ 0 ≤ streak_bonus_exp s ≤ 30.
Proof.
  intros Hle. unfold streak_bonus_exp. repeat case_match; lia.
Qed.

Lemma streak_bonus_exp_monotone_witness :
  streak_bonus_exp 4 ≤ streak_bonus_exp 12.
Proof. apply (streak_bonus_exp_monotone 4 12). lia. Defined.

(** * Classification *)

(** ** The ranking *)

Lemma insert_desc_perm x l : insert_desc x l ≡ₚ x :: l.
Proof.
  induction l as [|y l IH]; cbn; [done|].
  case_match; [|done]. rewrite IH. apply Permutation_swap.
Qed.

Lemma sorted_desc_perm l : sorted_desc l ≡ₚ l.
Proof.
  induction l as [|x l IH]; cbn; [done|].
  rewrite insert_desc_perm. by rewrite IH.
Qed.

Lemma insert_desc_sorted x l :
  StronglySorted ranks_before l → Forall (key_before x) l →
  StronglySorted ranks_before (insert_desc x l).
Proof.
  induction 1 as [|y l Hs IH Hy]; intros Hx; cbn; [repeat constructor|].
  apply Forall_cons in Hx as [Hxy Hx].
  case_match eqn:E.
  - apply Z.ltb_lt in E. constructor; [by apply IH|].
    rewrite insert_desc_perm. constructor; [|done]. by left.
  - apply Z.ltb_ge in E. constructor; [by constructor|].
    constructor.
    + destruct (decide (y.2 = x.2)) as [Heq|Hne]; [by right|left; lia].
    + rewrite Forall_forall in Hy, Hx. apply Forall_forall. intros z Hz.
      specialize (Hy z Hz). specialize (Hx z Hz).
      unfold ranks_before, key_before in *.
      destruct (decide (z.2 = x.2)) as [Heq|Hne]; [by right|left; lia].
Qed.

(** The stable descending sort ranks by value, ties in the order of the
    input. *)
Lemma sorted_desc_sorted l :
  StronglySorted key_before l → StronglySorted ranks_before (sorted_desc l).
Proof.
  induction 1 as [|x l Hs IH Hx]; cbn; [constructor|].
  apply insert_desc_sorted; [done|]. by rewrite sorted_desc_perm.
Qed.

Lemma stats_items_key_sorted p : StronglySorted key_before (stats_items p).
Proof.
  unfold stats_items, STAT_KEYS. cbn [fmap list_fmap].
  repeat match goal with
         | |- StronglySorted _ _ => constructor
         | |- Forall _ _ => constructor
         | |- key_before _ _ => unfold key_before; cbn [fst]; vm_compute; lia
         end.
Qed.

Lemma ranked_sorted p : StronglySorted ranks_before (sorted_desc (stats_items p)).
Proof. apply sorted_desc_sorted, stats_items_key_sorted. Qed.

Lemma elem_of_stats_items p k v :
  (k, v) ∈ stats_items p ↔ k ∈ STAT_KEYS ∧ v = stat_get p k.
Proof.
  unfold stats_items. rewrite list_elem_of_fmap. split.
  - intros (k' & Heq & Hk'). by injection Heq as -> ->.
  - intros [Hk ->]. by exists k.
Qed.

Lemma elem_of_ranked p k v :
  (k, v) ∈ sorted_desc (stats_items p) ↔ k ∈ STAT_KEYS ∧ v = stat_get p k.
Proof. by rewrite sorted_desc_perm, elem_of_stats_items. Qed.

Lemma ranked_length p : length (sorted_desc (stats_items p)) = 6%nat.
Proof. by rewrite sorted_desc_perm. Qed.

Lemma key_rank_inj k1 k2 :
  k1 ∈ STAT_KEYS → k2 ∈ STAT_KEYS → key_rank k1 = key_rank k2 → k1 = k2.
Proof.
  unfold STAT_KEYS. intros H1 H2.
  elem_cases H1; elem_cases H2; subst; cbn; intros H; done.
Qed.

(** The label table is injective. *)
Lemma CLASS_LABEL_lookup k l :
  CLASS_LABEL !! k = Some l ↔
  (k, l) ∈ [("strength", "보디빌더"); ("stamina", "러너"); ("intelligence", "학자");
            ("wealth", "재력가"); ("discipline", "현자"); ("consistency", "맑은눈")]%string.
Proof.
  unfold CLASS_LABEL. rewrite <- elem_of_list_to_map; [reflexivity|].
  apply NoDup_ListNoDup. cbn.
  repeat (constructor; [simpl; intuition discriminate|]). constructor.
Qed.

Lemma CLASS_LABEL_inj k1 k2 l :
  CLASS_LABEL !! k1 = Some l → CLASS_LABEL !! k2 = Some l → k1 = k2.
Proof.
  rewrite !CLASS_LABEL_lookup. intros H1 H2.
  elem_cases H1; elem_cases H2; inversion H1; inversion H2; subst;
    first [reflexivity | discriminate].
Qed.

Lemma CLASS_LABEL_is_Some k : k ∈ STAT_KEYS → is_Some (CLASS_LABEL !! k).
Proof.
  unfold STAT_KEYS. intros Hk. elem_cases Hk; subst k; eexists; reflexivity.
Qed.

(** ** The float operations do not overflow on 63-bit stats *)

Lemma digits2_pos_lt p : Z.pos p < 2 ^ Z.pos (digits2_pos p).
Proof.
  induction p as [p IH|p IH|]; cbn [digits2_pos]; [| |done];
    rewrite Pos2Z.inj_succ, Z.pow_succ_r by lia; lia.
Qed.

Lemma digits2_pos_le p k : 0 ≤ k → Z.pos p < 2 ^ k → Z.pos (digits2_pos p) ≤ k.
Proof.
  revert k. induction p as [p IH|p IH|]; intros k Hk Hlt; cbn [digits2_pos].
  - destruct (decide (k = 0)) as [->|Hne]; [cbn in Hlt; lia|].
    rewrite Pos2Z.inj_succ. specialize (IH (k - 1)).
    replace k with (Z.succ (k - 1)) in Hlt by lia.
    rewrite Z.pow_succ_r in Hlt by lia. lia.
  - destruct (decide (k = 0)) as [->|Hne]; [cbn in Hlt; lia|].
    rewrite Pos2Z.inj_succ. specialize (IH (k - 1)).
    replace k with (Z.succ (k - 1)) in Hlt by lia.
    rewrite Z.pow_succ_r in Hlt by lia. lia.
  - destruct (decide (k = 0)) as [->|Hne]; [cbn in Hlt; lia|lia].
Qed.

Lemma Zdigits2_nonneg m : 0 ≤ Zdigits2 m.
Proof. by destruct m. Qed.

Lemma Zdigits2_succ_le m : 0 ≤ m → Zdigits2 (m + 1) ≤ Zdigits2 m + 1.
Proof.
  intros Hm. destruct m as [|p|p]; [done| |lia].
  change (Z.pos p + 1) with (Z.pos (p + 1)). cbn [Zdigits2].
  apply digits2_pos_le; [lia|].
  pose proof (digits2_pos_lt p). rewrite Z.pow_add_r by lia.
  change (2 ^ 1) with 2. lia.
Qed.

Lemma digits2_pos_mul p q :
  Z.pos (digits2_pos (p * q)) ≤ Z.pos (digits2_pos p) + Z.pos (digits2_pos q).
Proof.
  apply digits2_pos_le; [lia|].
  pose proof (digits2_pos_lt p). pose proof (digits2_pos_lt q).
  rewrite Z.pow_add_r by lia. rewrite Pos2Z.inj_mul. nia.
Qed.

Lemma digits2_pos_iter_xO p k :
  Z.pos (digits2_pos (Pos.iter xO p k)) = Z.pos (digits2_pos p) + Z.pos k.
Proof.
  induction k as [|k IH] using Pos.peano_ind.
  - cbn. lia.
  - rewrite Pos.iter_succ. cbn [digits2_pos]. lia.
Qed.

Lemma shr_1_bounded D mrs : shr_bounded D mrs → shr_bounded D (shr_1 mrs).
Proof.
  destruct mrs as [m r s]. unfold shr_bounded. cbn [shr_m].
  intros [Hm Hd]. destruct m as [|[p|p|]|p]; cbn in *; try lia.
Qed.

Lemma iter_pos_inv {A} (f : A → A) (P : A → Prop) :
  (∀ x, P x → P (f x)) → ∀ n x, P x → P (SpecFloat.iter_pos f n x).
Proof.
  intros Hf. induction n as [n IH|n IH|]; intros x Hx; cbn; auto.
Qed.

Lemma shr_record_of_loc_m m l : shr_m (shr_record_of_loc m l) = m.
Proof. by destruct l as [|[| |]]. Qed.

Lemma fexp_mono x y :
  x ≤ y → fexp binary64_prec binary64_emax x ≤ fexp binary64_prec binary64_emax y.
Proof. unfold fexp. lia. Qed.

Lemma shr_fexp_bounded m e l D :
  0 ≤ m → Zdigits2 m ≤ D →
  shr_bounded D (shr_fexp binary64_prec binary64_emax m e l).1 ∧
  (shr_fexp binary64_prec binary64_emax m e l).2 ≤
    Z.max e (fexp binary64_prec binary64_emax (D + e)).
Proof.
  intros Hm Hd. unfold shr_fexp, shr.
  pose proof (fexp_mono (Zdigits2 m + e) (D + e)) as Hmono.
  assert (shr_bounded D (shr_record_of_loc m l)) as Hb.
  { unfold shr_bounded. by rewrite shr_record_of_loc_m. }
  destruct (fexp binary64_prec binary64_emax (Zdigits2 m + e) - e) as [|n|n] eqn:E;
    cbn [fst snd]; (split; [|lia]); try done.
  apply iter_pos_inv; [apply shr_1_bounded|done].
Qed.

Lemma round_nearest_even_bounded m l D :
  0 ≤ m → Zdigits2 m ≤ D →
  0 ≤ round_nearest_even m l ∧ Zdigits2 (round_nearest_even m l) ≤ D + 1.
Proof.
  intros Hm Hd. pose proof (Zdigits2_succ_le m Hm).
  unfold round_nearest_even. destruct l as [|[| |]]; try case_match; lia.
Qed.

Lemma binary_round_aux_bounded sx mx ex lx D E :
  0 ≤ mx → Zdigits2 mx ≤ D → ex ≤ E → 0 ≤ D ≤ 200 → -900 ≤ E ≤ 100 →
  float_bounded (D + 1) (Z.max E (D + 1 + Z.max E (D + E - 53) - 53))
    (binary_round_aux binary64_prec binary64_emax sx mx ex lx).
Proof.
  intros Hm Hd He HD HE. unfold binary_round_aux.
  destruct (shr_fexp_bounded mx ex lx D Hm Hd) as [[Hm1 Hd1] He1].
  destruct (shr_fexp binary64_prec binary64_emax mx ex lx) as [mrs' e'].
  cbn [fst snd] in *.
  destruct (round_nearest_even_bounded (shr_m mrs') (loc_of_shr_record mrs') D
              Hm1 Hd1) as [Hm2 Hd2].
  destruct (shr_fexp_bounded _ e' loc_Exact (D + 1) Hm2 Hd2) as [[Hm3 Hd3] He3].
  destruct (shr_fexp binary64_prec binary64_emax
              (round_nearest_even (shr_m mrs') (loc_of_shr_record mrs')) e'
              loc_Exact) as [mrs'' e''].
  cbn [fst snd] in *.
  unfold fexp, emin, binary64_prec, binary64_emax in *.
  destruct (shr_m mrs'') as [|m|m]; [done| |lia].
  cbn [Zdigits2] in Hd3.
  replace (e'' <=? 1024 - 53) with true by (symmetry; apply Z.leb_le; lia).
  cbn. lia.
Qed.

Lemma float_of_int_bounded v :
  0 < v < 2 ^ 63 →
  ∃ f, float_of_int v = Some f ∧ float_bounded 64 21 f.
Proof.
  intros Hv. unfold float_of_int.
  assert (float_bounded 64 21
            (binary_normalize binary64_prec binary64_emax v 0 false)) as Hb.
  { destruct v as [|p|p]; [lia| |lia]. cbn [binary_normalize]. unfold binary_round.
    assert (Z.pos (digits2_pos p) ≤ 63) as Hd by (apply digits2_pos_le; lia).
    unfold shl_align.
    destruct (fexp binary64_prec binary64_emax (Z.pos (digits2_pos p) + 0) - 0)
      as [|k|k] eqn:Ek.
    - eapply (binary_round_aux_bounded _ _ _ _ 63 0); cbn [Zdigits2]; lia.
    - eapply (binary_round_aux_bounded _ _ _ _ 63 0); cbn [Zdigits2]; lia.
    - unfold fexp, emin, binary64_prec, binary64_emax in *.
      pose proof (digits2_pos_iter_xO p k) as Hk.
      pose proof (binary_round_aux_bounded false (Z.pos (Pos.iter xO p k))
                    (Z.max (Z.pos (digits2_pos p) + 0 - 53) (3 - 1024 - 53))
                    loc_Exact 63 0) as Hr.
      cbn [Zdigits2] in Hr.
      unfold fexp, emin, binary64_prec, binary64_emax in *.
      apply Hr; lia. }
  destruct (binary_normalize binary64_prec binary64_emax v 0 false) as [s|s| |s m e];
    try done; eexists; split; try done.
Qed.

Lemma int_of_float_bounded D E f : float_bounded D E f → is_Some (int_of_float f).
Proof. destruct f; cbn; [by eexists|done|done|by eexists]. Qed.

(** [int(v * 0.7)] does not raise on a positive 63-bit integer, the range of
    an SQLite INTEGER column. *)
Lemma int_mul_0_7_total v : 0 < v < 2 ^ 63 → is_Some (int_mul_0_7 v).
Proof.
  intros Hv. unfold int_mul_0_7.
  destruct (float_of_int_bounded v Hv) as (f & -> & Hf). cbn [mbind option_bind].
  unfold float_mul, FLOAT_0_7. destruct f as [s|s| |s m e]; try done.
  destruct Hf as [Hd He]. cbn [SFmul].
    eapply (int_of_float_bounded _ _).
    apply (binary_round_aux_bounded _ _ _ _ 117 (-32)); cbn [Zdigits2]; try lia.
    pose proof (digits2_pos_mul m 6305039478318694) as Hmul.
    change (Z.pos (digits2_pos 6305039478318694)) with 53 in Hmul. lia.
Qed.

(** ** The result *)

(** What a returned classification holds. *)
Lemma compute_class_and_traits_Some p c :
  compute_class_and_traits p = Some c →
  ∃ top1 v1 top2 v2 top3 v3 rest,
    sorted_desc (stats_items p) =
      (top1, v1) :: (top2, v2) :: (top3, v3) :: rest ∧
    sorted_stats c = sorted_desc (stats_items p) ∧
    CLASS_LABEL !! top1 = Some (base_class c) ∧
    (0 < v1 → ∃ n, int_mul_0_7 v1 = Some n ∧
                   trait c = if decide (n ≤ v2) then CLASS_LABEL !! top2 else None) ∧
    (v1 ≤ 0 → trait c = None) ∧
    title c = if decide (v1 - v3 ≤ 10 ∧ 0 < v1) then Some "맑은눈(확장형)"%string else None.
Proof.
  unfold compute_class_and_traits. intros H.
  destruct (sorted_desc (stats_items p)) as [|[top1 v1] [|[top2 v2] [|[top3 v3] rest]]];
    try discriminate H.
  cbn -[CLASS_LABEL int_mul_0_7] in H.
  destruct (CLASS_LABEL !! top1) as [base|] eqn:Eb; [|discriminate H].
  cbn -[CLASS_LABEL int_mul_0_7] in H.
  exists top1, v1, top2, v2, top3, v3, rest.
  assert ((if decide (v1 - v3 ≤ 10 ∧ 0 < v1) then Some "맑은눈(확장형)"%string else None)
          = (if (v1 - v3 <=? 10) && (0 <? v1) then Some "맑은눈(확장형)"%string else None))
    as Htitle.
  { destruct (v1 - v3 <=? 10) eqn:E1; destruct (0 <? v1) eqn:E2; cbn;
      [apply Z.leb_le in E1; apply Z.ltb_lt in E2; by rewrite decide_True
      |apply Z.ltb_ge in E2; rewrite decide_False; [done|lia]
      |apply Z.leb_gt in E1; rewrite decide_False; [done|lia]
      |apply Z.leb_gt in E1; rewrite decide_False; [done|lia]]. }
  destruct (0 <? v1) eqn:Ev.
  - apply Z.ltb_lt in Ev.
    destruct (int_mul_0_7 v1) as [n|]; [|discriminate H].
    cbn -[CLASS_LABEL] in H. destruct (n <=? v2) eqn:En.
    + apply Z.leb_le in En.
      destruct (CLASS_LABEL !! top2) as [l2|] eqn:E2; [|discriminate H].
      cbn in H. injection H as <-. cbn.
      repeat split; try done; try lia.
      intros _. exists n. split; [done|]. by rewrite decide_True.
    + apply Z.leb_gt in En. cbn in H. injection H as <-. cbn.
      repeat split; try done; try lia.
      intros _. exists n. split; [done|]. rewrite decide_False; [done|lia].
  - apply Z.ltb_ge in Ev. cbn in H. injection H as <-. cbn.
    repeat split; try done. lia.
Qed.

(** The classification raises only when [int(v1 * 0.7)] does. *)
Lemma compute_class_and_traits_returns p :
  (∀ k, k ∈ STAT_KEYS → 0 < stat_get p k → is_Some (int_mul_0_7 (stat_get p k))) →
  is_Some (compute_class_and_traits p).
Proof.
  intros Hfloat. unfold compute_class_and_traits.
  pose proof (ranked_length p) as Hlen.
  pose proof (elem_of_ranked p) as Hin.
  destruct (sorted_desc (stats_items p))
    as [|[top1 v1] [|[top2 v2] [|[top3 v3] rest]]]; try discriminate Hlen.
  destruct (proj1 (Hin top1 v1)) as [Hk1 Hv1]; [left|].
  destruct (proj1 (Hin top2 v2)) as [Hk2 Hv2]; [right; left|].
  cbn -[CLASS_LABEL int_mul_0_7].
  destruct (CLASS_LABEL_is_Some top1 Hk1) as [l1 ->].
  destruct (CLASS_LABEL_is_Some top2 Hk2) as [l2 El2].
  cbn -[CLASS_LABEL int_mul_0_7].
  destruct (0 <? v1) eqn:Ev; [|by eexists].
  apply Z.ltb_lt in Ev. destruct (Hfloat top1 Hk1) as [n Hn]; [lia|].
  rewrite <- Hv1 in Hn. rewrite Hn. cbn -[CLASS_LABEL].
  destruct (n <=? v2); [|by eexists]. rewrite El2. by eexists.
Qed.

(** The classification returns on every profile whose stats fit an SQLite
    INTEGER column. *)
Lemma compute_class_and_traits_total p :
  (∀ k, k ∈ STAT_KEYS → stat_get p k < 2 ^ 63) →
  is_Some (compute_class_and_traits p).
Proof.
  intros Hb. apply compute_class_and_traits_returns.
  intros k Hk Hpos. apply int_mul_0_7_total. split; [done|by apply Hb].
Qed.

(** The head of the ranking is the first key of [STAT_KEYS] among those of
    greatest value. *)
Lemma ranked_head p top v rest :
  sorted_desc (stats_items p) = (top, v) :: rest →
  top ∈ STAT_KEYS ∧ v = stat_get p top ∧
  (∀ k, k ∈ STAT_KEYS → stat_get p k ≤ v) ∧
  (∀ k, k ∈ STAT_KEYS → stat_get p k = v → (key_rank top ≤ key_rank k)%nat).
Proof.
  intros E. pose proof (ranked_sorted p) as Hs. pose proof (elem_of_ranked p) as Hin.
  rewrite E in Hs, Hin. apply StronglySorted_inv in Hs as [_ Hhd].
  rewrite Forall_forall in Hhd.
  destruct (proj1 (Hin top v)) as [Hk Hv]; [left|].
  assert (∀ k, k ∈ STAT_KEYS →
            stat_get p k < v ∨
            (stat_get p k = v ∧ (key_rank top ≤ key_rank k)%nat)) as Hall.
  { intros k Hk'.
    assert ((k, stat_get p k) ∈ (top, v) :: rest) as Hmem by by apply Hin.
    apply elem_of_cons in Hmem as [Heq|Hmem].
    - injection Heq as -> ->. right. split; [done|lia].
    - destruct (Hhd _ Hmem) as [Hlt|[Heq Hlt]]; cbn in *; [by left|].
      right. split; [done|lia]. }
  split; [done|]. split; [done|]. split.
  - intros k Hk'. destruct (Hall k Hk') as [?|[? _]]; lia.
  - intros k Hk' Heq. destruct (Hall k Hk') as [?|[_ ?]]; [lia|done].
Qed.

(** C7.  The classification ranks the six stats in descending order of
    value, equal values in the order of [STAT_KEYS]: the ranking is a
    permutation of the six (key, value) pairs in which every pair is ranked
    before the ones that follow it.  The base class is the label of the
    head of the ranking, the first key of [STAT_KEYS] among those of greatest
    value; so, of two stats with equal values, the one that comes later in
    [STAT_KEYS] never gives the base class.  The classification returns on
    every profile whose stats are below [2 ^ 63]. *)
Theorem classification_tie_break p :
  ((∀ k, k ∈ STAT_KEYS → stat_get p k < 2 ^ 63) →
   is_Some (compute_class_and_traits p)) ∧
  ∀ c,
  compute_class_and_traits p = Some c →
  sorted_stats c ≡ₚ stats_items p ∧
  StronglySorted ranks_before (sorted_stats c) ∧
  (∃ top v,
     sorted_stats c !! 0%nat = Some (top, v) ∧
     CLASS_LABEL !! top = Some (base_class c) ∧
     top ∈ STAT_KEYS ∧ v = stat_get p top ∧
     (∀ k, k ∈ STAT_KEYS → stat_get p k ≤ v) ∧
     (∀ k, k ∈ STAT_KEYS → stat_get p k = v → (key_rank top ≤ key_rank k)%nat)) ∧
  (∀ k1 k2, k1 ∈ STAT_KEYS → k2 ∈ STAT_KEYS →
     (key_rank k1 < key_rank k2)%nat → stat_get p k1 = stat_get p k2 →
     CLASS_LABEL !! k2 ≠ Some (base_class c)).
Proof.
  split; [apply compute_class_and_traits_total|]. intros c Hc.
  destruct (compute_class_and_traits_Some p c Hc)
    as (top1 & v1 & top2 & v2 & top3 & v3 & rest & E & Hs & Hb & _).
  destruct (ranked_head p top1 v1 _ E) as (Hk & Hv & Hmax & Hfirst).
  split; [rewrite Hs; apply sorted_desc_perm|].
  split; [rewrite Hs; apply ranked_sorted|].
  split.
  - exists top1, v1. rewrite Hs, E. by repeat split.
  - intros k1 k2 Hk1 Hk2 Hlt Heq Hl.
    assert (k2 = top1) as -> by by eapply CLASS_LABEL_inj.
    assert (key_rank top1 ≤ key_rank k1)%nat; [|lia].
    apply Hfirst; [done|]. by rewrite Heq.
Qed.

Lemma classification_tie_break_witness :
  is_Some (compute_class_and_traits (mkProfile 1 0 7 10 0 0 0 10 0 0)) ∧
  CLASS_LABEL !! "consistency"%string ≠ Some "러너"%string.
Proof.
  destruct (classification_tie_break (mkProfile 1 0 7 10 0 0 0 10 0 0))
    as [Hret Hres].
  split; [apply Hret; stats_below|].
  apply (proj2 (proj2 (proj2
    (Hres
       (mkClassification "러너" (Some "맑은눈") (Some "맑은눈(확장형)")
          [("stamina", 10); ("consistency", 10); ("strength", 7);
           ("intelligence", 0); ("wealth", 0); ("discipline", 0)])%string
       eq_refl))) "stamina"%string "consistency"%string).
  - elem_solve.
  - elem_solve.
  - vm_compute. lia.
  - reflexivity.
Defined.

(** The two keys at the head of the ranking are different stats. *)
Lemma ranked_top_two_distinct p top1 v1 top2 v2 rest :
  sorted_desc (stats_items p) = (top1, v1) :: (top2, v2) :: rest →
  top1 ≠ top2 ∧ top2 ∈ STAT_KEYS.
Proof.
  intros E. pose proof (ranked_sorted p) as Hs. pose proof (elem_of_ranked p) as Hin.
  rewrite E in Hs, Hin. apply StronglySorted_inv in Hs as [_ Hhd].
  apply Forall_cons in Hhd as [Hhd _].
  destruct (proj1 (Hin top1 v1)) as [_ Hv1]; [left|].
  destruct (proj1 (Hin top2 v2)) as [Hk2 Hv2]; [right; left|].
  split; [|done]. intros ->. unfold ranks_before in Hhd. cbn in Hhd. lia.
Qed.



(** C10.  A secondary trait, when there is one, is never the label of the
    base class: the two labels belong to the first two keys of the ranking,
    which are different stats, and the label table is injective.  The
    classification returns on every profile whose stats are below
    [2 ^ 63]. *)
Theorem trait_differs_from_base_class p :
  ((∀ k, k ∈ STAT_KEYS → stat_get p k < 2 ^ 63) →
   is_Some (compute_class_and_traits p)) ∧
  ∀ c t,
  compute_class_and_traits p = Some c → trait c = Some t → t ≠ base_class c.
Proof.
  split; [apply compute_class_and_traits_total|]. intros c t Hc Ht.
  destruct (compute_class_and_traits_Some p c Hc)
    as (top1 & v1 & top2 & v2 & top3 & v3 & rest & E & Hs & Hb & Hpos & Hneg & _).
  destruct (ranked_top_two_distinct p _ _ _ _ _ E) as [Hne _].
  destruct (decide (0 < v1)) as [Hv|Hv].
  - destruct (Hpos Hv) as (n & _ & Htr). rewrite Ht in Htr.
    case_decide; [|discriminate Htr].
    intros ->. apply Hne. by eapply CLASS_LABEL_inj.
  - rewrite Hneg in Ht by lia. discriminate Ht.
Qed.

Lemma trait_differs_from_base_class_witness :
  is_Some (compute_class_and_traits (mkProfile 1 0 7 10 0 0 0 0 0 0)) ∧
  "보디빌더"%string ≠ "러너"%string.
Proof.
  destruct (trait_differs_from_base_class (mkProfile 1 0 7 10 0 0 0 0 0 0))
    as [Hret Hres].
  split; [apply Hret; stats_below|].
  apply (Hres
           (mkClassification "러너" (Some "보디빌더") (Some "맑은눈(확장형)")
              [("stamina", 10); ("strength", 7); ("intelligence", 0);
               ("wealth", 0); ("discipline", 0); ("consistency", 0)])%string
           "보디빌더"%string eq_refl eq_refl).
Defined.

(** ** Layer flags and title *)

Lemma flags_fold_spec (f20 f50 : string → bool) :
  let m :=
    fold_left
      (fun (flags : gmap string bool) k =>
         <[(k ++ "_50")%string := f50 k]> (<[(k ++ "_20")%string := f20 k]> flags))
      STAT_KEYS ∅ in
  size m = 12%nat ∧
  ∀ k, k ∈ STAT_KEYS →
    m !! (k ++ "_20")%string = Some (f20 k) ∧
    m !! (k ++ "_50")%string = Some (f50 k).
Proof.
  cbn zeta. split; [by vm_compute|].
  intros k Hk. unfold STAT_KEYS in Hk.
  elem_cases Hk; subst k; split; by vm_compute.
Qed.

(** X16.  [layer_flags] returns twelve flags, two per stat key, none
    overwritten by another: the flag [k_20] tells whether [p[k] >= 20], the
    flag [k_50] whether [p[k] >= 50]; a [k_50] flag is never set without
    [k_20]. *)
Theorem layer_flags_spec p :
  size (layer_flags p) = 12%nat ∧
  ∀ k, k ∈ STAT_KEYS →
    layer_flags p !! (k ++ "_20")%string = Some (20 <=? stat_get p k) ∧
    layer_flags p !! (k ++ "_50")%string = Some (50 <=? stat_get p k) ∧
    (layer_flags p !! (k ++ "_50")%string = Some true →
     layer_flags p !! (k ++ "_20")%string = Some true).
Proof.
  destruct (flags_fold_spec (fun k => 20 <=? stat_get p k)
              (fun k => 50 <=? stat_get p k)) as [Hsize Hlook].
  assert (∀ k, k ∈ STAT_KEYS →
            layer_flags p !! (k ++ "_20")%string = Some (20 <=? stat_get p k) ∧
            layer_flags p !! (k ++ "_50")%string = Some (50 <=? stat_get p k))
    as Hflags by exact Hlook.
  split; [exact Hsize|]. intros k Hk. destruct (Hflags k Hk) as [H20 H50].
  split; [exact H20|]. split; [exact H50|].
  rewrite H20, H50. intros H. injection H as H. f_equal.
  apply Z.leb_le in H. apply Z.leb_le. lia.
Qed.



(** X18.  On a profile with no positive stat, a fresh one for instance, the
    classification returns without touching a float, with no trait and no
    title; and when the six stats are equal the base class is the label of
    [strength], the first key. *)
Theorem classification_without_positive_stat p :
  (∀ k, k ∈ STAT_KEYS → stat_get p k ≤ 0) →
  ∃ c, compute_class_and_traits p = Some c ∧
       trait c = None ∧ title c = None ∧
       ((∀ k, k ∈ STAT_KEYS → stat_get p k = stat_get p "strength") →
        base_class c = "보디빌더"%string).
Proof.
  intros Hnp.
  destruct (compute_class_and_traits_returns p) as [c Hc].
  { intros k Hk Hpos. specialize (Hnp k Hk). lia. }
  exists c. split; [done|].
  destruct (compute_class_and_traits_Some p c Hc)
    as (top1 & v1 & top2 & v2 & top3 & v3 & rest & E & Hs & Hb & _ & Hneg & Ht).
  destruct (ranked_head p top1 v1 _ E) as (Hk & Hv & Hmax & Hfirst).
  assert (v1 ≤ 0) as Hv1 by (rewrite Hv; by apply Hnp).
  split; [by apply Hneg|]. split.
  - rewrite Ht. rewrite decide_False; [done|lia].
  - intros Heq.
    assert (top1 = "strength"%string) as ->.
    { apply key_rank_inj; [done|elem_solve|].
      assert (key_rank top1 ≤ key_rank "strength")%nat as Hle.
      { apply Hfirst; [elem_solve|]. rewrite Hv. symmetry. by apply Heq. }
      change (key_rank "strength") with 0%nat in *. lia. }
    change (CLASS_LABEL !! "strength"%string) with (Some "보디빌더"%string) in Hb.
    by injection Hb.
Qed.

Lemma classification_without_positive_stat_witness :
  ∃ c, compute_class_and_traits (zero_profile 0) = Some c ∧
       trait c = None ∧ title c = None ∧
       ((∀ k, k ∈ STAT_KEYS →
           stat_get (zero_profile 0) k = stat_get (zero_profile 0) "strength") →
        base_class c = "보디빌더"%string).
Proof.
  apply (classification_without_positive_stat (zero_profile 0)).
  intros k Hk. unfold STAT_KEYS in Hk. elem_cases Hk; subst k; by vm_compute.
Defined.

(** * The engine on the stored table *)

(** ** The order of date texts *)

Lemma leb_refl s : String.leb s s = true.
Proof. apply Is_true_true. apply (reflexivity (R := String.le)). Qed.

Lemma leb_trans s1 s2 s3 :
  String.leb s1 s2 = true → String.leb s2 s3 = true → String.leb s1 s3 = true.
Proof.
  intros H1 H2. apply Is_true_true.
  apply (transitivity (R := String.le) (y := s2)); by apply Is_true_true.
Qed.

Lemma leb_false s1 s2 : String.leb s1 s2 = false → String.leb s2 s1 = true.
Proof. intros H. destruct (String.leb_total s1 s2) as [H'|H']; congruence. Qed.

Lemma text_max_spec s1 s2 :
  (text_max s1 s2 = s1 ∨ text_max s1 s2 = s2) ∧
  String.leb s1 (text_max s1 s2) = true ∧ String.leb s2 (text_max s1 s2) = true.
Proof.
  unfold text_max. destruct (String.leb s1 s2) eqn:E.
  - split; [by right|]. split; [done|apply leb_refl].
  - split; [by left|]. split; [apply leb_refl|by apply leb_false].
Qed.

Lemma text_min_spec s1 s2 :
  (text_min s1 s2 = s1 ∨ text_min s1 s2 = s2) ∧
  String.leb (text_min s1 s2) s1 = true ∧ String.leb (text_min s1 s2) s2 = true.
Proof.
  unfold text_min. destruct (String.leb s1 s2) eqn:E.
  - split; [by left|]. split; [apply leb_refl|done].
  - split; [by right|]. split; [by apply leb_false|apply leb_refl].
Qed.

Lemma foldr_text_max_spec k ks :
  foldr text_max k ks ∈ k :: ks ∧
  ∀ x, x ∈ k :: ks → String.leb x (foldr text_max k ks) = true.
Proof.
  induction ks as [|y ks [IHin IHle]]; cbn [foldr].
  - split; [left|]. intros x Hx. apply list_elem_of_singleton in Hx as ->.
    apply leb_refl.
  - destruct (text_max_spec y (foldr text_max k ks)) as (Hor & Hy & Hr). split.
    + destruct Hor as [->| ->]; [right; left|].
      apply elem_of_cons in IHin as [->|?]; [left|by do 2 right].
    + intros x Hx.
      assert (x = y ∨ x ∈ k :: ks) as [->|Hx'].
      { apply elem_of_cons in Hx as [->|Hx]; [right; left|].
        apply elem_of_cons in Hx as [->|Hx]; [by left|by right; right]. }
      * done.
      * eapply leb_trans; [by apply IHle|done].
Qed.

Lemma foldr_text_min_spec k ks :
  foldr text_min k ks ∈ k :: ks ∧
  ∀ x, x ∈ k :: ks → String.leb (foldr text_min k ks) x = true.
Proof.
  induction ks as [|y ks [IHin IHle]]; cbn [foldr].
  - split; [left|]. intros x Hx. apply list_elem_of_singleton in Hx as ->.
    apply leb_refl.
  - destruct (text_min_spec y (foldr text_min k ks)) as (Hor & Hy & Hr). split.
    + destruct Hor as [->| ->]; [right; left|].
      apply elem_of_cons in IHin as [->|?]; [left|by do 2 right].
    + intros x Hx.
      assert (x = y ∨ x ∈ k :: ks) as [->|Hx'].
      { apply elem_of_cons in Hx as [->|Hx]; [right; left|].
        apply elem_of_cons in Hx as [->|Hx]; [by left|by right; right]. }
      * done.
      * eapply leb_trans; [done|by apply IHle].
Qed.

(** ** The table in the order of the query *)

Lemma insert_by_date_perm a l : insert_by_date a l ≡ₚ a :: l.
Proof.
  induction l as [|b l IH]; cbn; [done|].
  case_match; [done|]. rewrite IH. apply Permutation_swap.
Qed.

Lemma get_all_actions_perm db : get_all_actions db ≡ₚ db.
Proof.
  induction db as [|a db IH]; cbn; [done|].
  rewrite insert_by_date_perm. by rewrite IH.
Qed.

Lemma text_le_leb a b : text_le a b ↔ String.leb a.1 b.1 = true.
Proof. done. Qed.

Lemma insert_by_date_sorted a l :
  StronglySorted text_le l → StronglySorted text_le (insert_by_date a l).
Proof.
  induction 1 as [|b l Hs IH Hb]; cbn; [repeat constructor|].
  case_match eqn:E.
  - constructor; [by constructor|].
    constructor; [by apply text_le_leb|]. eapply Forall_impl; [exact Hb|].
    intros c Hc. apply text_le_leb. apply text_le_leb in Hc.
    by eapply leb_trans.
  - apply leb_false in E. constructor; [done|].
    rewrite insert_by_date_perm. constructor; [|done]. by apply text_le_leb.
Qed.

Lemma get_all_actions_sorted db : StronglySorted text_le (get_all_actions db).
Proof.
  induction db as [|a db IH]; cbn; [constructor|].
  by apply insert_by_date_sorted.
Qed.

Lemma get_all_actions_nil db : get_all_actions db = [] ↔ db = [].
Proof.
  split; [|by intros ->].
  intros H. apply Permutation_nil_r. rewrite <- H.
  symmetry; apply get_all_actions_perm.
Qed.

(** Rows with the same date text keep their order. *)
Lemma insert_by_date_filter a l s :
  filter (fun b => b.1 = s) (insert_by_date a l) =
  filter (fun b => b.1 = s) (a :: l).
Proof.
  induction l as [|b l IH]; cbn [insert_by_date]; [done|].
  case_match eqn:E; [done|].
  rewrite (filter_cons _ b), IH, !(filter_cons _ a), (filter_cons _ b).
  repeat case_decide; try done.
  assert (a.1 = b.1) as Heq by congruence. by rewrite Heq, leb_refl in E.
Qed.

Lemma get_all_actions_filter db s :
  filter (fun b => b.1 = s) (get_all_actions db) = filter (fun b => b.1 = s) db.
Proof.
  induction db as [|a db IH]; cbn [get_all_actions foldr]; [done|].
  rewrite insert_by_date_filter, !filter_cons.
  fold (get_all_actions db). by rewrite IH.
Qed.

(** ** The grouping by date text *)

Lemma group_by_date_fold actions s :
  ∀ m : gmap string (list string),
  fold_left (fun m a => <[a.1 := default [] (m !! a.1) ++ [a.2]]> m) actions m
    !! s =
  match (filter (fun a => a.1 = s) actions).*2 with
  | [] => m !! s
  | ts => Some (default [] (m !! s) ++ ts)
  end.
Proof.
  induction actions as [|a l IH]; intros m; cbn [fold_left]; [done|].
  rewrite IH. rewrite filter_cons. case_decide as Ha.
  - rewrite Ha, lookup_insert_eq. cbn.
    destruct ((filter (λ a0, a0.1 = s) l).*2) as [|t ts]; [done|].
    by rewrite <- app_assoc.
  - by rewrite lookup_insert_ne.
Qed.

(** [by_date.get(s, [])]: the types of the rows whose date text is [s], in
    the order of the list. *)
Lemma group_by_date_lookup actions s :
  default [] (group_by_date actions !! s) =
  (filter (fun a => a.1 = s) actions).*2.
Proof.
  unfold group_by_date. rewrite group_by_date_fold, lookup_empty.
  by destruct ((filter (λ a, a.1 = s) actions).*2).
Qed.

Lemma group_by_date_is_Some actions s :
  is_Some (group_by_date actions !! s) ↔ s ∈ actions.*1.
Proof.
  unfold group_by_date. rewrite group_by_date_fold, lookup_empty.
  destruct ((filter (λ a, a.1 = s) actions).*2) as [|t ts] eqn:E.
  - split; [by intros [? ?]|]. intros Hd. exfalso.
    apply list_elem_of_fmap in Hd as (a & -> & Ha).
    apply fmap_nil_inv in E.
    assert (a ∈ filter (λ a0, a0.1 = a.1) actions) as Hin
      by by apply list_elem_of_filter.
    rewrite E in Hin. by apply elem_of_nil in Hin.
  - split; [|by eexists]. intros _.
    assert (t ∈ (filter (λ a, a.1 = s) actions).*2) as Hin
      by (rewrite E; left).
    apply list_elem_of_fmap in Hin as (a & _ & Ha).
    apply list_elem_of_filter in Ha as [<- Ha]. by apply list_elem_of_fmap_2.
Qed.

(** What the day loop finds for a day: the types of the rows whose date text
    is the ISO text of the day, in [id] order. *)
Lemma types_today_lookup db d :
  default [] (group_by_date (get_all_actions db) !! isoformat d) =
  (filter (fun a => a.1 = isoformat d) db).*2.
Proof. by rewrite group_by_date_lookup, get_all_actions_filter. Qed.

Lemma least_text_unique s1 s2 db : least_text s1 db → least_text s2 db → s1 = s2.
Proof.
  intros [H1 H1'] [H2 H2']. apply String.leb_antisym; [by apply H1'|by apply H2'].
Qed.

Lemma least_text_perm s db db' : db ≡ₚ db' → least_text s db → least_text s db'.
Proof.
  intros Hp [H1 H2]. split; [by rewrite <- Hp|].
  intros s'. rewrite <- Hp. apply H2.
Qed.

(** [min(by_date.keys())] is the least date text of the log. *)
Lemma min_key_group_by_date actions :
  actions ≠ [] → ∃ s,
    min_key (group_by_date actions) = Some s ∧ least_text s actions.
Proof.
  intros Hne. unfold min_key.
  assert (∀ s, s ∈ (map_to_list (group_by_date actions)).*1 ↔ s ∈ actions.*1)
    as Hkeys.
  { intros s. rewrite <- group_by_date_is_Some. split.
    - intros Hd. apply list_elem_of_fmap in Hd as ([k v] & -> & Hkv).
      apply elem_of_map_to_list in Hkv. by eexists.
    - intros [v Hv]. apply elem_of_map_to_list in Hv.
      by apply (list_elem_of_fmap_2 fst) in Hv. }
  destruct ((map_to_list (group_by_date actions)).*1) as [|k ks].
  - destruct actions as [|a l]; [done|]. exfalso.
    assert (a.1 ∈ (a :: l).*1) as Ha by (cbn; left).
    apply Hkeys in Ha. by apply elem_of_nil in Ha.
  - eexists; split; [done|].
    destruct (foldr_text_min_spec k ks) as [Hin Hle]. split.
    + by apply Hkeys.
    + intros s Hs. by apply Hle, Hkeys.
Qed.

Lemma least_text_exists db : db ≠ [] → ∃ s, least_text s db.
Proof.
  intros Hne. destruct (min_key_group_by_date db Hne) as (s & _ & Hs). by exists s.
Qed.

(** ** The day walk and the decay of the full recompute *)

(** The walk starts at the date parsed from the least date text of the table
    and visits every date up to [today]. *)
Lemma walk_phase_eq db today s :
  least_text s db →
  walk_phase (get_all_actions db) today =
  start ← parse_date s; Some (day_walk db start today).
Proof.
  intros Hs. unfold walk_phase.
  destruct (min_key_group_by_date (get_all_actions db)) as (s' & -> & Hs').
  { rewrite get_all_actions_nil. intros ->. destruct Hs as [Hs _].
    by apply elem_of_nil in Hs. }
  apply (least_text_perm _ _ db) in Hs'; [|apply get_all_actions_perm].
  rewrite (least_text_unique _ _ _ Hs' Hs). cbn [mbind option_bind].
  destruct (parse_date s) as [start|]; [|done]. cbn [mbind option_bind].
  unfold day_walk. by rewrite iter_days_fold by lia.
Qed.

Lemma walk_phase_deferred_eq db today s :
  least_text s db →
  walk_phase_deferred (get_all_actions db) today =
  start ← parse_date s; Some (level_up (day_walk_deferred db start today)).
Proof.
  intros Hs. unfold walk_phase_deferred.
  destruct (min_key_group_by_date (get_all_actions db)) as (s' & -> & Hs').
  { rewrite get_all_actions_nil. intros ->. destruct Hs as [Hs _].
    by apply elem_of_nil in Hs. }
  apply (least_text_perm _ _ db) in Hs'; [|apply get_all_actions_perm].
  rewrite (least_text_unique _ _ _ Hs' Hs). cbn [mbind option_bind].
  destruct (parse_date s) as [start|]; [|done]. cbn [mbind option_bind].
  unfold day_walk_deferred. by rewrite iter_days_fold by lia.
Qed.

(** One step of the decay loop: the date is found, or the step raises. *)
Lemma decay_type_day cur_d last p t :
  decay_type cur_d last p t =
  o ← decay_day last; Some (DayLog.decay_type cur_d o p t).
Proof.
  unfold decay_type, decay_day. destruct last as [s|]; [|done].
  case_decide; [done|]. by destruct (parse_date s).
Qed.

Lemma decay_loop_None (L : string → option string) cur_d ts :
  fold_left (fun acc t => p ← acc; decay_type cur_d (L t) p t) ts None = None.
Proof. induction ts as [|t ts IH]; [done|]. exact IH. Qed.

(** The decay loop returns when every date text it meets parses, and is
    then the decay loop on the parsed dates. *)
Lemma decay_loop_eq (L : string → option string) cur_d ts :
  ∀ p,
  fold_left (fun acc t => p ← acc; decay_type cur_d (L t) p t) ts (Some p) =
  if decide (Forall (fun t => is_Some (decay_day (L t))) ts)
  then Some (decay_fold (fun t => mjoin (decay_day (L t))) cur_d ts p)
  else None.
Proof.
  induction ts as [|t ts IH]; intros p; cbn [fold_left].
  - by rewrite decide_True by constructor.
  - cbn [mbind option_bind]. rewrite decay_type_day.
    destruct (decay_day (L t)) as [o|] eqn:E; cbn [mbind option_bind].
    + rewrite IH. destruct (decide (Forall _ ts)) as [Hts|Hts].
      * rewrite decide_True by (constructor; [by eexists|done]).
        unfold decay_fold. cbn [fold_left]. by rewrite E.
      * rewrite decide_False; [done|]. intros H. by apply Forall_cons in H as [_ ?].
    + rewrite decay_loop_None. rewrite decide_False; [done|].
      intros H. apply Forall_cons in H as [[? ?] _]. congruence.
Qed.

Lemma decay_loop_ext (L1 L2 : string → option string) cur_d ts :
  (∀ t, t ∈ ts → L1 t = L2 t) →
  ∀ acc,
  fold_left (fun acc t => p ← acc; decay_type cur_d (L1 t) p t) ts acc =
  fold_left (fun acc t => p ← acc; decay_type cur_d (L2 t) p t) ts acc.
Proof.
  induction ts as [|t ts IH]; intros Hext acc; [done|]. cbn [fold_left].
  rewrite (Hext t) by left. apply IH. intros t' Ht'. apply Hext. by right.
Qed.

(** ** The date text found for a type *)

Lemma greatest_text_unique db t s1 s2 :
  greatest_text db t s1 → greatest_text db t s2 → s1 = s2.
Proof.
  intros [H1 H1'] [H2 H2']. apply String.leb_antisym; [by apply H2'|by apply H1'].
Qed.

Lemma greatest_text_perm db db' t s :
  db ≡ₚ db' → greatest_text db t s → greatest_text db' t s.
Proof.
  intros Hp [H1 H2]. split; [by rewrite <- Hp|].
  intros s'. rewrite <- Hp. apply H2.
Qed.

Lemma no_row_of_type_perm db db' t :
  db ≡ₚ db' → no_row_of_type db t → no_row_of_type db' t.
Proof. intros Hp H s. rewrite <- Hp. apply H. Qed.

Lemma last_date_for_fold t l :
  ∀ (m : gmap string (option string)) o,
  m !! t = Some o →
  fold_left
    (fun m a => if decide (is_Some (m !! a.2)) then <[a.2 := Some a.1]> m else m)
    l m !! t =
  Some (match last (filter (fun a => a.2 = t) l).*1 with
        | Some d => Some d
        | None => o
        end).
Proof.
  induction l as [|a l IH]; intros m o Hm; cbn [fold_left]; [done|].
  rewrite filter_cons. destruct (decide (a.2 = t)) as [Ha|Ha].
  - rewrite Ha. rewrite decide_True by (by eexists).
    rewrite (IH _ (Some a.1)) by apply lookup_insert_eq.
    cbn [fmap list_fmap]. rewrite last_cons. by destruct (last _).
  - apply IH. case_decide; [|done]. by rewrite lookup_insert_ne.
Qed.

Lemma last_date_for_lookup actions t :
  t ∈ ACTION_TYPES →
  mjoin (last_date_for actions !! t) =
  last (filter (fun a => a.2 = t) actions).*1.
Proof.
  intros Ht. unfold last_date_for.
  rewrite (last_date_for_fold t actions last_date_init None).
  - cbn. by destruct (last _).
  - unfold ACTION_TYPES in Ht. elem_cases Ht; subst t; reflexivity.
Qed.

Lemma last_type_spec (l : list (string * string)) t :
  match last (filter (fun a => a.2 = t) l).*1 with
  | Some s => (s, t) ∈ l
  | None => no_row_of_type l t
  end.
Proof.
  destruct (last _) as [d|] eqn:E.
  - apply last_Some_elem_of in E.
    apply list_elem_of_fmap in E as ([d' t'] & -> & Ha).
    apply list_elem_of_filter in Ha as [Ht Ha]. cbn in *. by subst.
  - apply last_None, fmap_nil_inv in E. intros d Hd.
    assert ((d, t) ∈ filter (λ a, a.2 = t) l) as Hin
      by by apply list_elem_of_filter.
    rewrite E in Hin. by apply elem_of_nil in Hin.
Qed.

(** In a log sorted by date text, the last row of a type carries its
    greatest date text. *)
Lemma sorted_last_type_max l t s :
  StronglySorted text_le l →
  last (filter (fun a => a.2 = t) l).*1 = Some s →
  ∀ s', (s', t) ∈ l → String.leb s' s = true.
Proof.
  induction 1 as [|a l Hs IH Ha]; intros Hlast d' Hd'; [by apply elem_of_nil in Hd'|].
  rewrite filter_cons in Hlast. destruct (decide (a.2 = t)) as [Hat|Hat].
  - cbn [fmap list_fmap] in Hlast. rewrite last_cons in Hlast.
    destruct (last (filter (λ a0, a0.2 = t) l).*1) as [d0|] eqn:E.
    + injection Hlast as ->.
      apply elem_of_cons in Hd' as [Heq|Hd']; [|by apply IH].
      pose proof (last_type_spec l t) as Hin. rewrite E in Hin.
      rewrite Forall_forall in Ha. apply Ha in Hin.
      subst a. by apply text_le_leb in Hin.
    + injection Hlast as <-.
      apply elem_of_cons in Hd' as [Heq|Hd']; [subst a; apply leb_refl|].
      pose proof (last_type_spec l t) as Hnl. rewrite E in Hnl.
      by apply Hnl in Hd'.
  - apply elem_of_cons in Hd' as [Heq|Hd']; [by subst a|]. by apply IH.
Qed.

(** The dictionary [last_date_for] of the full recompute holds, for each
    action type, the greatest date text of its rows. *)
Lemma last_date_for_spec db t :
  t ∈ ACTION_TYPES →
  match mjoin (last_date_for (get_all_actions db) !! t) with
  | Some s => greatest_text db t s
  | None => no_row_of_type db t
  end.
Proof.
  intros Ht. rewrite last_date_for_lookup by done.
  pose proof (last_type_spec (get_all_actions db) t) as Hspec.
  destruct (last _) as [d|] eqn:E.
  - apply (greatest_text_perm (get_all_actions db)); [apply get_all_actions_perm|].
    split; [done|].
    by apply sorted_last_type_max; [apply get_all_actions_sorted|].
  - by apply (no_row_of_type_perm (get_all_actions db));
      [apply get_all_actions_perm|].
Qed.

(** The query of the incremental path returns the same text. *)
Lemma last_action_date_for_type_spec db t :
  match last_action_date_for_type db t with
  | Some s => greatest_text db t s
  | None => no_row_of_type db t
  end.
Proof.
  unfold last_action_date_for_type.
  destruct (filter (λ a, a.2 = t) db) as [|a l] eqn:E.
  - intros d Hd.
    assert ((d, t) ∈ filter (λ a, a.2 = t) db) as Hin
      by by apply list_elem_of_filter.
    rewrite E in Hin. by apply elem_of_nil in Hin.
  - destruct (foldr_text_max_spec a.1 l.*1) as [Hin Hle].
    change (a.1 :: l.*1) with ((a :: l).*1) in Hin, Hle.
    rewrite <- E in Hin, Hle. split.
    + apply list_elem_of_fmap in Hin as ([d' t'] & Hd & Ha).
      apply list_elem_of_filter in Ha as [Ht Ha]. cbn in *. by subst.
    + intros d' Hd'. apply Hle.
      apply (list_elem_of_fmap_2' fst _ (d', t)); [|done].
      by apply list_elem_of_filter.
Qed.

Lemma last_date_paths_agree db t :
  t ∈ ACTION_TYPES →
  mjoin (last_date_for (get_all_actions db) !! t) =
  last_action_date_for_type db t.
Proof.
  intros Ht. pose proof (last_date_for_spec db t Ht) as H1.
  pose proof (last_action_date_for_type_spec db t) as H2.
  destruct (mjoin _) as [s1|]; destruct (last_action_date_for_type db t) as [s2|].
  - f_equal. by eapply greatest_text_unique.
  - destruct H1 as [H1 _]. by apply H2 in H1.
  - destruct H2 as [H2 _]. by apply H1 in H2.
  - done.
Qed.

(** The full recompute on a table with a row: the walk from the date of the
    least date text, then the decay on the greatest date texts. *)
Lemma recompute_eq db today s :
  least_text s db →
  recompute_profile_from_actions db today =
  start ← parse_date s;
  if decide (Forall (fun t => is_Some (decay_day (last_action_date_for_type db t)))
               ACTION_TYPES)
  then Some (decay_fold (fun t => mjoin (decay_day (last_action_date_for_type db t)))
               today ACTION_TYPES (day_walk db start today))
  else None.
Proof.
  intros Hs. unfold recompute_profile_from_actions.
  destruct (get_all_actions db) as [|a l] eqn:E.
  { apply get_all_actions_nil in E as ->. destruct Hs as [Hs _].
    by apply elem_of_nil in Hs. }
  rewrite <- E. rewrite (walk_phase_eq db today s Hs).
  destruct (parse_date s) as [start|]; [|done]. cbn [mbind option_bind].
  unfold decay_phase.
  rewrite (decay_loop_ext _ (last_action_date_for_type db))
    by (intros t Ht; by apply last_date_paths_agree).
  apply decay_loop_eq.
Qed.

Lemma recompute_deferred_eq db today s :
  least_text s db →
  recompute_deferred db today =
  start ← parse_date s;
  if decide (Forall (fun t => is_Some (decay_day (last_action_date_for_type db t)))
               ACTION_TYPES)
  then Some (decay_fold (fun t => mjoin (decay_day (last_action_date_for_type db t)))
               today ACTION_TYPES (level_up (day_walk_deferred db start today)))
  else None.
Proof.
  intros Hs. unfold recompute_deferred.
  destruct (get_all_actions db) as [|a l] eqn:E.
  { apply get_all_actions_nil in E as ->. destruct Hs as [Hs _].
    by apply elem_of_nil in Hs. }
  rewrite <- E. rewrite (walk_phase_deferred_eq db today s Hs).
  destruct (parse_date s) as [start|]; [|done]. cbn [mbind option_bind].
  unfold decay_phase.
  rewrite (decay_loop_ext _ (last_action_date_for_type db))
    by (intros t Ht; by apply last_date_paths_agree).
  apply decay_loop_eq.
Qed.

Lemma apply_weekly_decay_eq db p current_date :
  apply_weekly_decay db p current_date =
  if decide (Forall (fun t => is_Some (decay_day (last_action_date_for_type db t)))
               ACTION_TYPES)
  then Some (decay_fold (fun t => mjoin (decay_day (last_action_date_for_type db t)))
               current_date ACTION_TYPES p)
  else None.
Proof. apply decay_loop_eq. Qed.

(** ** When the engine returns *)

Lemma dates_parse_elem db a :
  dates_parse db → a ∈ db → is_Some (parse_date a.1).
Proof.
  unfold dates_parse. rewrite forallb_forall. intros H Ha.
  apply list_elem_of_In in Ha. apply H in Ha. by apply bool_decide_eq_true in Ha.
Qed.

Lemma parse_date_empty : parse_date EmptyString = None.
Proof. reflexivity. Qed.

Lemma decay_day_parsed s d : parse_date s = Some d → decay_day (Some s) = Some (Some d).
Proof.
  intros H. unfold decay_day. rewrite decide_False.
  - by rewrite H.
  - intros ->. by rewrite parse_date_empty in H.
Qed.

Lemma dates_parse_decay db : dates_parse db → decay_parses db.
Proof.
  intros Hp. apply Forall_forall. intros t _.
  pose proof (last_action_date_for_type_spec db t) as Hl.
  destruct (last_action_date_for_type db t) as [s|]; [|by eexists].
  destruct Hl as [Hin _].
  destruct (dates_parse_elem db (s, t) Hp Hin) as [d Hd].
  rewrite (decay_day_parsed s d Hd). by eexists.
Qed.

Lemma recompute_nil today :
  recompute_profile_from_actions [] today = Some (zero_profile today).
Proof. reflexivity. Qed.

(** The full recompute on a table with a row, once more: with the guard on
    the date texts named. *)
Lemma recompute_cons db today s :
  least_text s db →
  recompute_profile_from_actions db today =
  start ← parse_date s;
  if decide (decay_parses db)
  then Some (decay_fold (last_day_for_type db) today ACTION_TYPES
               (day_walk db start today))
  else None.
Proof. apply recompute_eq. Qed.

(** What a returned profile is. *)
Lemma recompute_Some db today r :
  recompute_profile_from_actions db today = Some r →
  (db = [] ∧ r = zero_profile today) ∨
  (∃ s start, least_text s db ∧ parse_date s = Some start ∧ decay_parses db ∧
     r = decay_fold (last_day_for_type db) today ACTION_TYPES
           (day_walk db start today)).
Proof.
  destruct (decide (db = [])) as [->|Hne].
  - rewrite recompute_nil. intros [= <-]. by left.
  - destruct (least_text_exists db Hne) as [s Hs].
    rewrite (recompute_cons db today s Hs).
    destruct (parse_date s) as [start|] eqn:E; [|done]. cbn [mbind option_bind].
    case_decide; [|done]. intros [= <-]. right. by exists s, start.
Qed.

Lemma recompute_returns db today :
  dates_parse db → is_Some (recompute_profile_from_actions db today).
Proof.
  intros Hp. destruct (decide (db = [])) as [->|Hne]; [by eexists|].
  destruct (least_text_exists db Hne) as [s Hs].
  rewrite (recompute_cons db today s Hs).
  destruct Hs as [Hin _]. apply list_elem_of_fmap in Hin as (a & -> & Ha).
  destruct (dates_parse_elem db a Hp Ha) as [start ->]. cbn [mbind option_bind].
  rewrite decide_True by by apply dates_parse_decay. by eexists.
Qed.

(** Whether the full recompute returns does not depend on the day. *)
Lemma recompute_returns_any_day db today today' :
  is_Some (recompute_profile_from_actions db today) →
  is_Some (recompute_profile_from_actions db today').
Proof.
  destruct (decide (db = [])) as [->|Hne]; [by eexists|].
  destruct (least_text_exists db Hne) as [s Hs].
  rewrite !(recompute_cons db _ s Hs).
  destruct (parse_date s); [|done]. cbn [mbind option_bind].
  case_decide; [by eexists|done].
Qed.

(** ** One day of the walk *)

(** The body of the day loop sees the table through the types it finds for
    the day only. *)
Lemma day_gains_view by_date d p :
  day_gains by_date d p =
  DayLog.day_gains {[d := default [] (by_date !! isoformat d)]} d p.
Proof. unfold day_gains, DayLog.day_gains. by rewrite lookup_singleton_eq. Qed.

Lemma day_step_view by_date d p :
  day_step by_date d p =
  DayLog.day_step {[d := default [] (by_date !! isoformat d)]} d p.
Proof. unfold day_step, DayLog.day_step. by rewrite day_gains_view. Qed.

Lemma day_step_ok by_date d p : profile_ok p → profile_ok (day_step by_date d p).
Proof. rewrite day_step_view. apply DayLogFacts.days_day_step_ok. Qed.

Lemma day_walk_ok db start today : profile_ok (day_walk db start today).
Proof.
  unfold day_walk. apply fold_left_inv; [|apply zero_profile_ok].
  intros d p. apply day_step_ok.
Qed.

Lemma fold_day_step_set_date by_date days v :
  ∀ p,
  fold_left (fun p d => day_step by_date d p) days (set_last_check_date v p) =
  set_last_check_date v (fold_left (fun p d => day_step by_date d p) days p).
Proof.
  induction days as [|d days IH]; intros p; cbn [fold_left]; [done|].
  rewrite <- IH. f_equal. rewrite !day_step_view.
  apply DayLogFacts.day_step_set_date.
Qed.

Lemma fold_day_step_grows by_date days :
  ∀ p, profile_ok p →
  let q := fold_left (fun p d => day_step by_date d p) days p in
  level p ≤ level q ∧ total_exp p ≤ total_exp q ∧ consistency p ≤ consistency q.
Proof.
  induction days as [|d days IH]; intros p Hp; cbn [fold_left]; [cbn; lia|].
  cbn zeta. pose proof (day_step_ok by_date d p Hp) as Hok.
  specialize (IH _ Hok). cbn zeta in IH.
  pose proof (DayLogFacts.day_step_grows
                {[d := default [] (by_date !! isoformat d)]} d p) as Hg.
  rewrite <- day_step_view in Hg. destruct Hp as (? & ? & ? & ? & ? & ? & ? & ? & ? & ?).
  lia.
Qed.

Lemma set_last_check_date_ok v p : profile_ok p → profile_ok (set_last_check_date v p).
Proof. by destruct p. Qed.

(** The days walked up to a later day extend the days walked up to an
    earlier one. *)
Lemma seqZ_extend start today today' :
  today ≤ today' →
  ∃ rest,
    seqZ start (today' - start + 1) = seqZ start (today - start + 1) ++ rest ∧
    ∀ d, d ∈ rest → today < d ≤ today'.
Proof.
  intros Hle. destruct (decide (today - start + 1 ≤ 0)) as [Hn|Hp].
  - rewrite (seqZ_nil start (today - start + 1)) by lia. eexists. split; [done|].
    intros d Hd. apply elem_of_seqZ in Hd. lia.
  - exists (seqZ (start + (today - start + 1)) (today' - today)). split.
    + replace (today' - start + 1) with ((today - start + 1) + (today' - today))
        by lia.
      apply seqZ_app; lia.
    + intros d Hd. apply elem_of_seqZ in Hd. lia.
Qed.

Lemma zero_profile_set_date today today' :
  zero_profile today' = set_last_check_date today' (zero_profile today).
Proof. reflexivity. Qed.

Lemma day_walk_later db start today today' :
  today ≤ today' →
  ∃ rest,
    (∀ d, d ∈ rest → today < d ≤ today') ∧
    day_walk db start today' =
    fold_left (fun p d => day_step (group_by_date (get_all_actions db)) d p) rest
      (set_last_check_date today' (day_walk db start today)).
Proof.
  intros Hle. destruct (seqZ_extend start today today' Hle) as (rest & Hrest & Hin).
  exists rest. split; [done|]. unfold day_walk.
  rewrite Hrest, fold_left_app, (zero_profile_set_date today today').
  by rewrite fold_day_step_set_date.
Qed.

Lemma day_walk_grows db start today today' :
  today ≤ today' →
  let w := day_walk db start today in
  let w' := day_walk db start today' in
  level w ≤ level w' ∧ total_exp w ≤ total_exp w' ∧ consistency w ≤ consistency w'.
Proof.
  intros Hle. destruct (day_walk_later db start today today' Hle) as (rest & _ & E).
  cbn zeta. rewrite E.
  by apply (fold_day_step_grows _ rest _
              (set_last_check_date_ok today' _ (day_walk_ok db start today))).
Qed.

Lemma day_step_streak_consistency by_date d p :
  0 ≤ streak p ∧ 2 * streak p ≤ consistency p →
  0 ≤ streak (day_step by_date d p) ∧
  2 * streak (day_step by_date d p) ≤ consistency (day_step by_date d p).
Proof. rewrite day_step_view. apply DayLogFacts.days_day_step_streak_consistency. Qed.

Lemma day_step_last_check_date by_date d p :
  last_check_date (day_step by_date d p) = last_check_date p.
Proof. rewrite day_step_view. apply DayLogFacts.days_day_step_last_check_date. Qed.

Lemma day_walk_last_check_date db start today :
  last_check_date (day_walk db start today) = today.
Proof.
  unfold day_walk.
  apply (fold_left_inv (fun p => last_check_date p = today)); [|done].
  intros d p <-. apply day_step_last_check_date.
Qed.

(** The fields the decay leaves alone. *)
Lemma decay_fold_fields last_of cur_d p :
  let q := decay_fold last_of cur_d ACTION_TYPES p in
  level q = level p ∧ exp q = exp p ∧ streak q = streak p ∧
  last_check_date q = last_check_date p ∧ consistency q = consistency p.
Proof.
  cbn zeta.
  destruct (DayLogFacts.decay_fold_frame last_of cur_d ACTION_TYPES p)
    as (-> & -> & -> & ->).
  by rewrite DayLogFacts.decay_fold_consistency.
Qed.

(** Levelling every day against levelling once after the last day. *)
Lemma day_walk_deferred_eq db start today :
  level_up (day_walk_deferred db start today) = day_walk db start today.
Proof.
  unfold day_walk_deferred, day_walk. apply DayLogFacts.levelling_rel_final.
  apply (fold_days_rel levelling_rel); [|apply DayLogFacts.levelling_rel_zero].
  intros d p q. rewrite day_step_view, day_gains_view.
  apply DayLogFacts.levelling_rel_step.
Qed.

(** * The full recompute *)

(** ** Invariants of the profile *)

(** C3.  For every table and every today, the profile the full recompute
    returns has level at least 1, experience at least 0 and strictly below
    [need(level) = 100 + level * 20], each of the six stats at least 0, and a
    streak of at least 0.  The recompute returns on every table whose date
    texts [parse_date] accepts. *)
Theorem full_recompute_invariants db today :
  (dates_parse db → is_Some (recompute_profile_from_actions db today)) ∧
  ∀ r, recompute_profile_from_actions db today = Some r →
    1 ≤ level r ∧ 0 ≤ exp r ∧ exp r < 100 + level r * 20 ∧
    0 ≤ strength r ∧ 0 ≤ stamina r ∧ 0 ≤ intelligence r ∧ 0 ≤ wealth r ∧
    0 ≤ discipline r ∧ 0 ≤ consistency r ∧ 0 ≤ streak r.
Proof.
  split; [apply recompute_returns|]. intros r Hr. change (profile_ok r).
  apply recompute_Some in Hr as [[_ ->]|(s & start & _ & _ & _ & ->)].
  - apply zero_profile_ok.
  - apply DayLogFacts.decay_fold_ok, day_walk_ok.
Qed.

(** ** Levelling once per day or once at the end *)

(** C4.  Running the level-up loop at the end of every simulated day, as
    the source does, and accumulating the gains of the whole walk to run the
    loop once at the end give the same result, hence the same level and
    experience, for every table and every today. *)
Theorem levelling_per_day_or_deferred db today :
  recompute_deferred db today = recompute_profile_from_actions db today ∧
  (fun r => (level r, exp r)) <$> recompute_deferred db today =
  (fun r => (level r, exp r)) <$> recompute_profile_from_actions db today.
Proof.
  assert (recompute_deferred db today = recompute_profile_from_actions db today)
    as H.
  { destruct (decide (db = [])) as [->|Hne]; [done|].
    destruct (least_text_exists db Hne) as [s Hs].
    rewrite (recompute_deferred_eq db today s Hs), (recompute_eq db today s Hs).
    destruct (parse_date s) as [start|]; [|done]. cbn [mbind option_bind].
    by rewrite day_walk_deferred_eq. }
  split; [exact H|]. by rewrite H.
Qed.

(** ** The empty table *)

(** C5.  On an empty table the full recompute returns, for every today, the
    zero-state profile: level 1, experience 0, the six stats 0, streak 0 and
    last-evaluated date today. *)
Theorem full_recompute_empty today :
  recompute_profile_from_actions [] today = Some (mkProfile 1 0 0 0 0 0 0 0 0 today).
Proof. reflexivity. Qed.

(** * Further properties of the engine *)

(** ** As the days pass *)

Lemma recompute_walk_fields db today r :
  recompute_profile_from_actions db today = Some r →
  ∃ start,
    (db ≠ [] → ∃ s, least_text s db ∧ parse_date s = Some start) ∧
    level r = level (day_walk db start today) ∧
    exp r = exp (day_walk db start today) ∧
    consistency r = consistency (day_walk db start today) ∧
    streak r = streak (day_walk db start today) ∧
    last_check_date r = today.
Proof.
  intros Hr. apply recompute_Some in Hr as [[-> ->]|(s & start & Hs & Hp & _ & ->)].
  - exists (today + 1). split; [done|]. unfold day_walk.
    rewrite seqZ_nil by lia. by repeat split.
  - exists start. split; [intros _; by exists s|].
    destruct (decay_fold_fields (last_day_for_type db) today
                (day_walk db start today)) as (-> & -> & -> & -> & ->).
    rewrite day_walk_last_check_date. by repeat split.
Qed.

(** X12.  With the table unchanged, a full recompute on a later day never
    gives a lower level, less total experience or less consistency than on
    an earlier day: stats may decay and the streak may reset, levels and
    experience are never lost.  The recompute returns on the later day when
    it returns on the earlier one. *)
Theorem full_recompute_monotone_in_today db today today' :
  today ≤ today' →
  ∀ r, recompute_profile_from_actions db today = Some r →
  ∃ r', recompute_profile_from_actions db today' = Some r' ∧
    level r ≤ level r' ∧ total_exp r ≤ total_exp r' ∧
    consistency r ≤ consistency r'.
Proof.
  intros Hle r Hr.
  destruct (recompute_returns_any_day db today today') as [r' Hr'];
    [by eexists|].
  exists r'. split; [done|].
  destruct (decide (db = [])) as [->|Hne].
  { rewrite recompute_nil in Hr, Hr'. injection Hr as <-. injection Hr' as <-.
    unfold total_exp. cbn. lia. }
  apply recompute_walk_fields in Hr as (start & Hs & Hl & He & Hc & _).
  apply recompute_walk_fields in Hr' as (start' & Hs' & Hl' & He' & Hc' & _).
  destruct (Hs Hne) as (s & Hs1 & Hp). destruct (Hs' Hne) as (s' & Hs1' & Hp').
  rewrite (least_text_unique _ _ _ Hs1' Hs1), Hp in Hp'. injection Hp' as <-.
  pose proof (day_walk_grows db start today today' Hle) as Hg. cbn zeta in Hg.
  unfold total_exp in *. rewrite Hl, He, Hc, Hl', He', Hc'. exact Hg.
Qed.

(** X24.  After a full recompute the consistency is at least twice the
    streak: every day of the current streak has earned its 2 points of
    consistency, and consistency is never taken back. *)
Theorem full_recompute_streak_le_consistency db today :
  ∀ r, recompute_profile_from_actions db today = Some r →
  2 * streak r ≤ consistency r.
Proof.
  intros r Hr.
  apply recompute_walk_fields in Hr as (start & _ & _ & _ & -> & -> & _).
  unfold day_walk.
  apply (fold_left_inv
           (fun p => 0 ≤ streak p ∧ 2 * streak p ≤ consistency p)).
  - intros d p. apply day_step_streak_consistency.
  - cbn. lia.
Qed.

(** ** The two decay loops, and the order of the rows *)

(** X13.  The decay written out at the end of the full recompute, from the
    dictionary [last_date_for] filled in the order of the query, and
    [apply_weekly_decay], from one query per type, are the same function of
    the table, the date and the profile: they return the same profile, or
    both raise. *)
Theorem decay_paths_agree db today p :
  decay_phase (get_all_actions db) today p = apply_weekly_decay db p today.
Proof.
  unfold decay_phase, apply_weekly_decay. apply decay_loop_ext.
  intros t Ht. by apply last_date_paths_agree.
Qed.

Lemma last_action_date_for_type_perm db db' t :
  db ≡ₚ db' → last_action_date_for_type db t = last_action_date_for_type db' t.
Proof.
  intros Hp. pose proof (last_action_date_for_type_spec db t) as H1.
  pose proof (last_action_date_for_type_spec db' t) as H2.
  destruct (last_action_date_for_type db t) as [s1|];
    destruct (last_action_date_for_type db' t) as [s2|].
  - f_equal. apply (greatest_text_unique db' t); [|done].
    by apply (greatest_text_perm db).
  - destruct H1 as [H1 _]. rewrite Hp in H1. by apply H2 in H1.
  - destruct H2 as [H2 _]. rewrite <- Hp in H2. by apply H1 in H2.
  - done.
Qed.

Lemma count_gainful_perm ts ts' : ts ≡ₚ ts' → count_gainful ts = count_gainful ts'.
Proof. intros H. unfold count_gainful. by rewrite H. Qed.

Lemma day_step_perm db db' d p :
  db ≡ₚ db' →
  day_step (group_by_date (get_all_actions db)) d p =
  day_step (group_by_date (get_all_actions db')) d p.
Proof.
  intros Hp. rewrite !day_step_view, !types_today_lookup.
  assert ((filter (λ a, a.1 = isoformat d) db).*2 ≡ₚ
          (filter (λ a, a.1 = isoformat d) db').*2) as Hts by by rewrite Hp.
  set (ts := (filter (λ a, a.1 = isoformat d) db).*2) in *.
  set (ts' := (filter (λ a, a.1 = isoformat d) db').*2) in *.
  unfold DayLog.day_step. f_equal.
  apply DayLogFacts.day_gains_determined; rewrite !lookup_singleton_eq;
    change (default [] (Some ts)) with ts;
    change (default [] (Some ts')) with ts'.
  - split; intros E; rewrite E in Hts.
    + symmetry in Hts. by apply Permutation_nil_r in Hts.
    + by apply Permutation_nil_r in Hts.
  - by apply count_gainful_perm.
  - intros t. by apply count_type_perm.
Qed.

(** X15.  The full recompute does not depend on the order of the rows of
    the table: two tables with the same rows give the same result. *)
Theorem full_recompute_order_independent db db' today :
  db ≡ₚ db' →
  recompute_profile_from_actions db today =
  recompute_profile_from_actions db' today.
Proof.
  intros Hp. destruct (decide (db = [])) as [->|Hne].
  { apply Permutation_nil_l in Hp. by subst db'. }
  destruct (least_text_exists db Hne) as [s Hs].
  rewrite (recompute_eq db today s Hs).
  rewrite (recompute_eq db' today s (least_text_perm _ _ _ Hp Hs)).
  destruct (parse_date s) as [start|]; [|done]. cbn [mbind option_bind].
  assert (∀ t, last_action_date_for_type db t = last_action_date_for_type db' t)
    as HL by (intros t; by apply last_action_date_for_type_perm).
  assert (day_walk db start today = day_walk db' start today) as ->.
  { unfold day_walk. apply fold_left_ext_in. intros d p _. by apply day_step_perm. }
  assert (Forall (λ t, is_Some (decay_day (last_action_date_for_type db t)))
            ACTION_TYPES ↔
          Forall (λ t, is_Some (decay_day (last_action_date_for_type db' t)))
            ACTION_TYPES) as Hiff.
  { split; intros H; eapply Forall_impl; try exact H; intros t Ht;
      [by rewrite <- HL|by rewrite HL]. }
  repeat case_decide; try tauto. f_equal.
  apply DayLogFacts.decay_fold_ext. intros t _. by rewrite HL.
Qed.

(** * The incremental daily check *)

Lemma streak_step_eq db d p :
  streak_step db d p = set_streak (streak_after db (streak p) d) p.
Proof. unfold streak_step, streak_after. by case_match. Qed.

Lemma fold_streak_step db days :
  ∀ p,
  fold_left (fun p d => streak_step db d p) days p =
  set_streak (fold_left (streak_after db) days (streak p)) p.
Proof.
  induction days as [|d days IH]; intros p; cbn [fold_left].
  - by destruct p.
  - rewrite IH, streak_step_eq. reflexivity.
Qed.

Lemma streak_after_nonneg db days : ∀ s, 0 ≤ s → 0 ≤ fold_left (streak_after db) days s.
Proof.
  induction days as [|d days IH]; intros s Hs; cbn; [done|].
  apply IH. unfold streak_after. case_match; lia.
Qed.

(** The check returns unless a date text of the decay loop is rejected, and
    never raises when no day has passed. *)
Lemma handle_daily_check_eq db p current_date :
  handle_daily_check db p current_date =
  if decide (current_date ≤ last_check_date p ∨ decay_parses db)
  then Some (daily_check_result db p current_date) else None.
Proof.
  unfold handle_daily_check, daily_check_result.
  destruct (current_date <=? last_check_date p) eqn:E.
  - apply Z.leb_le in E. by rewrite decide_True by by left.
  - apply Z.leb_gt in E. rewrite apply_weekly_decay_eq, iter_days_fold by lia.
    replace (current_date - (last_check_date p + 1) + 1)
      with (current_date - last_check_date p) by lia.
    rewrite fold_streak_step. fold (decay_parses db).
    destruct (decide (decay_parses db)) as [Hd|Hd].
    + by rewrite decide_True by by right.
    + rewrite decide_False; [done|]. intros [?|?]; [lia|done].
Qed.

Lemma handle_daily_check_Some db p current_date q :
  handle_daily_check db p current_date = Some q →
  q = daily_check_result db p current_date.
Proof. rewrite handle_daily_check_eq. case_decide; [|done]. by intros [= <-]. Qed.

Lemma handle_daily_check_returns db p current_date :
  dates_parse db → is_Some (handle_daily_check db p current_date).
Proof.
  intros Hp. rewrite handle_daily_check_eq.
  rewrite decide_True; [by eexists|]. right. by apply dates_parse_decay.
Qed.

Lemma handle_daily_check_not_later db p d :
  d ≤ last_check_date p → handle_daily_check db p d = Some p.
Proof.
  intros Hle. rewrite handle_daily_check_eq, decide_True by by left.
  unfold daily_check_result.
  by replace (d <=? last_check_date p) with true by (symmetry; by apply Z.leb_le).
Qed.

Lemma daily_check_result_later db p current_date :
  last_check_date p < current_date →
  daily_check_result db p current_date =
  set_last_check_date current_date
    (decay_fold (last_day_for_type db) current_date ACTION_TYPES
       (set_streak
          (fold_left (streak_after db)
             (seqZ (last_check_date p + 1) (current_date - last_check_date p))
             (streak p))
          p)).
Proof.
  intros Hlt. unfold daily_check_result.
  by replace (current_date <=? last_check_date p) with false
    by (symmetry; apply Z.leb_gt; lia).
Qed.

Lemma daily_check_result_last_check_date db p current_date :
  last_check_date (daily_check_result db p current_date) =
  Z.max (last_check_date p) current_date.
Proof.
  destruct (decide (current_date ≤ last_check_date p)) as [Hle|Hgt].
  - unfold daily_check_result.
    replace (current_date <=? last_check_date p) with true
      by (symmetry; by apply Z.leb_le). lia.
  - rewrite daily_check_result_later by lia. cbn. lia.
Qed.

Lemma daily_check_result_fields db p current_date :
  let q := daily_check_result db p current_date in
  level q = level p ∧ exp q = exp p ∧ consistency q = consistency p.
Proof.
  cbn zeta. destruct (decide (current_date ≤ last_check_date p)) as [Hle|Hgt].
  { unfold daily_check_result.
    by replace (current_date <=? last_check_date p) with true
      by (symmetry; by apply Z.leb_le). }
  rewrite daily_check_result_later by lia.
  cbn [level exp consistency set_last_check_date].
  set (w := set_streak _ p).
  by destruct (decay_fold_fields (last_day_for_type db) current_date w)
    as (-> & -> & _ & _ & ->).
Qed.

Lemma daily_check_result_streak db p current_date :
  last_check_date p < current_date →
  streak (daily_check_result db p current_date) =
  fold_left (streak_after db)
    (seqZ (last_check_date p + 1) (current_date - last_check_date p)) (streak p).
Proof.
  intros Hlt. rewrite daily_check_result_later by done.
  cbn [streak set_last_check_date].
  by destruct (decay_fold_fields (last_day_for_type db) current_date
                 (set_streak
                    (fold_left (streak_after db)
                       (seqZ (last_check_date p + 1)
                          (current_date - last_check_date p))
                       (streak p)) p)) as (_ & _ & -> & _).
Qed.

Lemma daily_check_result_stat db p current_date t :
  last_check_date p < current_date → t ∈ ACTION_TYPES →
  stat_get (daily_check_result db p current_date) t =
  decayed (last_day_for_type db) current_date t (stat_get p t).
Proof.
  intros Hlt Ht. rewrite daily_check_result_later by done.
  rewrite stat_get_set_last_check_date, DayLogFacts.decay_fold_action_type by done.
  by rewrite stat_get_set_streak.
Qed.

(** C9.  The incremental daily check leaves level, experience and
    consistency as they were in the cached profile, for every profile and
    every current date; and when the current date is not after the last
    evaluated date, it returns the profile unchanged, last evaluated date
    included.  The check returns on every table whose date texts
    [parse_date] accepts. *)
Theorem daily_check_frame db p current_date :
  (dates_parse db → is_Some (handle_daily_check db p current_date)) ∧
  (current_date ≤ last_check_date p →
   handle_daily_check db p current_date = Some p) ∧
  ∀ q, handle_daily_check db p current_date = Some q →
    level q = level p ∧ exp q = exp p ∧ consistency q = consistency p ∧
    (current_date ≤ last_check_date p → q = p).
Proof.
  split; [apply handle_daily_check_returns|].
  split; [apply handle_daily_check_not_later|].
  intros q Hq. pose proof Hq as Hq'. apply handle_daily_check_Some in Hq as ->.
  destruct (daily_check_result_fields db p current_date) as (-> & -> & ->).
  repeat split. intros Hle.
  rewrite handle_daily_check_not_later in Hq' by done. by injection Hq'.
Qed.

(** X2.  A second check on the same date changes nothing: the incremental
    daily check is idempotent, and it leaves the last evaluated date at the
    later of the cached date and the current date. *)
Theorem daily_check_idempotent db p current_date :
  ∀ q, handle_daily_check db p current_date = Some q →
  handle_daily_check db q current_date = Some q ∧
  last_check_date q = Z.max (last_check_date p) current_date.
Proof.
  intros q Hq. apply handle_daily_check_Some in Hq as ->.
  pose proof (daily_check_result_last_check_date db p current_date) as Hd.
  split; [|done]. apply handle_daily_check_not_later. lia.
Qed.

(** X4.  The check never raises a stat and keeps the invariant of the
    profile: from a profile with level at least 1, experience within the
    level's requirement and nothing negative it returns such a profile, with
    every stat at most what it was. *)
Theorem daily_check_keeps_invariant db p current_date :
  profile_ok p →
  ∀ q, handle_daily_check db p current_date = Some q →
  profile_ok q ∧ ∀ k, k ∈ STAT_KEYS → stat_get q k ≤ stat_get p k.
Proof.
  intros Hok q Hq. apply handle_daily_check_Some in Hq as ->.
  destruct (decide (current_date ≤ last_check_date p)) as [Hle|Hgt].
  { unfold daily_check_result.
    replace (current_date <=? last_check_date p) with true
      by (symmetry; by apply Z.leb_le). split; [done|]. intros; lia. }
  rewrite daily_check_result_later by lia.
  set (s := fold_left (streak_after db) _ (streak p)).
  assert (0 ≤ s) as Hs.
  { apply streak_after_nonneg. apply Hok. }
  assert (profile_ok (set_streak s p)) as Hok'.
  { destruct Hok as (? & ? & ? & ? & ? & ? & ? & ? & ? & ?).
    unfold profile_ok. cbn. repeat split; done. }
  pose proof (DayLogFacts.decay_fold_ok (last_day_for_type db) current_date _ Hok')
    as Hdec.
  split.
  - destruct Hdec as (? & ? & ? & ? & ? & ? & ? & ? & ? & ?).
    unfold profile_ok. cbn. repeat split; done.
  - intros k Hk. rewrite stat_get_set_last_check_date.
    destruct (decide (k ∈ ACTION_TYPES)) as [Ha|Ha].
    + rewrite DayLogFacts.decay_fold_action_type, stat_get_set_streak by done.
      pose proof (profile_ok_stat_nonneg p k Hok Hk).
      unfold decayed. repeat case_match; lia.
    + rewrite DayLogFacts.decay_fold_other, stat_get_set_streak by done. lia.
Qed.

(** X9.  Two checks on successive dates against one check on the later
    date: streak, last evaluated date, level, experience and consistency
    come out the same, while each action stat, decayed at both checks, is at
    most what the single check leaves.  The two checks return exactly when
    the single check does. *)
Theorem daily_checks_compose db p d1 d2 :
  last_check_date p < d1 → d1 < d2 →
  (∀ k, k ∈ STAT_KEYS → 0 ≤ stat_get p k) →
  (is_Some (handle_daily_check db p d1 ≫= fun q => handle_daily_check db q d2) ↔
   is_Some (handle_daily_check db p d2)) ∧
  ∀ q twice once,
  handle_daily_check db p d1 = Some q →
  handle_daily_check db q d2 = Some twice →
  handle_daily_check db p d2 = Some once →
  streak twice = streak once ∧
  last_check_date twice = last_check_date once ∧
  level twice = level once ∧ exp twice = exp once ∧
  consistency twice = consistency once ∧
  ∀ k, k ∈ STAT_KEYS → stat_get twice k ≤ stat_get once k.
Proof.
  intros H1 H2 Hpos.
  pose proof (daily_check_result_last_check_date db p d1) as Hd1.
  rewrite Z.max_r in Hd1 by lia.
  split.
  { rewrite !handle_daily_check_eq.
    destruct (decide (decay_parses db)) as [Hd|Hd].
    - rewrite !(decide_True (P := _ ∨ decay_parses db)) by by right.
      cbn [mbind option_bind]. rewrite handle_daily_check_eq.
      rewrite decide_True by by right. split; by eexists.
    - rewrite !(decide_False (P := _ ∨ decay_parses db)) by (intros [?|?]; [lia|done]).
      cbn [mbind option_bind]. split; intros [? ?]; done. }
  intros q twice once Hq Htwice Honce.
  apply handle_daily_check_Some in Hq as ->.
  apply handle_daily_check_Some in Htwice as ->.
  apply handle_daily_check_Some in Honce as ->.
  split; [|split; [|split; [|split; [|split]]]].
  - rewrite (daily_check_result_streak db (daily_check_result db p d1) d2)
      by (rewrite Hd1; lia).
    rewrite Hd1.
    rewrite (daily_check_result_streak db p d1) by lia.
    rewrite (daily_check_result_streak db p d2) by lia.
    replace (d2 - last_check_date p)
      with ((d1 - last_check_date p) + (d2 - d1)) by lia.
    rewrite (seqZ_app (last_check_date p + 1) (d1 - last_check_date p) (d2 - d1))
      by lia.
    rewrite fold_left_app.
    by replace (last_check_date p + 1 + (d1 - last_check_date p)) with (d1 + 1)
      by lia.
  - rewrite !daily_check_result_last_check_date. lia.
  - destruct (daily_check_result_fields db (daily_check_result db p d1) d2)
      as (-> & _).
    destruct (daily_check_result_fields db p d1) as (-> & _).
    by destruct (daily_check_result_fields db p d2) as (-> & _).
  - destruct (daily_check_result_fields db (daily_check_result db p d1) d2)
      as (_ & -> & _).
    destruct (daily_check_result_fields db p d1) as (_ & -> & _).
    by destruct (daily_check_result_fields db p d2) as (_ & -> & _).
  - destruct (daily_check_result_fields db (daily_check_result db p d1) d2)
      as (_ & _ & ->).
    destruct (daily_check_result_fields db p d1) as (_ & _ & ->).
    by destruct (daily_check_result_fields db p d2) as (_ & _ & ->).
  - intros k Hk. specialize (Hpos k Hk).
    destruct (decide (k ∈ ACTION_TYPES)) as [Ha|Ha].
    + rewrite !daily_check_result_stat by (try rewrite Hd1; done || lia).
      unfold decayed. destruct (last_day_for_type db k); [|lia].
      repeat case_match; lia.
    + rewrite !daily_check_result_later by lia.
      rewrite !stat_get_set_last_check_date.
      rewrite !DayLogFacts.decay_fold_other by done.
      rewrite !stat_get_set_streak.
      rewrite stat_get_set_last_check_date, DayLogFacts.decay_fold_other by done.
      by rewrite stat_get_set_streak.
Qed.

(** X5.  A daily check made on the day of a full recompute, or with an
    earlier date, returns the recomputed profile as it is: the page view
    that follows a log, an edit or a delete does not alter the profile just
    saved. *)
Theorem daily_check_after_recompute db today d :
  d ≤ today →
  ∀ r, recompute_profile_from_actions db today = Some r →
  handle_daily_check db r d = Some r.
Proof.
  intros Hle r Hr. apply handle_daily_check_not_later.
  apply recompute_walk_fields in Hr as (_ & _ & _ & _ & _ & _ & ->). done.
Qed.

(** ** The incremental path against the full recompute *)

Lemma parse_date_isoformat_inv d n : parse_date (isoformat d) = Some n → n = d.
Proof.
  destruct (is_date d) eqn:E.
  - rewrite parse_date_isoformat by done. by intros [= <-].
  - unfold isoformat. rewrite E. by rewrite parse_date_empty.
Qed.

(** One day adds, to the stat of each action type, its gain once per entry
    of that type found for the day. *)
Lemma day_step_stat_types by_date d p t g :
  GAIN !! t = Some g →
  stat_get (day_step by_date d p) t =
  stat_get p t + g * count_type t (default [] (by_date !! isoformat d)).
Proof.
  intros Hg. rewrite day_step_view. unfold DayLog.day_step.
  rewrite (same_stats_stat_get _ _ t (level_up_same_stats _)).
  set (ts := default [] (by_date !! isoformat d)).
  destruct (decide (ts = [])) as [E|E].
  - rewrite DayLogFacts.day_gains_gap by by rewrite lookup_singleton_eq.
    rewrite E. change (count_type t []) with 0.
    replace (g * 0) with 0 by lia. rewrite Z.add_0_r.
    unfold stat_get. repeat case_decide; reflexivity.
  - rewrite DayLogFacts.day_gains_active by by rewrite lookup_singleton_eq.
    rewrite lookup_singleton_eq. change (default [] (Some ts)) with ts.
    apply GAIN_lookup_Some in Hg. elem_cases Hg; inversion Hg; subst; reflexivity.
Qed.

Lemma count_type_zero t ts : t ∉ ts → count_type t ts = 0.
Proof.
  intros Ht. unfold count_type.
  induction ts as [|x ts IH]; [done|].
  apply not_elem_of_cons in Ht as [Hne Ht].
  rewrite filter_cons, decide_False by done. by apply IH.
Qed.

(** Days without an entry of a type leave its stat alone. *)
Lemma fold_day_step_stat_unchanged db days t g :
  GAIN !! t = Some g →
  (∀ d, d ∈ days → (isoformat d, t) ∉ db) →
  ∀ p,
  stat_get
    (fold_left (fun p d => day_step (group_by_date (get_all_actions db)) d p)
       days p) t = stat_get p t.
Proof.
  intros Hg. induction days as [|d days IH]; intros Hno p; cbn [fold_left]; [done|].
  rewrite IH by (intros d' Hd'; apply Hno; by right).
  rewrite (day_step_stat_types _ d p t g Hg), types_today_lookup.
  rewrite count_type_zero; [lia|].
  intros Hin. apply list_elem_of_fmap in Hin as ([s t'] & Ht' & Ha).
  apply list_elem_of_filter in Ha as [Hs Ha]. cbn in *. subst.
  by apply (Hno d); [left|].
Qed.

(** The date the decay loop finds for a type that has been logged: a date
    of one of its rows, no later than the most recent one. *)
Lemma last_day_for_type_latest db t last :
  latest_day db t last → decay_parses db →
  ∃ n, last_day_for_type db t = Some n ∧ n ≤ last.
Proof.
  intros [(s & Hin & Hs) Hall] _. unfold last_day_for_type.
  pose proof (last_action_date_for_type_spec db t) as Hl.
  destruct (last_action_date_for_type db t) as [g|]; [|by apply Hl in Hin].
  destruct Hl as [Hg _]. destruct (Hall g Hg) as (n & Hn & Hle).
  exists n. by rewrite (decay_day_parsed g n Hn).
Qed.

(** X8.  The incremental check decays again what the full recompute has
    already decayed: for a type whose most recent entry was 7 or more days
    old at the recompute, a check on a later day leaves the stat 2 below
    (floored at 0) the stat a full recompute gives on that day. *)
Theorem incremental_decays_again db d1 d2 t last :
  t ∈ ACTION_TYPES → latest_day db t last → 7 ≤ d1 - last → d1 < d2 →
  ∀ r1 q r2,
  recompute_profile_from_actions db d1 = Some r1 →
  handle_daily_check db r1 d2 = Some q →
  recompute_profile_from_actions db d2 = Some r2 →
  stat_get q t = Z.max 0 (stat_get r2 t - 2).
Proof.
  intros Ht Hlast H7 Hlt r1 q r2 Hr1 Hq Hr2.
  assert (db ≠ []) as Hne.
  { intros ->. destruct Hlast as [(s & Hin & _) _]. by apply elem_of_nil in Hin. }
  pose proof (recompute_walk_fields db d1 r1 Hr1) as (_ & _ & _ & _ & _ & _ & Hd1).
  apply recompute_Some in Hr1 as [[? _]|(s & start & Hs & Hp & Hdp & ->)]; [done|].
  apply recompute_Some in Hr2 as [[? _]|(s' & start' & Hs' & Hp' & _ & ->)]; [done|].
  rewrite (least_text_unique _ _ _ Hs' Hs), Hp in Hp'. injection Hp' as <-.
  apply handle_daily_check_Some in Hq as ->.
  rewrite daily_check_result_stat by (try rewrite Hd1; done).
  rewrite !DayLogFacts.decay_fold_action_type by done.
  destruct (last_day_for_type_latest db t last Hlast Hdp) as (n & Hn & Hle).
  unfold decayed. rewrite Hn.
  replace (7 <=? d1 - n) with true by (symmetry; apply Z.leb_le; lia).
  replace (7 <=? d2 - n) with true by (symmetry; apply Z.leb_le; lia).
  destruct (day_walk_later db start d1 d2 ltac:(lia)) as (rest & Hrest & ->).
  apply GAIN_is_Some in Ht as [g Hg].
  rewrite (fold_day_step_stat_unchanged db rest t g Hg).
  - by rewrite stat_get_set_last_check_date.
  - intros d Hd Hin. destruct Hlast as [_ Hall].
    destruct (Hall _ Hin) as (m & Hm & Hml).
    apply parse_date_isoformat_inv in Hm. specialize (Hrest d Hd). lia.
Qed.

(** * Tables of dates in ISO form *)

(** ** Date texts in ISO form *)

Lemma is_iso_day s :
  is_iso s = true →
  parse_date s = Some (day_of s) ∧ is_date (day_of s) = true ∧
  s = isoformat (day_of s).
Proof.
  unfold is_iso, day_of. destruct (parse_date s) as [d|] eqn:E; [|done].
  intros H. apply String.eqb_eq in H. cbn [default].
  split; [done|]. split; [by eapply parse_date_is_date|done].
Qed.



(** A text in ISO form is the text of the day [d] exactly when it stands for
    that day. *)
Lemma is_iso_eq_isoformat s d : is_iso s = true → s = isoformat d ↔ day_of s = d.
Proof.
  intros Hs. destruct (is_iso_day s Hs) as (Hp & Hd & Heq). split.
  - intros ->. by apply parse_date_isoformat_inv.
  - by intros <-.
Qed.

(** Texts in ISO form compare as their days. *)
Lemma is_iso_leb s1 s2 :
  is_iso s1 = true → is_iso s2 = true →
  String.leb s1 s2 = (day_of s1 <=? day_of s2).
Proof.
  intros H1 H2.
  destruct (is_iso_day s1 H1) as (_ & Hd1 & E1).
  destruct (is_iso_day s2 H2) as (_ & Hd2 & E2).
  rewrite E1 at 1. rewrite E2 at 1.
  unfold String.leb, Z.leb. by rewrite compare_isoformat.
Qed.

Lemma is_iso_ltb s1 s2 :
  is_iso s1 = true → is_iso s2 = true →
  String.ltb s1 s2 = (day_of s1 <? day_of s2).
Proof.
  intros H1 H2.
  destruct (is_iso_day s1 H1) as (_ & Hd1 & E1).
  destruct (is_iso_day s2 H2) as (_ & Hd2 & E2).
  rewrite E1 at 1. rewrite E2 at 1.
  unfold String.ltb, Z.ltb. by rewrite compare_isoformat.
Qed.

Lemma canonical_Forall db : canonical db ↔ Forall (fun a => is_iso a.1 = true) db.
Proof.
  unfold canonical. rewrite forallb_forall, Forall_forall.
  split; intros H a Ha; apply H; by apply list_elem_of_In.
Qed.

Lemma canonical_elem db a : canonical db → a ∈ db → is_iso a.1 = true.
Proof. rewrite canonical_Forall, Forall_forall. auto. Qed.

Lemma canonical_perm db db' : db ≡ₚ db' → canonical db → canonical db'.
Proof. rewrite !canonical_Forall. by intros ->. Qed.

Lemma canonical_cons a db : canonical (a :: db) ↔ is_iso a.1 = true ∧ canonical db.
Proof.
  rewrite !canonical_Forall. split; [by inversion 1|intros []; by constructor].
Qed.


Lemma canonical_filter (P : string * string → Prop) `{∀ a, Decision (P a)} db :
  canonical db → canonical (filter P db).
Proof.
  rewrite !canonical_Forall, !Forall_forall. intros Hc a Ha.
  apply list_elem_of_filter in Ha as [_ Ha]. by apply Hc.
Qed.

Lemma canonical_get_all_actions db : canonical db → canonical (get_all_actions db).
Proof. apply canonical_perm. symmetry. apply get_all_actions_perm. Qed.

Lemma canonical_dates_parse db : canonical db → dates_parse db.
Proof.
  intros Hc. unfold dates_parse. apply forallb_forall. intros a Ha.
  apply list_elem_of_In in Ha. apply bool_decide_eq_true.
  destruct (is_iso_day a.1 (canonical_elem db a Hc Ha)) as (-> & _). by eexists.
Qed.

(** ** The table and its log of dated entries *)

Lemma elem_of_day_view db d t :
  canonical db → (d, t) ∈ day_view db ↔ (isoformat d, t) ∈ db.
Proof.
  intros Hc. unfold day_view. rewrite list_elem_of_fmap. split.
  - intros ([s t'] & [= -> ->] & Ha).
    destruct (is_iso_day s (canonical_elem db _ Hc Ha)) as (_ & _ & <-). done.
  - intros Ha. exists (isoformat d, t). split; [|done]. cbn. f_equal.
    symmetry. apply is_iso_eq_isoformat; [|done].
    apply (canonical_elem db _ Hc Ha).
Qed.

Lemma elem_of_day_view_dates db d :
  canonical db → d ∈ (day_view db).*1 ↔ isoformat d ∈ db.*1.
Proof.
  intros Hc. rewrite !list_elem_of_fmap. split.
  - intros ([d' t] & -> & Ha). apply elem_of_day_view in Ha; [|done].
    by exists (isoformat d', t).
  - intros ([s t] & Hs & Ha). cbn in Hs. subst s.
    exists (d, t). split; [done|]. by apply elem_of_day_view.
Qed.

Lemma day_view_insert a l :
  canonical (a :: l) →
  day_view (insert_by_date a l) =
  DayLog.insert_by_date (day_of a.1, a.2) (day_view l).
Proof.
  induction l as [|b l IH]; intros Hc; [done|].
  apply canonical_cons in Hc as [Ha Hc]. pose proof Hc as Hc'.
  apply canonical_cons in Hc' as [Hb Hl].
  cbn [insert_by_date DayLog.insert_by_date day_view fmap list_fmap fst snd].
  rewrite (is_iso_leb _ _ Ha Hb). case_match; [done|].
  cbn [fmap list_fmap]. f_equal. apply IH. by apply canonical_cons.
Qed.

(** The query sorts a table of ISO dates by day. *)
Lemma day_view_get_all_actions db :
  canonical db → day_view (get_all_actions db) = DayLog.get_all_actions (day_view db).
Proof.
  induction db as [|a db IH]; intros Hc; [done|].
  pose proof Hc as Hc'. apply canonical_cons in Hc' as [Ha Hdb].
  cbn [get_all_actions DayLog.get_all_actions foldr day_view fmap list_fmap].
  fold (get_all_actions db). rewrite day_view_insert.
  - f_equal. by apply IH.
  - apply canonical_cons. split; [done|]. by apply canonical_get_all_actions.
Qed.

Lemma day_view_filter_day actions d :
  canonical actions →
  (filter (fun a => a.1 = isoformat d) actions).*2 =
  (filter (fun a => a.1 = d) (day_view actions)).*2.
Proof.
  induction actions as [|a l IH]; intros Hc; [done|].
  apply canonical_cons in Hc as [Ha Hl].
  cbn [day_view fmap list_fmap]. rewrite !filter_cons. cbn [fst snd].
  pose proof (is_iso_eq_isoformat a.1 d Ha) as Hiff.
  specialize (IH Hl). unfold day_view in IH.
  repeat case_decide; cbn [fmap list_fmap snd]; try tauto; by rewrite IH.
Qed.

(** The day loop finds, under the ISO text of a day, the entries of the
    day. *)
Lemma day_step_day_view actions d p :
  canonical actions →
  day_step (group_by_date actions) d p =
  DayLog.day_step (DayLog.group_by_date (day_view actions)) d p.
Proof.
  intros Hc. unfold day_step, DayLog.day_step, day_gains, DayLog.day_gains.
  by rewrite group_by_date_lookup, DayLogFacts.days_group_by_date_lookup,
    day_view_filter_day.
Qed.

Lemma least_text_earliest db s :
  canonical db → least_text s db → earliest (day_of s) (day_view db).
Proof.
  intros Hc [Hin Hle]. split.
  - apply list_elem_of_fmap in Hin as (a & -> & Ha).
    apply list_elem_of_fmap. exists (day_of a.1, a.2). split; [done|].
    unfold day_view. apply list_elem_of_fmap. by exists a.
  - intros d Hd. apply list_elem_of_fmap in Hd as ([d' t] & -> & Ha).
    unfold day_view in Ha. apply list_elem_of_fmap in Ha as (a & [= -> ->] & Ha).
    apply list_elem_of_fmap in Hin as (b & -> & Hb).
    assert (String.leb b.1 a.1 = true) as Hl
      by (apply Hle; by apply list_elem_of_fmap_2).
    rewrite is_iso_leb in Hl by by eapply canonical_elem.
    by apply Z.leb_le in Hl.
Qed.

Lemma day_view_nil db : day_view db = [] ↔ db = [].
Proof. unfold day_view. split; [apply fmap_nil_inv|by intros ->]. Qed.

(** On a table of ISO dates the day walk is the walk of the log. *)
Lemma walk_phase_day_view db today :
  canonical db → db ≠ [] →
  walk_phase (get_all_actions db) today =
  Some (DayLog.walk_phase (DayLog.get_all_actions (day_view db)) today).
Proof.
  intros Hc Hne. destruct (least_text_exists db Hne) as [s Hs].
  rewrite (walk_phase_eq db today s Hs).
  pose proof (least_text_earliest db s Hc Hs) as He.
  destruct Hs as [Hin _]. apply list_elem_of_fmap in Hin as (a & -> & Ha).
  destruct (is_iso_day a.1 (canonical_elem db a Hc Ha)) as (-> & _ & _).
  cbn [mbind option_bind]. f_equal.
  destruct (DayLogFacts.walk_phase_fold (day_view db) today) as (start & He' & ->).
  { by rewrite day_view_nil. }
  rewrite (DayLogFacts.earliest_unique _ _ _ He' He).
  unfold day_walk. apply fold_left_ext_in. intros d p _.
  rewrite day_step_day_view by by apply canonical_get_all_actions.
  by rewrite day_view_get_all_actions.
Qed.

Lemma greatest_text_latest db t s :
  canonical db → greatest_text db t s → latest (day_view db) t (day_of s).
Proof.
  intros Hc [Hin Hle]. split.
  - unfold day_view. apply list_elem_of_fmap. by exists (s, t).
  - intros d Hd. unfold day_view in Hd.
    apply list_elem_of_fmap in Hd as ([s' t'] & [= -> ->] & Ha).
    specialize (Hle s' Ha).
    rewrite is_iso_leb in Hle
      by (by apply (canonical_elem db (_, t')); done).
    by apply Z.leb_le in Hle.
Qed.

Lemma no_row_never_logged db t : no_row_of_type db t ↔ never_logged (day_view db) t.
Proof.
  unfold no_row_of_type, never_logged, day_view. split.
  - intros H d Hd. apply list_elem_of_fmap in Hd as ([s t'] & [= -> ->] & Ha).
    by apply H in Ha.
  - intros H s Hs. apply (H (day_of s)). apply list_elem_of_fmap. by exists (s, t).
Qed.

(** The date the decay finds for a type on a table of ISO dates. *)
Lemma last_day_for_type_day_view db t :
  canonical db →
  last_day_for_type db t = DayLog.last_action_date_for_type (day_view db) t.
Proof.
  intros Hc. unfold last_day_for_type.
  pose proof (last_action_date_for_type_spec db t) as H1.
  pose proof (DayLogFacts.days_last_action_date_for_type_spec (day_view db) t) as H2.
  destruct (last_action_date_for_type db t) as [s|].
  - pose proof (greatest_text_latest db t s Hc H1) as Hl.
    destruct H1 as [Hin _].
    destruct (is_iso_day s (canonical_elem db (s, t) Hc Hin)) as (Hp & _ & _).
    rewrite (decay_day_parsed s _ Hp). cbn.
    destruct (DayLog.last_action_date_for_type (day_view db) t) as [d|].
    + f_equal. by eapply DayLogFacts.latest_unique.
    + destruct Hl as [Hl _]. by apply H2 in Hl.
  - cbn. destruct (DayLog.last_action_date_for_type (day_view db) t) as [d|]; [|done].
    destruct H2 as [H2 _]. by apply no_row_never_logged in H2.
Qed.

(** On a table of ISO dates the full recompute returns, and returns what
    the recompute of the log returns. *)
Lemma recompute_day_view db today :
  canonical db →
  recompute_profile_from_actions db today =
  Some (DayLog.recompute_profile_from_actions (day_view db) today).
Proof.
  intros Hc. destruct (decide (db = [])) as [->|Hne]; [done|].
  destruct (least_text_exists db Hne) as [s Hs].
  rewrite (recompute_cons db today s Hs).
  pose proof (walk_phase_day_view db today Hc Hne) as Hw.
  rewrite (walk_phase_eq db today s Hs) in Hw.
  destruct (parse_date s) as [start|]; [|done]. cbn [mbind option_bind] in *.
  injection Hw as Hw.
  rewrite decide_True by by apply dates_parse_decay, canonical_dates_parse.
  f_equal. rewrite DayLogFacts.recompute_nonempty by by rewrite day_view_nil.
  rewrite Hw. apply DayLogFacts.decay_fold_ext. intros t Ht.
  rewrite last_day_for_type_day_view by done.
  symmetry. by apply DayLogFacts.days_last_date_paths_agree.
Qed.

Lemma did_anything_on_day_view db d :
  canonical db →
  did_anything_on db (isoformat d) = DayLog.did_anything_on (day_view db) d.
Proof.
  intros Hc. unfold did_anything_on, DayLog.did_anything_on.
  induction db as [|a db IH]; [done|].
  apply canonical_cons in Hc as [Ha Hdb].
  cbn [existsb day_view fmap list_fmap fst]. rewrite IH by done. f_equal.
  pose proof (is_iso_eq_isoformat a.1 d Ha) as Hiff.
  destruct (String.eqb_spec a.1 (isoformat d)) as [E|E];
    destruct (Z.eqb_spec (day_of a.1) d) as [E'|E']; tauto.
Qed.

Lemma streak_after_day_view db s d :
  canonical db → streak_after db s d = streak_rule (day_view db) s d.
Proof.
  intros Hc. unfold streak_after, streak_rule.
  rewrite did_anything_on_day_view by done.
  destruct (DayLog.did_anything_on (day_view db) d) eqn:E.
  - apply DayLogFacts.did_anything_on_spec in E. by rewrite decide_True.
  - rewrite decide_False; [done|]. intros H.
    apply DayLogFacts.did_anything_on_spec in H. congruence.
Qed.

Lemma fold_left_pointwise {A B} (f g : A → B → A) (l : list B) :
  (∀ a b, f a b = g a b) → ∀ a, fold_left f l a = fold_left g l a.
Proof.
  intros Hfg. induction l as [|b l IH]; intros a; cbn [fold_left]; [done|].
  by rewrite Hfg, IH.
Qed.

(** On a table of ISO dates the incremental check returns, and returns what
    the check on the log returns. *)
Lemma handle_daily_check_day_view db p current_date :
  canonical db →
  handle_daily_check db p current_date =
  Some (DayLog.handle_daily_check (day_view db) p current_date).
Proof.
  intros Hc. rewrite handle_daily_check_eq.
  rewrite decide_True
    by (right; by apply dates_parse_decay, canonical_dates_parse).
  f_equal. destruct (decide (current_date ≤ last_check_date p)) as [Hle|Hgt].
  - rewrite DayLogFacts.days_handle_daily_check_not_later by done.
    unfold daily_check_result.
    by replace (current_date <=? last_check_date p) with true
      by (symmetry; by apply Z.leb_le).
  - rewrite DayLogFacts.handle_daily_check_later, daily_check_result_later by lia.
    f_equal.
    rewrite (DayLogFacts.decay_fold_ext (last_day_for_type db)
               (DayLog.last_action_date_for_type (day_view db)))
      by (intros t _; by apply last_day_for_type_day_view).
    do 2 f_equal. apply fold_left_pointwise. intros s d.
    by apply streak_after_day_view.
Qed.

Lemma latest_day_day_view db t last :
  canonical db → latest_day db t last ↔ latest (day_view db) t last.
Proof.
  intros Hc. unfold latest_day, latest, day_view. split.
  - intros [(s & Hin & Hp) Hall]. split.
    + apply list_elem_of_fmap. exists (s, t). split; [|done].
      cbn. unfold day_of. by rewrite Hp.
    + intros d Hd. apply list_elem_of_fmap in Hd as ([s' t'] & [= -> ->] & Ha).
      destruct (Hall _ Ha) as (n & Hn & Hle). unfold day_of. by rewrite Hn.
  - intros [Hin Hall]. split.
    + apply list_elem_of_fmap in Hin as ([s t'] & Heq & Ha).
      cbn in Heq. injection Heq as Hl Ht. subst t'.
      exists s. split; [done|].
      destruct (is_iso_day s (canonical_elem db (s, t) Hc Ha)) as (Hp & _).
      by rewrite Hp, <- Hl.
    + intros s Hs.
      destruct (is_iso_day s (canonical_elem db (s, t) Hc Hs)) as (Hp & _).
      exists (day_of s). split; [done|]. apply Hall.
      apply list_elem_of_fmap. by exists (s, t).
Qed.

(** ** Tables of ISO dates: further facts of the log view *)



Lemma day_view_filter (P : Z * string → Prop) `{∀ a, Decision (P a)} db :
  day_view (filter (fun a => P (day_of a.1, a.2)) db) = filter P (day_view db).
Proof.
  induction db as [|a db IH]; [done|].
  unfold day_view in *. rewrite fmap_cons, !filter_cons.
  case_decide; [rewrite fmap_cons|]; by rewrite IH.
Qed.


Lemma day_view_filter_upto db today :
  day_view (filter (fun a => day_of a.1 ≤ today) db) =
  filter (fun a => a.1 ≤ today) (day_view db).
Proof. exact (day_view_filter (fun a => a.1 ≤ today) db). Qed.



(** * The engine on tables of ISO dates *)




(** X1.  On a table of ISO dates the streak of the full recompute is the
    length of the run of consecutive logged days that ends today: the last
    [streak] days up to and including today all have an entry, and the day
    before them has none.  In particular the streak is 0 exactly when
    nothing is logged today. *)
Theorem full_recompute_streak_run db today :
  canonical db →
  ∃ r, recompute_profile_from_actions db today = Some r ∧
    0 ≤ streak r ∧
    (∀ d, today - streak r < d ≤ today → d ∈ (day_view db).*1) ∧
    (today - streak r ∉ (day_view db).*1) ∧
    (streak r = 0 ↔ today ∉ (day_view db).*1).
Proof.
  intros Hc. eexists. split; [by apply recompute_day_view|].
  apply DayLogFacts.days_full_recompute_streak_run.
Qed.

(** X3.  On a table of ISO dates and a date after the last evaluated one,
    the check returns and applies the weak decay to each action type: the
    stat loses 2, floored at 0, when the type has been logged and its most
    recent date is 7 or more days before the current date, and is unchanged
    otherwise, in particular for a type never logged. *)
Theorem daily_check_decay db p current_date t :
  canonical db → last_check_date p < current_date → t ∈ ACTION_TYPES →
  ∃ q, handle_daily_check db p current_date = Some q ∧
    (∀ last, latest (day_view db) t last →
       stat_get q t =
       if decide (7 ≤ current_date - last) then Z.max 0 (stat_get p t - 2)
       else stat_get p t) ∧
    (never_logged (day_view db) t → stat_get q t = stat_get p t).
Proof.
  intros Hc Hlt Ht. eexists. split; [by apply handle_daily_check_day_view|].
  by apply DayLogFacts.days_daily_check_decay.
Qed.

(** X6.  On a table of ISO dates, left unchanged, the streak the
    incremental check reaches from a recomputed profile is the streak a
    full recompute gives on the later date: on the streak the two paths
    agree. *)
Theorem incremental_streak_agrees db d1 d2 :
  canonical db → d1 ≤ d2 →
  ∃ r1 q r2,
    recompute_profile_from_actions db d1 = Some r1 ∧
    handle_daily_check db r1 d2 = Some q ∧
    recompute_profile_from_actions db d2 = Some r2 ∧
    streak q = streak r2.
Proof.
  intros Hc Hle. do 3 eexists.
  split; [by apply recompute_day_view|].
  split; [by apply handle_daily_check_day_view|].
  split; [by apply recompute_day_view|].
  by apply DayLogFacts.days_incremental_streak_agrees.
Qed.

(** X7.  On a table of ISO dates, after the walk and the decay, the stat of
    an action type is its gain times the number of its entries dated today
    or earlier, less 2 (floored at 0) when its most recent entry, of any
    date, is 7 or more days old.  Entries dated after today are not
    counted, yet they count as the most recent entry; a type logged within
    the last six days, or in the future, is not decayed. *)
Theorem full_recompute_stat_closed_form db today t g :
  canonical db → GAIN !! t = Some g →
  ∃ r, recompute_profile_from_actions db today = Some r ∧
    (∀ last, latest (day_view db) t last →
       stat_get r t =
       if decide (7 ≤ today - last)
       then Z.max 0 (g * count_upto (day_view db) t today - 2)
       else g * count_upto (day_view db) t today) ∧
    (never_logged (day_view db) t → stat_get r t = 0) ∧
    (∀ d, (d, t) ∈ day_view db → today - d < 7 →
       stat_get r t = g * count_upto (day_view db) t today).
Proof.
  intros Hc Hg. eexists. split; [by apply recompute_day_view|].
  by apply DayLogFacts.days_full_recompute_stat_closed_form.
Qed.

(** X10.  On a table of ISO dates, consistency after a full recompute is 2
    for each distinct date, today or earlier, that has an entry, whatever
    the number or the types of the entries of the date; it is never
    decayed. *)
Theorem full_recompute_consistency db today :
  canonical db →
  ∃ r, recompute_profile_from_actions db today = Some r ∧
    consistency r =
    2 * Z.of_nat
          (length (filter (fun d => d ≤ today) (remove_dups (day_view db).*1))).
Proof.
  intros Hc. eexists. split; [by apply recompute_day_view|].
  apply DayLogFacts.days_full_recompute_consistency.
Qed.

(** X11.  On a table of ISO dates, entries dated after today have no effect
    on level, experience, consistency, streak or last evaluated date: the
    full recompute gives the same values as on the table without them.  On
    an action stat their only effect is to hold off the decay: the stat is
    at least what it is without them, and the same when the type has no
    entry after today. *)
Theorem future_entries_only_shield db today :
  canonical db →
  ∃ r r',
    recompute_profile_from_actions db today = Some r ∧
    recompute_profile_from_actions
      (filter (fun a => day_of a.1 ≤ today) db) today = Some r' ∧
    level r = level r' ∧ exp r = exp r' ∧ consistency r = consistency r' ∧
    streak r = streak r' ∧ last_check_date r = last_check_date r' ∧
    ∀ t, t ∈ ACTION_TYPES →
      stat_get r' t ≤ stat_get r t ∧
      ((∀ d, (d, t) ∈ day_view db → d ≤ today) → stat_get r t = stat_get r' t).
Proof.
  intros Hc. do 2 eexists.
  split; [by apply recompute_day_view|].
  split; [by apply recompute_day_view, canonical_filter|].
  rewrite day_view_filter_upto.
  apply DayLogFacts.days_future_entries_only_shield.
Qed.


(** X20.  On a table of ISO dates the level and the experience of the full
    recompute are those of a total of 10 experience per entry of a gainful
    type dated today or earlier, plus the streak bonus of every logged day
    of the walk: no experience is lost to decay or to a streak reset. *)
Theorem full_recompute_total_exp db today :
  canonical db →
  ∃ r, recompute_profile_from_actions db today = Some r ∧
    (db = [] → total_exp r = 0) ∧
    (db ≠ [] →
     ∃ start, earliest start (day_view db) ∧
       total_exp r =
       10 * count_if (fun a => a.2 ∈ ACTION_TYPES ∧ a.1 ≤ today) (day_view db) +
       (bonus_walk (day_view db) (seqZ start (today - start + 1))).2).
Proof.
  intros Hc. eexists. split; [by apply recompute_day_view|].
  destruct (DayLogFacts.days_full_recompute_total_exp (day_view db) today)
    as [H0 H1].
  split; [by intros ->|]. intros Hne. apply H1. by rewrite day_view_nil.
Qed.

(** ** The order of the rows *)

(** X14.  [get_all_actions] returns every row of the table once, in
    non-decreasing order of the date text, compared byte by byte, the rows
    of one date text in their order of insertion.  When every stored date
    is in the form [isoformat] writes, this is the non-decreasing order of
    the dates. *)
Theorem get_all_actions_order db :
  get_all_actions db ≡ₚ db ∧
  StronglySorted text_le (get_all_actions db) ∧
  (∀ s, filter (fun a => a.1 = s) (get_all_actions db) =
        filter (fun a => a.1 = s) db) ∧
  (canonical db → StronglySorted date_le (day_view (get_all_actions db))).
Proof.
  split; [apply get_all_actions_perm|].
  split; [apply get_all_actions_sorted|].
  split; [apply get_all_actions_filter|].
  intros Hc. rewrite day_view_get_all_actions by done.
  apply DayLogFacts.days_get_all_actions_sorted.
Qed.

(** ** The recent actions *)

Lemma ltb_leb s1 s2 : String.ltb s1 s2 = negb (String.leb s2 s1).
Proof.
  unfold String.ltb, String.leb. rewrite (String.compare_antisym s2 s1).
  by destruct (String.compare s1 s2).
Qed.

Lemma ltb_trans s1 s2 s3 :
  String.ltb s1 s2 = true → String.ltb s2 s3 = true → String.ltb s1 s3 = true.
Proof.
  rewrite !ltb_leb, !negb_true_iff. intros H1 H2.
  destruct (String.leb s3 s1) eqn:E; [|done].
  apply leb_false in H1. by rewrite (leb_trans _ _ _ E H1) in H2.
Qed.

Lemma ltb_irrefl s : String.ltb s s = false.
Proof. by rewrite ltb_leb, leb_refl. Qed.

Lemma row_newer_eq_spec a b :
  row_newer_eq a b = true ↔
  String.ltb (row_date b) (row_date a) = true ∨
  (row_date b = row_date a ∧ row_id b ≤ row_id a).
Proof.
  unfold row_newer_eq.
  rewrite orb_true_iff, andb_true_iff, String.eqb_eq, Z.leb_le. tauto.
Qed.

Lemma row_newer_eq_trans a b c :
  row_newer_eq a b = true → row_newer_eq b c = true → row_newer_eq a c = true.
Proof.
  rewrite !row_newer_eq_spec. intros [H1|[E1 H1]] [H2|[E2 H2]].
  - left. by eapply ltb_trans.
  - left. by rewrite E2.
  - left. by rewrite <- E1.
  - right. split; [congruence|lia].
Qed.

Lemma row_newer_eq_total a b :
  row_newer_eq a b = false → row_newer_eq b a = true.
Proof.
  intros H. apply row_newer_eq_spec.
  assert (¬ (String.ltb (row_date b) (row_date a) = true ∨
             (row_date b = row_date a ∧ row_id b ≤ row_id a))) as Hn.
  { intros Hc. apply row_newer_eq_spec in Hc. congruence. }
  destruct (String.leb (row_date b) (row_date a)) eqn:E1.
  - destruct (String.leb (row_date a) (row_date b)) eqn:E2.
    + right. pose proof (String.leb_antisym _ _ E1 E2) as Heq.
      split; [done|]. destruct (decide (row_id a ≤ row_id b)); [done|].
      exfalso. apply Hn. right. split; [done|lia].
    + exfalso. apply Hn. left. by rewrite ltb_leb, E2.
  - left. by rewrite ltb_leb, E1.
Qed.

Lemma insert_recent_perm r l : insert_recent r l ≡ₚ r :: l.
Proof.
  induction l as [|b l IH]; cbn; [done|].
  case_match; [done|]. rewrite IH. apply Permutation_swap.
Qed.

Lemma recent_order_perm tbl : foldr insert_recent [] tbl ≡ₚ tbl.
Proof.
  induction tbl as [|r tbl IH]; cbn; [done|].
  rewrite insert_recent_perm. by rewrite IH.
Qed.

Lemma insert_recent_sorted r l :
  StronglySorted (fun a b => row_newer_eq a b = true) l →
  StronglySorted (fun a b => row_newer_eq a b = true) (insert_recent r l).
Proof.
  induction 1 as [|b l Hs IH Hb]; cbn; [repeat constructor|].
  case_match eqn:E.
  - constructor; [by constructor|]. constructor; [done|].
    eapply Forall_impl; [exact Hb|]. intros c Hc. cbn in Hc.
    by eapply row_newer_eq_trans.
  - constructor; [done|]. rewrite insert_recent_perm. constructor; [|done].
    by apply row_newer_eq_total.
Qed.

Lemma recent_order_sorted tbl :
  StronglySorted (fun a b => row_newer_eq a b = true) (foldr insert_recent [] tbl).
Proof.
  induction tbl as [|r tbl IH]; cbn; [constructor|].
  by apply insert_recent_sorted.
Qed.

Lemma StronglySorted_take {A} (R : A → A → Prop) n (l : list A) :
  StronglySorted R l → StronglySorted R (take n l).
Proof.
  intros Hs. revert n. induction Hs as [|a l Hs IH Ha]; intros [|n]; cbn;
    try constructor; [apply IH|].
  rewrite Forall_forall in Ha. apply Forall_forall. intros b Hb.
  apply Ha. by eapply subseteq_take.
Qed.

Lemma StronglySorted_fmap_recent l :
  StronglySorted (fun a b => row_newer_eq a b = true) l →
  StronglySorted newer_first (recent_of_row <$> l).
Proof.
  induction 1 as [|a l Hs IH Ha]; cbn [fmap list_fmap]; constructor; [done|].
  apply Forall_fmap. eapply Forall_impl; [exact Ha|].
  intros b Hb. cbn in *. by apply row_newer_eq_spec in Hb.
Qed.

(** On dates in ISO form the order of the texts is the order of the
    days. *)
Lemma newer_first_later_day l :
  Forall (fun o => is_iso (ra_date o) = true) l →
  StronglySorted newer_first l → StronglySorted later_day_first l.
Proof.
  intros Hiso. induction 1 as [|a l Hs IH Ha]; [constructor|].
  apply Forall_cons_1 in Hiso as [Hia Hil].
  constructor; [by apply IH|].
  rewrite Forall_forall in Ha, Hil. apply Forall_forall. intros b Hb.
  destruct (Ha b Hb) as [Hlt|[Heq Hid]].
  - left. rewrite is_iso_ltb in Hlt by auto. by apply Z.ltb_lt.
  - right. by rewrite Heq.
Qed.

Lemma select_recent_Some tbl limit :
  - 2 ^ 63 ≤ limit < 2 ^ 63 →
  select_recent tbl limit =
  Some (if limit <? 0 then foldr insert_recent [] tbl
        else take (Z.to_nat limit) (foldr insert_recent [] tbl)).
Proof.
  intros Hl. unfold select_recent.
  replace (- 2 ^ 63 <=? limit) with true by (symmetry; apply Z.leb_le; lia).
  replace (limit <? 2 ^ 63) with true by (symmetry; apply Z.ltb_lt; lia).
  cbn [andb]. f_equal. destruct (limit <? 0) eqn:E; [done|].
  apply Z.ltb_ge in E.
  destruct (decide (limit ≤ Z.of_nat (length (foldr insert_recent [] tbl)))).
  - by rewrite Z.min_l by lia.
  - rewrite Z.min_r, Nat2Z.id by lia. rewrite !take_ge; [done|lia|lia].
Qed.

Lemma select_recent_None tbl limit :
  ¬ (- 2 ^ 63 ≤ limit < 2 ^ 63) → select_recent tbl limit = None.
Proof.
  intros Hl. unfold select_recent.
  destruct (- 2 ^ 63 <=? limit) eqn:E1; [|done].
  destruct (limit <? 2 ^ 63) eqn:E2; [|done].
  apply Z.leb_le in E1. apply Z.ltb_lt in E2. lia.
Qed.

(** X21.  [get_recent_actions] returns exactly when the limit fits a signed
    64-bit integer.  It lists rows of the table, the largest date text
    first, the texts compared byte by byte, and, within a date text, the
    largest id first; when every stored date is in the form [isoformat]
    writes, this is the latest date first.  With a limit of at least 0 it
    returns the first [limit] of them, all of them when there are fewer.
    Each returned dictionary carries the id, date and type of its row, the
    Korean label of the type for the five action types and the type itself
    for any other, and the note, the empty string for a missing one. *)
Theorem get_recent_actions_spec tbl limit :
  (is_Some (get_recent_actions tbl limit) ↔ - 2 ^ 63 ≤ limit < 2 ^ 63) ∧
  (∃ all, get_recent_actions tbl (-1) = Some all ∧
          all ≡ₚ recent_of_row <$> tbl) ∧
  ∀ out, get_recent_actions tbl limit = Some out →
    StronglySorted newer_first out ∧
    (Forall (fun r => is_iso (row_date r) = true) tbl →
     StronglySorted later_day_first out) ∧
    (0 ≤ limit →
     length out = Nat.min (Z.to_nat limit) (length tbl) ∧
     ∃ all, get_recent_actions tbl (-1) = Some all ∧
            out = take (Z.to_nat limit) all) ∧
    ∀ o, o ∈ out →
      ∃ r, r ∈ tbl ∧ ra_id o = row_id r ∧ ra_date o = row_date r ∧
           ra_type o = row_type r ∧
           ra_note o = default ""%string (row_note r) ∧
           (row_type r ∈ ACTION_TYPES →
            TYPE_KO !! row_type r = Some (ra_type_ko o)) ∧
           (row_type r ∉ ACTION_TYPES → ra_type_ko o = row_type r).
Proof.
  pose proof (recent_order_sorted tbl) as Hs.
  pose proof (recent_order_perm tbl) as Hp.
  assert (get_recent_actions tbl (-1) =
          Some (recent_of_row <$> foldr insert_recent [] tbl)) as Hall.
  { unfold get_recent_actions. by rewrite select_recent_Some by lia. }
  split; [|split].
  - unfold get_recent_actions.
    destruct (decide (- 2 ^ 63 ≤ limit < 2 ^ 63)) as [Hl|Hl].
    + rewrite select_recent_Some by done. split; [done|]. by eexists.
    + rewrite select_recent_None by done. split; [by intros [? [=]]|done].
  - eexists. split; [exact Hall|]. by rewrite Hp.
  - intros out Hout. unfold get_recent_actions in Hout.
    destruct (decide (- 2 ^ 63 ≤ limit < 2 ^ 63)) as [Hl|Hl];
      [|by rewrite select_recent_None in Hout].
    rewrite select_recent_Some in Hout by done. injection Hout as <-.
    set (rows := foldr insert_recent [] tbl) in *.
    assert (∀ r, r ∈ (if limit <? 0 then rows else take (Z.to_nat limit) rows) →
                 r ∈ tbl) as Hsub.
    { intros r Hr. rewrite <- Hp.
      destruct (limit <? 0); [done|]. by eapply subseteq_take. }
    assert (StronglySorted newer_first
              (recent_of_row <$>
                 (if limit <? 0 then rows else take (Z.to_nat limit) rows)))
      as Hsorted.
    { apply StronglySorted_fmap_recent. case_match; [done|].
      by apply StronglySorted_take. }
    split; [done|]. split; [|split].
    + intros Hiso. apply newer_first_later_day; [|done].
      apply Forall_fmap, Forall_forall. intros r Hr. cbn.
      rewrite Forall_forall in Hiso. by apply Hiso, Hsub.
    + intros Hl0.
      replace (limit <? 0) with false by (symmetry; apply Z.ltb_ge; lia).
      split.
      * rewrite length_fmap, length_take. by rewrite Hp.
      * eexists. split; [exact Hall|]. by rewrite fmap_take.
    + intros o Ho. apply list_elem_of_fmap in Ho as (r & -> & Hr).
      exists r. split; [by apply Hsub|].
      unfold recent_of_row. cbn [ra_id ra_date ra_type ra_type_ko ra_note].
      repeat split.
      * intros Ht. unfold ACTION_TYPES in Ht.
        elem_cases Ht; rewrite Ht; reflexivity.
      * intros Ht. unfold ACTION_TYPES in Ht.
        assert (TYPE_KO !! row_type r = None) as ->; [|done].
        unfold TYPE_KO. apply not_elem_of_list_to_map_1. cbn.
        intros Hin. apply Ht. elem_cases Hin; rewrite Hin; elem_solve.
Qed.

(** * Instances on concrete tables

    The dates of the tables: 2024-01-01 is day 738886, 2024-01-05 day 738890
    and 2024-01-11 day 738896. *)

Ltac log_eval :=
  repeat match goal with
  | |- context [day_view ?db] =>
      let v := eval vm_compute in (day_view db) in change (day_view db) with v
  end.

Ltac log_cases H :=
  apply list_elem_of_In in H; simpl in H;
  repeat (destruct H as [H|H]; [inversion H; subst; clear H|]);
  try contradiction.





Lemma full_recompute_streak_run_witness :
  ∃ r, recompute_profile_from_actions
         [("2024-01-01", "strength"); ("2024-01-02", "wealth");
     ("2024-01-03", "stamina"); ("2024-01-05", "discipline")]%string 738890 = Some r ∧
       0 ≤ streak r ∧
       (∀ d, 738890 - streak r < d ≤ 738890 →
          d ∈ (day_view
                 [("2024-01-01", "strength"); ("2024-01-02", "wealth");
     ("2024-01-03", "stamina"); ("2024-01-05", "discipline")]%string).*1) ∧
       (738890 - streak r ∉
          (day_view
             [("2024-01-01", "strength"); ("2024-01-02", "wealth");
     ("2024-01-03", "stamina"); ("2024-01-05", "discipline")]%string).*1) ∧
       (streak r = 0 ↔
        738890 ∉
          (day_view
             [("2024-01-01", "strength"); ("2024-01-02", "wealth");
     ("2024-01-03", "stamina"); ("2024-01-05", "discipline")]%string).*1).
Proof.
  apply (full_recompute_streak_run
           [("2024-01-01", "strength"); ("2024-01-02", "wealth");
     ("2024-01-03", "stamina"); ("2024-01-05", "discipline")]%string 738890).
  vm_compute; reflexivity.
Defined.

Lemma daily_check_frame_witness :
  handle_daily_check [("2024-01-01", "strength"); ("2024-01-04", "wealth")]%string
    (mkProfile 3 40 15 0 6 7 0 8 2 738890) 738890 =
  Some (mkProfile 3 40 15 0 6 7 0 8 2 738890).
Proof.
  apply (daily_check_frame
           [("2024-01-01", "strength"); ("2024-01-04", "wealth")]%string
           (mkProfile 3 40 15 0 6 7 0 8 2 738890) 738890).
  cbn. lia.
Defined.

Lemma daily_check_idempotent_witness :
  handle_daily_check
    [("2024-01-01", "strength"); ("2024-01-04", "wealth");
     ("2024-01-10", "wealth")]%string
    (mkProfile 1 30 3 0 0 7 0 4 0 738896) 738896 =
  Some (mkProfile 1 30 3 0 0 7 0 4 0 738896) ∧
  last_check_date (mkProfile 1 30 3 0 0 7 0 4 0 738896) =
  Z.max (last_check_date (mkProfile 1 30 5 0 0 7 0 4 1 738889)) 738896.
Proof.
  apply (daily_check_idempotent
           [("2024-01-01", "strength"); ("2024-01-04", "wealth");
     ("2024-01-10", "wealth")]%string
           (mkProfile 1 30 5 0 0 7 0 4 1 738889) 738896
           (mkProfile 1 30 3 0 0 7 0 4 0 738896)).
  vm_compute; reflexivity.
Defined.

(** Strength, last logged 10 days before the check, loses 2. *)
Lemma daily_check_decay_witness :
  ∃ q, handle_daily_check
         [("2024-01-01", "strength"); ("2024-01-04", "wealth");
     ("2024-01-10", "wealth")]%string
         (mkProfile 1 30 5 0 0 7 0 4 1 738889) 738896 = Some q ∧
       stat_get q "strength" = 3.
Proof.
  destruct (daily_check_decay
              [("2024-01-01", "strength"); ("2024-01-04", "wealth");
     ("2024-01-10", "wealth")]%string
              (mkProfile 1 30 5 0 0 7 0 4 1 738889) 738896 "strength"%string)
    as (q & Hq & Hdec & _); [vm_compute; reflexivity|cbn; lia|elem_solve|].
  exists q. split; [exact Hq|].
  rewrite (Hdec 738886); [reflexivity|]. log_eval.
  split; [elem_solve|]. intros d' Hd'. log_cases Hd'; lia.
Defined.

Lemma daily_check_keeps_invariant_witness :
  profile_ok (mkProfile 1 30 3 0 0 7 0 4 0 738896) ∧
  ∀ k, k ∈ STAT_KEYS →
    stat_get (mkProfile 1 30 3 0 0 7 0 4 0 738896) k ≤
    stat_get (mkProfile 1 30 5 0 0 7 0 4 1 738889) k.
Proof.
  apply (daily_check_keeps_invariant
           [("2024-01-01", "strength"); ("2024-01-04", "wealth");
     ("2024-01-10", "wealth")]%string
           (mkProfile 1 30 5 0 0 7 0 4 1 738889) 738896).
  - unfold profile_ok, need_exp_for_next. cbn. lia.
  - vm_compute; reflexivity.
Defined.

Lemma daily_check_after_recompute_witness :
  handle_daily_check
    [("2024-01-01", "strength"); ("2024-01-04", "wealth");
     ("2024-01-10", "wealth")]%string
    (mkProfile 1 30 3 0 0 14 0 6 0 738896) 738890 =
  Some (mkProfile 1 30 3 0 0 14 0 6 0 738896).
Proof.
  apply (daily_check_after_recompute
           [("2024-01-01", "strength"); ("2024-01-04", "wealth");
     ("2024-01-10", "wealth")]%string 738896 738890); [lia|].
  vm_compute; reflexivity.
Defined.

Lemma incremental_streak_agrees_witness :
  ∃ r1 q r2,
    recompute_profile_from_actions
      [("2024-01-01", "strength"); ("2024-01-02", "wealth");
     ("2024-01-03", "stamina"); ("2024-01-05", "discipline")]%string 738888 = Some r1 ∧
    handle_daily_check
      [("2024-01-01", "strength"); ("2024-01-02", "wealth");
     ("2024-01-03", "stamina"); ("2024-01-05", "discipline")]%string r1 738890 = Some q ∧
    recompute_profile_from_actions
      [("2024-01-01", "strength"); ("2024-01-02", "wealth");
     ("2024-01-03", "stamina"); ("2024-01-05", "discipline")]%string 738890 = Some r2 ∧
    streak q = streak r2.
Proof.
  apply (incremental_streak_agrees
           [("2024-01-01", "strength"); ("2024-01-02", "wealth");
     ("2024-01-03", "stamina"); ("2024-01-05", "discipline")]%string 738888 738890); [vm_compute; reflexivity|lia].
Defined.

(** Wealth, logged the day before today, is undecayed: 7 for each of its
    two entries. *)
Lemma full_recompute_stat_closed_form_witness :
  ∃ r, recompute_profile_from_actions
         [("2024-01-01", "strength"); ("2024-01-04", "wealth");
     ("2024-01-10", "wealth")]%string 738896 = Some r ∧
       stat_get r "wealth" = 14.
Proof.
  destruct (full_recompute_stat_closed_form
              [("2024-01-01", "strength"); ("2024-01-04", "wealth");
     ("2024-01-10", "wealth")]%string 738896 "wealth"%string 7)
    as (r & Hr & _ & _ & Hrecent); [vm_compute; reflexivity|reflexivity|].
  exists r. split; [exact Hr|].
  rewrite (Hrecent 738895); [vm_compute; reflexivity|log_eval; elem_solve|lia].
Defined.

Lemma full_recompute_consistency_witness :
  ∃ r, recompute_profile_from_actions
         [("2024-01-01", "strength"); ("2024-01-04", "wealth");
     ("2024-01-10", "wealth")]%string 738896 = Some r ∧
       consistency r = 6.
Proof.
  destruct (full_recompute_consistency
              [("2024-01-01", "strength"); ("2024-01-04", "wealth");
     ("2024-01-10", "wealth")]%string 738896) as (r & Hr & Hc); [vm_compute; reflexivity|].
  exists r. split; [exact Hr|]. rewrite Hc. vm_compute; reflexivity.
Defined.

(** An entry dated after today shields strength from the decay, and
    changes nothing else. *)
Lemma future_entries_only_shield_witness :
  ∃ r r',
    recompute_profile_from_actions
      [("2024-01-01", "strength"); ("2024-01-20", "strength")]%string 738896 = Some r ∧
    recompute_profile_from_actions
      (filter (fun a => day_of a.1 ≤ 738896)
         [("2024-01-01", "strength"); ("2024-01-20", "strength")]%string) 738896 = Some r' ∧
    level r = level r' ∧ exp r = exp r' ∧ consistency r = consistency r' ∧
    streak r = streak r' ∧ last_check_date r = last_check_date r' ∧
    stat_get r' "strength" ≤ stat_get r "strength".
Proof.
  destruct (future_entries_only_shield
              [("2024-01-01", "strength"); ("2024-01-20", "strength")]%string 738896)
    as (r & r' & Hr & Hr' & Hl & He & Hc & Hs & Hd & Hstat);
    [vm_compute; reflexivity|].
  exists r, r'. repeat (split; [assumption|]).
  apply Hstat. elem_solve.
Defined.

Lemma incremental_decays_again_witness :
  ∃ r1 q r2,
    recompute_profile_from_actions [("2024-01-01", "wealth"); ("2024-01-02", "wealth")]%string 738895 = Some r1 ∧
    handle_daily_check [("2024-01-01", "wealth"); ("2024-01-02", "wealth")]%string r1 738896 = Some q ∧
    recompute_profile_from_actions [("2024-01-01", "wealth"); ("2024-01-02", "wealth")]%string 738896 = Some r2 ∧
    stat_get q "wealth" = Z.max 0 (stat_get r2 "wealth" - 2).
Proof.
  do 3 eexists.
  split; [vm_compute; reflexivity|]. split; [vm_compute; reflexivity|].
  split; [vm_compute; reflexivity|].
  eapply (incremental_decays_again
            [("2024-01-01", "wealth"); ("2024-01-02", "wealth")]%string
            738895 738896 "wealth"%string 738887);
    [elem_solve| |lia|lia|vm_compute; reflexivity..].
  split.
  - exists "2024-01-02"%string. split; [elem_solve|vm_compute; reflexivity].
  - intros s Hs. log_cases Hs; eexists; (split; [vm_compute; reflexivity|lia]).
Defined.

Lemma daily_checks_compose_witness :
  ∃ q twice once,
    handle_daily_check
      [("2024-01-01", "strength"); ("2024-01-04", "wealth");
     ("2024-01-10", "wealth")]%string
      (mkProfile 1 30 5 0 0 7 0 4 1 738889) 738892 = Some q ∧
    handle_daily_check
      [("2024-01-01", "strength"); ("2024-01-04", "wealth");
     ("2024-01-10", "wealth")]%string q 738896 = Some twice ∧
    handle_daily_check
      [("2024-01-01", "strength"); ("2024-01-04", "wealth");
     ("2024-01-10", "wealth")]%string
      (mkProfile 1 30 5 0 0 7 0 4 1 738889) 738896 = Some once ∧
    streak twice = streak once ∧
    ∀ k, k ∈ STAT_KEYS → stat_get twice k ≤ stat_get once k.
Proof.
  do 3 eexists.
  split; [vm_compute; reflexivity|]. split; [vm_compute; reflexivity|].
  split; [vm_compute; reflexivity|].
  destruct (daily_checks_compose
              [("2024-01-01", "strength"); ("2024-01-04", "wealth");
     ("2024-01-10", "wealth")]%string
              (mkProfile 1 30 5 0 0 7 0 4 1 738889) 738892 738896) as [_ H].
  - cbn. lia.
  - lia.
  - intros k Hk. unfold STAT_KEYS in Hk. elem_cases Hk; subst k; vm_compute;
      discriminate.
  - destruct (H _ _ _ eq_refl eq_refl eq_refl) as (Hs & _ & _ & _ & _ & Hk).
    split; [exact Hs|exact Hk].
Defined.

Lemma full_recompute_monotone_in_today_witness :
  ∃ r', recompute_profile_from_actions
          [("2024-01-01", "strength"); ("2024-01-04", "wealth");
     ("2024-01-10", "wealth")]%string 738896 = Some r' ∧
        level (mkProfile 1 20 5 0 0 7 0 4 0 738890) ≤ level r' ∧
        total_exp (mkProfile 1 20 5 0 0 7 0 4 0 738890) ≤ total_exp r' ∧
        consistency (mkProfile 1 20 5 0 0 7 0 4 0 738890) ≤ consistency r'.
Proof.
  apply (full_recompute_monotone_in_today
           [("2024-01-01", "strength"); ("2024-01-04", "wealth");
     ("2024-01-10", "wealth")]%string 738890 738896); [lia|].
  vm_compute; reflexivity.
Defined.

Lemma full_recompute_order_independent_witness :
  recompute_profile_from_actions
    [("2024-01-04", "wealth"); ("2024-01-01", "strength")]%string 738890 =
  recompute_profile_from_actions
    [("2024-01-01", "strength"); ("2024-01-04", "wealth")]%string 738890.
Proof.
  apply (full_recompute_order_independent
           [("2024-01-04", "wealth"); ("2024-01-01", "strength")]%string
           [("2024-01-01", "strength"); ("2024-01-04", "wealth")]%string 738890).
  apply perm_swap.
Defined.


Lemma full_recompute_total_exp_witness :
  ∃ r, recompute_profile_from_actions
         [("2024-01-01", "strength"); ("2024-01-02", "wealth");
     ("2024-01-03", "stamina"); ("2024-01-05", "discipline")]%string 738890 = Some r ∧
    ∃ start,
      earliest start
        (day_view
           [("2024-01-01", "strength"); ("2024-01-02", "wealth");
     ("2024-01-03", "stamina"); ("2024-01-05", "discipline")]%string) ∧
      total_exp r =
      10 * count_if (fun a => a.2 ∈ ACTION_TYPES ∧ a.1 ≤ 738890)
             (day_view
                [("2024-01-01", "strength"); ("2024-01-02", "wealth");
     ("2024-01-03", "stamina"); ("2024-01-05", "discipline")]%string) +
      (bonus_walk
         (day_view
            [("2024-01-01", "strength"); ("2024-01-02", "wealth");
     ("2024-01-03", "stamina"); ("2024-01-05", "discipline")]%string)
         (seqZ start (738890 - start + 1))).2.
Proof.
  destruct (full_recompute_total_exp
              [("2024-01-01", "strength"); ("2024-01-02", "wealth");
     ("2024-01-03", "stamina"); ("2024-01-05", "discipline")]%string 738890) as (r & Hr & _ & H); [vm_compute; reflexivity|].
  exists r. split; [exact Hr|]. apply H. discriminate.
Defined.

Lemma full_recompute_streak_le_consistency_witness :
  ∃ r, recompute_profile_from_actions
         [("2024-01-01", "strength"); ("2024-01-02", "wealth");
     ("2024-01-03", "stamina"); ("2024-01-05", "discipline")]%string 738890 = Some r ∧
       2 * streak r ≤ consistency r.
Proof.
  eexists. split; [vm_compute; reflexivity|].
  apply (full_recompute_streak_le_consistency
           [("2024-01-01", "strength"); ("2024-01-02", "wealth");
     ("2024-01-03", "stamina"); ("2024-01-05", "discipline")]%string 738890).
  vm_compute; reflexivity.
Defined.

(** * Date texts that [isoformat] does not write

    [/update] stores the new date as typed once [parse_date] accepts it,
    and [parse_date] accepts a month or a day without its leading zero, and
    a day with a space in its place.  On such a row the text and the date
    part ways: the queries order and compare the text, the day loop looks a
    day up under its [isoformat] text. *)

Example parse_date_texts :
  parse_date "2024-01-05" = Some 738890 ∧ isoformat 738890 = "2024-01-05"%string ∧
  parse_date "2024-1-5" = Some 738890 ∧ parse_date "2024-01- 9" = Some 738894 ∧
  parse_date "2024-02-29" = Some 738945 ∧ parse_date "2023-02-29" = None ∧
  parse_date "2024-01-05 " = None ∧ parse_date "24-01-05" = None ∧
  isoformat 1 = "0001-01-01"%string ∧ isoformat MAXORDINAL = "9999-12-31"%string.
Proof. vm_compute. repeat split. Qed.

(** The rows come back in the order of the texts, not of the dates. *)
Example get_all_actions_texts :
  get_all_actions
    [("2024-01-20", "x"); ("2024-01-05", "strength"); ("2024-01- 9", "wealth");
     ("2024-1-5", "stamina")]%string =
  [("2024-01- 9", "wealth"); ("2024-01-05", "strength"); ("2024-01-20", "x");
   ("2024-1-5", "stamina")]%string.
Proof. vm_compute. reflexivity. Qed.

(** The most recent date of a type is the largest text: here 5 January,
    although the type was logged on the 20th, and the check of the 21st
    decays the stat. *)
Example daily_check_decay_unpadded_date :
  last_action_date_for_type
    [("2024-1-5", "strength"); ("2024-01-20", "strength")]%string "strength" =
  Some "2024-1-5"%string ∧
  handle_daily_check
    [("2024-1-5", "strength"); ("2024-01-20", "strength")]%string
    (mkProfile 1 20 10 0 0 0 0 4 1 738905) 738906 =
  Some (mkProfile 1 20 8 0 0 0 0 4 0 738906).
Proof. vm_compute. split; reflexivity. Qed.

(** The walk starts at the date of the least text, here 9 January, after
    today: the full recompute of 5 January walks no day and has streak 0,
    while the incremental check from the day before finds the entry of the
    5th and has streak 1. *)
Example incremental_streak_unpadded_date :
  recompute_profile_from_actions
    [("2024-01- 9", "x"); ("2024-01-05", "strength")]%string 738889 =
  Some (zero_profile 738889) ∧
  handle_daily_check
    [("2024-01- 9", "x"); ("2024-01-05", "strength")]%string
    (zero_profile 738889) 738890 =
  Some (mkProfile 1 0 0 0 0 0 0 0 1 738890) ∧
  recompute_profile_from_actions
    [("2024-01- 9", "x"); ("2024-01-05", "strength")]%string 738890 =
  Some (zero_profile 738890).
Proof. vm_compute. repeat split. Qed.

(** Logging today counts the rows whose text is today's [isoformat] text:
    the row stored as [2024-1-5] is not one of them. *)
Example log_today_unpadded_date :
  log_today [("2024-1-5", "wealth")]%string (zero_profile 738890) 738890
    ["wealth"%string] =
  ([("2024-1-5", "wealth"); ("2024-01-05", "wealth")]%string,
   Some (mkProfile 1 10 0 0 0 7 0 2 1 738890)).
Proof. vm_compute. reflexivity. Qed.

(** A text that [parse_date] rejects, which no request of the application
    stores, makes the recompute raise. *)
Example full_recompute_rejected_text :
  recompute_profile_from_actions
    [("2024-01-05", "strength"); ("yesterday", "wealth")]%string 738890 = None.
Proof. vm_compute. reflexivity. Qed.
